(** * yajsml: the bundling protocol engine of the module server

    A shallow embedding of [server.js] (request classification, conditional
    cache evaluation, bundle packaging, redirect canonicalisation) and of
    [associators.js] (association tables, aliases, the three associators),
    followed by the properties proved about them.

    Conventions of the embedding.
    - JavaScript strings are [string]; a character is one code unit below 256.
    - JavaScript numbers that hold integers (HTTP statuses, timestamps in
      milliseconds, [max-age] seconds) are [Z]; [NaN] and [undefined] are
      [None]. Values above 2^53 are outside the embedding.
    - A header object is a [gmap string string]: only lookups matter there.
      The module map handed to [packagedDefine] is enumerated, so it is an
      ordered property list with the enumeration order of the language.
    - Property names that an object treats specially ([__proto__]) are
      outside the embedding.
    - Built-ins of the platform ([Date.parse], [Date.prototype.toUTCString],
      [path.posix.normalize]) and the fetch collaborator of [request.js] are
      fields of a [Host] record that every server definition takes. *)

From Stdlib Require Import ZArith Ascii String List Bool Lia.
From stdpp Require Import base option list strings gmap fin_sets pretty.

Local Open Scope Z_scope.

(* [set_solver] clears hypotheses that an earlier step already consumed. *)
#[local] Set Warnings "-clear-no-such-hyp".

(** ** Strings the way the source uses them *)

Module Str.

(** [s.split(sep)] for a one-character separator. *)
Fixpoint split (sep : ascii) (s : string) : list string :=
  match s with
  | EmptyString => [EmptyString]
  | String c s' =>
      if Ascii.eqb c sep then EmptyString :: split sep s'
      else match split sep s' with
           | [] => [String c EmptyString]
           | w :: ws => String c w :: ws
           end
  end.

(** [l.join(sep)]. *)
Fixpoint join (sep : string) (l : list string) : string :=
  match l with
  | [] => ""
  | [x] => x
  | x :: rest => x +:+ sep +:+ join sep rest
  end.

(** [s.repeat(n)]. *)
Fixpoint repeat (s : string) (n : nat) : string :=
  match n with
  | O => ""
  | S n' => s +:+ repeat s n'
  end.

(** [s.startsWith(p)], which is also [s.indexOf(p) === 0]. *)
Fixpoint startsWith (p s : string) : bool :=
  match p, s with
  | EmptyString, _ => true
  | String a p', String b s' => Ascii.eqb a b && startsWith p' s'
  | String _ _, EmptyString => false
  end.

Fixpoint endsWith_char (c : ascii) (s : string) : bool :=
  match s with
  | EmptyString => false
  | String d EmptyString => Ascii.eqb c d
  | String _ s' => endsWith_char c s'
  end.

(** [s.slice(n)] for [0 <= n]. *)
Fixpoint drop (n : nat) (s : string) : string :=
  match n, s with
  | O, _ => s
  | S n', String _ s' => drop n' s'
  | S _, EmptyString => EmptyString
  end.

(** [s.slice(-n)]: the last [n] characters. *)
Definition takeLast (n : nat) (s : string) : string :=
  drop (String.length s - n)%nat s.

Fixpoint forallb (p : ascii -> bool) (s : string) : bool :=
  match s with
  | EmptyString => true
  | String c s' => p c && forallb p s'
  end.

Fixpoint mem (c : ascii) (s : string) : bool :=
  match s with
  | EmptyString => false
  | String d s' => Ascii.eqb c d || mem c s'
  end.

Fixpoint concat (l : list string) : string :=
  match l with
  | [] => ""
  | x :: rest => x +:+ concat rest
  end.

Definition isEmpty (s : string) : bool :=
  match s with EmptyString => true | _ => false end.

Definition isDigit (c : ascii) : bool :=
  let n := N_of_ascii c in ((48 <=? n) && (n <=? 57))%N.

Definition isUpper (c : ascii) : bool :=
  let n := N_of_ascii c in ((65 <=? n) && (n <=? 90))%N.

Definition isLower (c : ascii) : bool :=
  let n := N_of_ascii c in ((97 <=? n) && (n <=? 122))%N.

(** The character class [[0-9A-Za-z]]. *)
Definition isAlnum (c : ascii) : bool := isDigit c || isUpper c || isLower c.

(** The longest prefix of decimal digits: what [\d+] consumes. *)
Fixpoint takeDigits (s : string) : string :=
  match s with
  | String c s' => if isDigit c then String c (takeDigits s') else ""
  | EmptyString => ""
  end.

(** The value of a string of decimal digits ([parseInt(s, 10)] on it). *)
Definition digitsValue (s : string) : Z :=
  let fix go (acc : Z) (s : string) : Z :=
    match s with
    | EmptyString => acc
    | String c s' => go (10 * acc + (Z.of_N (N_of_ascii c) - 48)) s'
    end in
  go 0 s.

(** The line feed and the double quote, which a literal cannot hold. *)
Definition LF : string := String (ascii_of_nat 10) EmptyString.
Definition DQ : string := String (ascii_of_nat 34) EmptyString.

End Str.

(** ** associators.js *)

Module Associators.

(** A member of a bundle description: a module path, or
    [new Alias(alias, target)]. *)
Inductive Member :=
| Mod (path : string)
| Alias (alias target : string).

#[global] Instance Member_eq_dec : EqDecision Member.
Proof. solve_decision. Defined.

(** [module instanceof Alias ? module.alias : module] *)
Definition moduleNameOf (module : Member) : string :=
  match module with
  | Mod path => path
  | Alias alias _ => alias
  end.

(** [module instanceof Alias ? module.target : null]; [None] is [null]. *)
Definition targetNameOf (module : Member) : option string :=
  match module with
  | Mod _ => None
  | Alias _ target => Some target
  end.

(** The three [throw]s of [associationsForSimpleMapping]. [OutOfSteps] is
    not one of them: it is the answer of the embedding when the bounded
    [while] loop below exhausts its bound, which
    [associationsForSimpleMapping_terminates] shows never to happen. *)
Inductive Error :=
| BundleAlreadyDefined (bundle : string)
| ConflictingDefinition (moduleName : string)
| AliasLoop (moduleName : string)
| OutOfSteps.

Inductive Result (A : Type) :=
| Ok (a : A)
| Throw (e : Error).
Arguments Ok {A} a.
Arguments Throw {A} e.

Definition bind {A B} (r : Result A) (k : A -> Result B) : Result B :=
  match r with
  | Ok a => k a
  | Throw e => Throw e
  end.

#[global] Instance Result_bind : MBind Result := fun A B k r => bind r k.

(** A [for ... of] loop whose body may throw. *)
Fixpoint forOf {A S} (body : S -> A -> Result S) (l : list A) (s : S)
  : Result S :=
  match l with
  | [] => Ok s
  | a :: rest => s' ← body s a; forOf body rest s'
  end.

(** [Object.entries(mapping)]: the simple description of the bundles. *)
Abbreviation Mapping := (list (string * list Member)).

(** [hasOwnProperty(mapping, k)] *)
Definition hasOwn (mapping : Mapping) (k : string) : bool :=
  bool_decide (k ∈ mapping.*1).

(** The [Map] called [indirections]: keys in insertion order, the value
    [None] being [null]. *)
Abbreviation Indirections := (list (string * option string)).

(** [indirections.get(k)]: the outer [None] is [undefined]. *)
Fixpoint indGet (ind : Indirections) (k : string) : option (option string) :=
  match ind with
  | [] => None
  | (k', v) :: rest => if decide (k = k') then Some v else indGet rest k
  end.

(** [indirections.set(k, v)]: a known key keeps its place. *)
Fixpoint indSet (k : string) (v : option string) (ind : Indirections)
  : Indirections :=
  match ind with
  | [] => [(k, v)]
  | (k', v') :: rest =>
      if decide (k = k') then (k, v) :: rest else (k', v') :: indSet k v rest
  end.

(** What [next] becomes in [[real, next] = [next, indirections.get(next)]];
    [null] and [undefined] both end the loop ([next != null]). *)
Definition indTarget (ind : Indirections) (k : string) : option string :=
  mjoin (indGet ind k).

(** The three structures of the first loop. *)
Record Tables := {
  bundleToModules : gmap string (list Member);
  moduleToBundle : gmap string string;
  indirections : Indirections;
}.

(** The body of [for (const module of modules)]. *)
Definition addModule (mapping : Mapping) (bundle : string)
    (st : gmap string string * Indirections) (module : Member)
  : Result (gmap string string * Indirections) :=
  let '(m2b, ind) := st in
  let moduleName := moduleNameOf module in
  let targetName := targetNameOf module in
  match indGet ind moduleName with
  | Some t =>
      if decide (t = targetName) then Ok tt
      else Throw (ConflictingDefinition moduleName)
  | None => Ok tt
  end ;;
  let ind := indSet moduleName targetName ind in
  match module with
  | Alias _ _ => Ok (m2b, ind)
  | Mod _ =>
      if negb (hasOwn mapping moduleName) || bool_decide (moduleName = bundle)
      then Ok (<[moduleName := bundle]> m2b, ind)
      else Ok (m2b, ind)
  end.

(** The body of [for (const [bundle, modules] of Object.entries(mapping))]. *)
Definition addBundle (mapping : Mapping) (t : Tables)
    (entry : string * list Member) : Result Tables :=
  let '(bundle, modules) := entry in
  match bundleToModules t !! bundle with
  | Some _ => Throw (BundleAlreadyDefined bundle)
  | None =>
      '(m2b, ind) ← forOf (addModule mapping bundle) modules
                       (moduleToBundle t, indirections t);
      Ok {| bundleToModules := <[bundle := modules]> (bundleToModules t);
            moduleToBundle := m2b;
            indirections := ind |}
  end.

Definition emptyTables : Tables :=
  {| bundleToModules := ∅; moduleToBundle := ∅; indirections := [] |}.

Definition firstLoop (mapping : Mapping) : Result Tables :=
  forOf (addBundle mapping) mapping emptyTables.

(** The [while (next != null)] loop, bounded by [steps]. *)
Fixpoint resolveLoop (steps : nat) (ind : Indirections) (moduleName : string)
    (seen : gset string) (real : string) (next : option string)
  : Result string :=
  match next with
  | None => Ok real
  | Some n =>
      match steps with
      | O => Throw OutOfSteps
      | S steps' =>
          if decide (n ∈ seen) then Throw (AliasLoop moduleName)
          else resolveLoop steps' ind moduleName ({[n]} ∪ seen) n
                 (indTarget ind n)
      end
  end.

(** The body of [for (const [moduleName, target] of indirections)]. *)
Definition resolveEntry (ind : Indirections) (m2b : gmap string string)
    (entry : string * option string) : Result (gmap string string) :=
  let '(moduleName, target) := entry in
  real ← resolveLoop (S (length ind)) ind moduleName {[moduleName]}
            moduleName target;
  Ok (<[moduleName := default real (m2b !! real)]> m2b).

Definition secondLoop (ind : Indirections) (m2b : gmap string string)
  : Result (gmap string string) :=
  forOf (resolveEntry ind) ind m2b.

(** The pair [[bundleToModules, moduleToBundle]]. *)
Abbreviation Associations := (gmap string (list Member) * gmap string string)%type.

Definition associationsForSimpleMapping (mapping : Mapping)
  : Result Associations :=
  t ← firstLoop mapping;
  m2b ← secondLoop (indirections t) (moduleToBundle t);
  Ok (bundleToModules t, m2b).

(** The three classes. [StaticAssociator] holds its two maps and [_next]. *)
Inductive Associator :=
| IdentityAssociator
| SimpleAssociator
| StaticAssociator (packageModuleMap : gmap string (list Member))
    (modulePackageMap : gmap string string) (next : Associator).

(** [new StaticAssociator(associations, next)], with
    [next || new IdentityAssociator()]. *)
Definition newStaticAssociator (associations : Associations)
    (next : option Associator) : Associator :=
  StaticAssociator associations.1 associations.2
    (default IdentityAssociator next).

(** The character class of [.] in a regular expression without the [s] flag:
    everything but the line terminators. *)
Definition isLineTerminator (c : ascii) : bool :=
  let n := N_of_ascii c in ((n =? 10) || (n =? 13))%N.

(** Whether [/\.js$|(?:^|\/)index\.js$|.\/+$/] matches starting at the
    position whose remaining input is [s]; [atStart] says that the position
    is the start of the input. Every alternative runs to the end of the
    input. *)
Definition suffixMatches (atStart : bool) (s : string) : bool :=
  String.eqb s ".js"
  || (atStart && String.eqb s "index.js")
  || String.eqb s "/index.js"
  || match s with
     | String c rest =>
         negb (isLineTerminator c) && negb (Str.isEmpty rest)
         && Str.forallb (Ascii.eqb "/") rest
     | EmptyString => false
     end.

(** [s.replace(/\.js$|(?:^|\/)index\.js$|.\/+$/, '')]: the leftmost
    position at which the expression matches, found by scanning, and the
    input cut there. *)
Fixpoint stripFrom (atStart : bool) (s : string) : string :=
  if suffixMatches atStart s then ""
  else match s with
       | EmptyString => ""
       | String c rest => String c (stripFrom false rest)
       end.

Definition stripSuffix (modulePath : string) : string :=
  stripFrom true modulePath.

Fixpoint preferredPath (a : Associator) (modulePath : string) : string :=
  match a with
  | IdentityAssociator => modulePath
  | SimpleAssociator => stripSuffix modulePath
  | StaticAssociator _ modulePackageMap next =>
      match modulePackageMap !! modulePath with
      | Some bundle => bundle
      | None => preferredPath next modulePath
      end
  end.

Fixpoint associatedModulePaths (a : Associator) (modulePath : string)
  : list Member :=
  match a with
  | IdentityAssociator => [Mod modulePath]
  | SimpleAssociator =>
      let modulePath := stripSuffix modulePath in
      [Mod modulePath; Mod (modulePath +:+ ".js");
       Mod (modulePath +:+ "/index.js")]
  | StaticAssociator packageModuleMap _ next =>
      let modulePath := preferredPath a modulePath in
      match packageModuleMap !! modulePath with
      | Some modules => modules
      | None => associatedModulePaths next modulePath
      end
  end.

End Associators.

(** ** server.js *)

Module Server.

Import Associators.

Abbreviation Headers := (gmap string string).

Definition HEADER_WHITELIST : list string :=
  ["date"; "last-modified"; "expires"; "cache-control"; "content-type"].

(** [Array.prototype.pop]: the array without its last element, and that
    element ([undefined] on the empty array). *)
Definition pop (l : list string) : list string * option string :=
  (removelast l, last l).

(** The [while] loop of [relativePath]: both arrays lose their first
    element for as long as [fromSplit] is not empty and the two first
    elements are equal; on an empty [toSplit] the element is [undefined],
    which equals no string. *)
Fixpoint dropCommon (fromSplit toSplit : list string)
  : list string * list string :=
  match fromSplit, toSplit with
  | f :: fromSplit', t :: toSplit' =>
      if String.eqb f t then dropCommon fromSplit' toSplit'
      else (fromSplit, toSplit)
  | _, _ => (fromSplit, toSplit)
  end.

Definition relativePath (from to : string) : string :=
  let fromSplit := fst (pop (Str.split "/" from)) in
  let '(toSplit, toFile) := pop (Str.split "/" to) in
  let '(fromSplit, toSplit) := dropCommon fromSplit toSplit in
  let toSplit := toSplit ++ [default "" toFile] in
  let relative :=
    Str.repeat "../" (length fromSplit) +:+ Str.join "/" toSplit in
  if Str.isEmpty relative then "./" else relative.

(** The loop [while (fromSplit[i] === toSplit[i]) i++] of the earlier
    revision of [relativePath] that [src/server.js] still holds: the first
    index at which the two arrays differ. Past the end of both arrays the
    two elements are [undefined] and equal for ever: the loop does not end
    on equal arrays ([None]). *)
Fixpoint firstDifference (fromSplit toSplit : list string) : option nat :=
  match fromSplit, toSplit with
  | f :: fromSplit', t :: toSplit' =>
      if String.eqb f t then S <$> firstDifference fromSplit' toSplit'
      else Some O
  | [], [] => None
  | _, _ => Some O
  end.

(** The earlier revision of [relativePath]; the revision above replaced
    it. *)
Definition relativePath_earlier (from to : string) : option string :=
  let fromSplit := Str.split "/" from in
  let toSplit := Str.split "/" to in
  i ← firstDifference fromSplit toSplit;
  let relative :=
    if (1 <? length fromSplit - i)%nat
    then Str.repeat "../" (length fromSplit - i - 1)
    else "" in
  Some (relative +:+ Str.join "/" (drop i toSplit)).

(** [n.toString(16)] for a character code. *)
Definition hexDigit (n : N) : ascii :=
  if (n <? 10)%N then ascii_of_N (48 + n) else ascii_of_N (87 + n).

Definition toString16 (n : N) : string :=
  if (n <? 16)%N then String (hexDigit n) ""
  else String (hexDigit (n / 16)) (String (hexDigit (n mod 16)) "").

(** The replacement function of [escapeNonAlphanumerics]. *)
Definition escapeChar (exceptions : string) (c : ascii) : string :=
  if Str.isAlnum c then String c ""
  else if Str.mem c exceptions then String c ""
  else "\u" +:+ Str.takeLast 4 ("000" +:+ toString16 (N_of_ascii c)).

Fixpoint escapeNonAlphanumerics (text exceptions : string) : string :=
  match text with
  | EmptyString => ""
  | String c rest =>
      escapeChar exceptions c +:+ escapeNonAlphanumerics rest exceptions
  end.

(** [JSONP_CALLBACK_EXPRESSION] as a template literal prints it. *)
Definition JSONP_CALLBACK_EXPRESSION : string :=
  "/^[a-zA-Z0-9$:._'" +:+ Str.DQ +:+ "\\()[\]{}]+$/".

(** The character class of [JSONP_CALLBACK_EXPRESSION]. *)
Definition callbackChar (c : ascii) : bool :=
  Str.isAlnum c || Str.mem c "$:._'\()[]{}" || Str.mem c Str.DQ.

(** [JSONPCallback.match(JSONP_CALLBACK_EXPRESSION)] *)
Definition matchesCallbackExpression (s : string) : bool :=
  negb (Str.isEmpty s) && Str.forallb callbackChar s.

Definition selectProperties (o : Headers) (keys : list string) : Headers :=
  foldl (fun object key =>
           match o !! key with
           | Some v => <[key := v]> object
           | None => object
           end) ∅ keys.

(** The result of [Math.max] or [Math.min]: a number, or the infinity that
    the empty argument list gives. *)
Inductive Num :=
| Finite (z : Z)
| NegInfinity
| PosInfinity.

Definition Math_max (values : list Z) : Num :=
  foldr (fun v acc =>
           match acc with
           | Finite a => Finite (Z.max v a)
           | _ => Finite v
           end) NegInfinity values.

Definition Math_min (values : list Z) : Num :=
  foldr (fun v acc =>
           match acc with
           | Finite a => Finite (Z.min v a)
           | _ => Finite v
           end) PosInfinity values.

(** [value.toString(10)] *)
Definition numToString (v : Num) : string :=
  match v with
  | Finite z => pretty z
  | NegInfinity => "-Infinity"
  | PosInfinity => "Infinity"
  end.

(** [values.every((value) => !isNaN(value))], with the numbers when it
    holds. *)
Definition everyNumber (values : list (option Z)) : option (list Z) :=
  mapM id values.

(** The body of a module as the fetch collaborator hands it over. *)
Inductive Body :=
| BodyNull
| BodyUndefined
| BodyText (s : string).

(** What [requestURIs] calls back with: [statuss], [headerss], [contents]. *)
Record Fetched := {
  statuss : list Z;
  headerss : list Headers;
  contents : list Body;
}.

(** The platform and the collaborators, which the server takes as
    parameters: the built-ins [Date.parse] ([None] for [NaN]),
    [Date.prototype.toUTCString] and [path.posix.normalize], and the two
    functions of [request.js], which is not among the sources:
    [requestURI(uri, method, headers, callback)] and
    [requestURIs(uris, method, headers, callback)], each with what it calls
    back with. *)
Record Host := {
  Date_parse : string -> option Z;
  toUTCString : Z -> string;
  normalizePath : string -> string;
  requestURI : string -> string -> Headers -> Z * Headers * Body;
  requestURIs : list string -> string -> Headers -> Fetched;
}.

Section WithHost.

Context (host : Host).

(** [Date.parse(h[key])]; an absent header is [undefined], which does not
    parse. *)
Definition dateOf (h : Headers) (key : string) : option Z :=
  h !! key ≫= Date_parse host.

(** [(new Date(value)).toUTCString()] *)
Definition utcString (v : Num) : string :=
  match v with
  | Finite z => toUTCString host z
  | _ => "Invalid Date"
  end.

(** [parseInt((h['cache-control'] || '').match(/(?:max-age=(\d+))?/)[1], 10)]:
    the expression is tried at the first position only, where the optional
    group either consumes [max-age=] and digits or nothing. The number is
    the value of the digits, which is what [parseInt] returns and what
    [toString] prints back up to [Number.MAX_SAFE_INTEGER]; above it the
    source rounds, and what is proved of the merged value is stated below
    that bound. *)
Definition maxAgeOf (h : Headers) : option Z :=
  let cacheControl := default "" (h !! "cache-control") in
  if Str.startsWith "max-age=" cacheControl then
    let digits := Str.takeDigits (Str.drop 8 cacheControl) in
    if Str.isEmpty digits then None else Some (Str.digitsValue digits)
  else None.

Definition mergeHeaders (headersList : list Headers) : Headers :=
  let headers : Headers := ∅ in
  let headers :=
    match everyNumber ((fun h => dateOf h "date") <$> headersList) with
    | Some values => <["date" := utcString (Math_max values)]> headers
    | None => headers
    end in
  let headers :=
    match everyNumber ((fun h => dateOf h "last-modified") <$> headersList) with
    | Some values => <["last-modified" := utcString (Math_max values)]> headers
    | None => headers
    end in
  let headers :=
    match everyNumber ((fun h => dateOf h "expires") <$> headersList) with
    | Some values => <["expires" := utcString (Math_min values)]> headers
    | None => headers
    end in
  let headers :=
    match everyNumber (maxAgeOf <$> headersList) with
    | Some values =>
        <["cache-control" := "max-age=" +:+ numToString (Math_min values)]>
          headers
    | None => headers
    end in
  headers.

(** Truthiness of [requestHeaders.etag]. *)
Definition truthy (v : option string) : bool :=
  match v with
  | Some s => negb (Str.isEmpty s)
  | None => false
  end.

(** [requestHeaders.etag && requestHeaders.etag === responseHeaders.etag] *)
Definition etagMatches (requestHeaders responseHeaders : Headers) : bool :=
  truthy (requestHeaders !! "etag")
  && bool_decide (requestHeaders !! "etag" = responseHeaders !! "etag").

(** [lastModified && lastModified <= modifiedSince]: [NaN] and [0] are
    falsy, and a comparison with [NaN] is false. *)
Definition notModifiedSince (requestHeaders responseHeaders : Headers)
  : bool :=
  match dateOf responseHeaders "last-modified" with
  | Some lastModified =>
      negb (lastModified =? 0)
      && match dateOf requestHeaders "if-modified-since" with
         | Some modifiedSince => lastModified <=? modifiedSince
         | None => false
         end
  | None => false
  end.

(** The truthiness of what [notModified] returns. *)
Definition notModified (requestHeaders responseHeaders : Headers) : bool :=
  etagMatches requestHeaders responseHeaders
  || notModifiedSince requestHeaders responseHeaders.

End WithHost.

(** *** The module map and its enumeration *)

(** An object used as a map from module path to body: its own properties in
    the order of their creation. *)
Abbreviation ModuleMap := (list (string * Body)).

(** Defining a property: a known key keeps its place. *)
Fixpoint defineProperty (k : string) (v : Body) (o : ModuleMap) : ModuleMap :=
  match o with
  | [] => [(k, v)]
  | (k', v') :: rest =>
      if decide (k = k') then (k, v) :: rest
      else (k', v') :: defineProperty k v rest
  end.

Definition Object_fromEntries (entries : list (string * Body)) : ModuleMap :=
  foldl (fun o e => defineProperty e.1 e.2 o) [] entries.

(** A property key is an array index when it is the canonical decimal
    writing of an integer below [2^32 - 1]. *)
Definition arrayIndexOf (k : string) : option N :=
  match k with
  | EmptyString => None
  | String c rest =>
      if Str.forallb Str.isDigit k
         && (negb (Ascii.eqb c "0") || Str.isEmpty rest)
         && (Str.digitsValue k <? 4294967295)
      then Some (Z.to_N (Str.digitsValue k))
      else None
  end.

Fixpoint insertByIndex (e : N * (string * Body))
    (l : list (N * (string * Body))) : list (N * (string * Body)) :=
  match l with
  | [] => [e]
  | e' :: rest =>
      if (e.1 <=? e'.1)%N then e :: l else e' :: insertByIndex e rest
  end.

Definition indexProperties (o : ModuleMap) : list (N * (string * Body)) :=
  omap (fun e => (fun i => (i, e)) <$> arrayIndexOf e.1) o.

(** [Object.entries(o)]: the array indices in ascending order, then the
    other keys in the order of their creation. *)
Definition Object_entries (o : ModuleMap) : list (string * Body) :=
  (foldr insertByIndex [] (indexProperties o)).*2
  ++ filter (fun e => arrayIndexOf e.1 = None) o.

(** The template literal [`${body}`] for a body that is not [null]. *)
Definition bodyText (body : Body) : string :=
  match body with
  | BodyText s => s
  | BodyUndefined => "undefined"
  | BodyNull => "null"
  end.

(** What one turn of the loop of [packagedDefine] appends. *)
Definition packagedEntry (e : string * Body) : string :=
  let '(path, body) := e in
  let pathEsc := escapeNonAlphanumerics path "./-_" in
  Str.DQ +:+ pathEsc +:+ Str.DQ +:+ ": "
  +:+ match body with
      | BodyNull => "null"
      | _ =>
          let nl := Str.DQ +:+ "(module " +:+ pathEsc +:+ ")" +:+ Str.DQ in
          "{" +:+ nl +:+ ": function (require, exports, module) {"
          +:+ bodyText body +:+ "}}[" +:+ nl +:+ "]"
      end
  +:+ "," +:+ Str.LF.

Definition packagedDefine (JSONPCallback : string) (moduleMap : ModuleMap)
  : string :=
  JSONPCallback +:+ "({"
  +:+ Str.concat (packagedEntry <$> Object_entries moduleMap)
  +:+ "});" +:+ Str.LF.

(** [modulePaths.map((m, i) => [m, statuss[i] === 200 ? contents[i] : null])] *)
Definition moduleEntries (modulePaths : list string) (f : Fetched)
  : list (string * Body) :=
  imap (fun i m =>
          (m, if bool_decide (statuss f !! i = Some 200)
              then default BodyUndefined (contents f !! i)
              else BodyNull)) modulePaths.

(** *** The request handler *)

(** [new URL(request.url, 'ignored-scheme:/')], as far as [handle] reads it:
    [callback] is [url.searchParams.get('callback')], absent when
    [url.searchParams.has('callback')] is false. *)
Record URL := {
  pathname : string;
  search : string;
  callback : option string;
}.

(** The request; [url] is [None] when the constructor of [URL] throws. *)
Record Request := {
  url : option URL;
  method : string;
  headers : Headers;
  hasNext : bool;
}.

(** The fields of a [Server]; [None] is a field that the constructor left
    [undefined]. *)
Record ServerState := {
  _rootURI : option string;
  _rootPath : option string;
  _libraryURI : option string;
  _libraryPath : option string;
  _baseURI : option string;
  _associator : option Associator;
}.

(** What the handler did with the response object. *)
Inductive Outcome :=
| Responded (status : Z) (headers : Headers) (body : option string)
| CalledNext
| Failed
| Silent.

(** One call of the fetch collaborator. *)
Record FetchCall := {
  fetchURIs : list string;
  fetchMethod : string;
  fetchHeaders : Headers;
}.

(** A string operand that may be [undefined]. *)
Definition str (v : option string) : string := default "undefined" v.

Definition textPlain : Headers :=
  {["content-type" := "text/plain; charset=utf-8"]}.

(** [statuss.reduce((m, s) => m && m === s ? m : undefined)]: the callback
    is [reduceStep], where [0] and [undefined] are falsy; the first status
    is the initial value, and without one [reduce] throws a [TypeError]
    (the outer [None]); the inner [None] is [undefined]. *)
Definition reduceStep (m : option Z) (s : Z) : option Z :=
  match m with
  | Some m' => if negb (m' =? 0) && (m' =? s) then Some m' else None
  | None => None
  end.

Definition reduceStatus (statuss : list Z) : option (option Z) :=
  match statuss with
  | [] => None
  | s0 :: rest => Some (foldl reduceStep (Some s0) rest)
  end.

(** The paths of the members; an [Alias] has no [startsWith], so
    [_resourceURIForModulePath] throws on it. *)
Definition memberPaths (members : list Member) : option (list string) :=
  mapM (fun m => match m with Mod path => Some path | Alias _ _ => None end)
    members.

Section Handler.

Context (host : Host) (server : ServerState).

Definition _resourceURIForModulePath (path : string) : string :=
  if Str.startsWith "/" path
  then str (_rootURI server) +:+ Str.drop 1 path
  else str (_libraryURI server) +:+ path.

(** The module path of a normalized request path: the outer [None] is a
    thrown [TypeError], the inner one [undefined]. *)
Definition modulePathOf (path : string) : option (option string) :=
  if Str.startsWith (str (_rootPath server)) path then
    rootPath ← _rootPath server;
    Some (Some ("/" +:+ Str.drop (String.length rootPath) path))
  else if truthy (_libraryURI server)
          && Str.startsWith (str (_libraryPath server)) path then
    libraryPath ← _libraryPath server;
    Some (Some (Str.drop (String.length libraryPath) path))
  else Some None.

(** [Object.assign({'user-agent': ..., 'accept': ...},
    selectProperties(request.headers, [...]))] *)
Definition requestHeadersOf (request : Request) : Headers :=
  selectProperties (headers request) ["if-modified-since"; "cache-control"]
  ∪ {["user-agent" := "yajsml"; "accept" := "*/*"]}.

(** The branch without a [callback] parameter. *)
Definition directProxy (request : Request) (requestHeaders : Headers)
    (modulePath : string) : Outcome :=
  let resourceURI := _resourceURIForModulePath modulePath in
  let '(status, headers, content) :=
    requestURI host resourceURI "GET" requestHeaders in
  let headers := selectProperties headers HEADER_WHITELIST in
  let '(status, headers, content) :=
    if status =? 200 then
      (status,
       <["content-type" := "application/javascript; charset=utf-8"]> headers,
       content)
    else if status =? 404 then
      (status, <["content-type" := "text/plain; charset=utf-8"]> headers,
       BodyText "404: The requested resource could not be found.")
    else
      (if notModified host requestHeaders headers then 304 else status,
       delete "content-type" headers, BodyUndefined) in
  Responded status headers
    (match content with
     | BodyText c =>
         if String.eqb (method request) "GET" && negb (Str.isEmpty c)
         then Some c else None
     | _ => None
     end).

(** [preferredPath] as [handle] computes it: the module path itself without
    an associator. *)
Definition preferredPathOf (modulePath : string) : string :=
  match _associator server with
  | Some a => preferredPath a modulePath
  | None => modulePath
  end.

(** The location of the preferred path, before the query is appended:
    under the root or the library path, then on the base URI or relative to
    the requested path. *)
Definition canonicalLocation (path preferred : string) : string :=
  let location :=
    if Str.startsWith "/" preferred
    then str (_rootPath server) +:+ Str.drop 1 preferred
    else str (_libraryPath server) +:+ preferred in
  if truthy (_baseURI server) then str (_baseURI server) +:+ location
  else relativePath path location.

(** The [Location] of the redirect: [location += url.search]. *)
Definition redirectLocation (path : string) (u : URL) (preferred : string)
  : string :=
  canonicalLocation path preferred +:+ search u.

Definition redirect (location : string) : Outcome :=
  Responded 307
    {["Content-Type" := "text/plain; charset=utf-8"; "Location" := location]}
    (Some "307: Resource moved temporarily.").

(** The headers of a bundle response: the white list and the two forced
    headers. *)
Definition bundleHeaders (headers : Headers) : Headers :=
  let headers := selectProperties headers HEADER_WHITELIST in
  let headers :=
    <["content-type" := "application/javascript; charset=utf-8"]> headers in
  <["x-content-type-options" := "nosniff"]> headers.

(** The end of the bundle branch: the final headers, the final status,
    [writeHead], [write] and [end]. *)
Definition respondBundle (requestHeaders : Headers) (status : option Z)
    (headers : Headers) (content : option string) : Outcome :=
  let headers := bundleHeaders headers in
  let status :=
    if bool_decide (status = Some 304) || notModified host requestHeaders headers
    then 304 else 200 in
  Responded status headers
    (match content with
     | Some c => if Str.isEmpty c then None else Some c
     | None => None
     end).

(** [modulePaths] of the bundle branch: what the associator returns, the
    module path alone without an associator. *)
Definition bundleMembers (modulePath : string) : list Member :=
  match _associator server with
  | Some a => associatedModulePaths a modulePath
  | None => [Mod modulePath]
  end.

Definition resourceURIsOf (modulePaths : list string) : list string :=
  _resourceURIForModulePath <$> modulePaths.

(** The two calls of the fetch collaborator that the bundle branch makes. *)
Definition headCall (requestHeaders : Headers) (modulePaths : list string)
  : FetchCall :=
  {| fetchURIs := resourceURIsOf modulePaths; fetchMethod := "HEAD";
     fetchHeaders := requestHeaders |}.

Definition requestHeadersForGet (requestHeaders : Headers) : Headers :=
  selectProperties requestHeaders ["user-agent"; "accept"; "cache-control"].

Definition getCall (requestHeaders : Headers) (modulePaths : list string)
  : FetchCall :=
  {| fetchURIs := resourceURIsOf modulePaths; fetchMethod := "GET";
     fetchHeaders := requestHeadersForGet requestHeaders |}.

Definition fetch (c : FetchCall) : Fetched :=
  requestURIs host (fetchURIs c) (fetchMethod c) (fetchHeaders c).

(** The bundle branch once the request is known not to be redirected: the
    HEAD fan-out, the decision, and the GET fan-out when it is needed. The
    second component lists the calls of the fetch collaborator in order. *)
Definition fetchBundle (request : Request) (requestHeaders : Headers)
    (JSONPCallback modulePath : string) : Outcome * list FetchCall :=
  match memberPaths (bundleMembers modulePath) with
  | None => (Failed, [])
  | Some modulePaths =>
      let head := headCall requestHeaders modulePaths in
      let fetched := fetch head in
      match reduceStatus (statuss fetched) with
      | None => (Failed, [head])
      | Some status =>
          let headers := mergeHeaders host (headerss fetched) in
          if bool_decide (status = Some 304)
             || notModified host requestHeaders headers then
            (respondBundle requestHeaders (Some 304) headers None, [head])
          else if String.eqb (method request) "HEAD"
                  && negb (bool_decide (status = Some 405)) then
            (respondBundle requestHeaders status headers None, [head])
          else
            let get := getCall requestHeaders modulePaths in
            let fetched := fetch get in
            match reduceStatus (statuss fetched) with
            | None => (Failed, [head; get])
            | Some status =>
                let headers := mergeHeaders host (headerss fetched) in
                if String.eqb (method request) "HEAD" then
                  (respondBundle requestHeaders status headers None,
                   [head; get])
                else if String.eqb (method request) "GET" then
                  let moduleMap :=
                    Object_fromEntries (moduleEntries modulePaths fetched) in
                  (respondBundle requestHeaders status headers
                     (Some (packagedDefine JSONPCallback moduleMap)),
                   [head; get])
                else (Silent, [head; get])
            end
      end
  end.

(** The branch with a [callback] parameter. *)
Definition bundle (request : Request) (requestHeaders : Headers)
    (path : string) (u : URL) (JSONPCallback modulePath : string)
  : Outcome * list FetchCall :=
  if Str.isEmpty JSONPCallback then
    (Responded 400 textPlain
       (Some "400: The 'callback' parameter must be non-empty."), [])
  else if negb (matchesCallbackExpression JSONPCallback) then
    (Responded 400 textPlain
       (Some ("400: The 'callback' parameter must match "
              +:+ JSONP_CALLBACK_EXPRESSION +:+ ".")), [])
  else
    let preferred := preferredPathOf modulePath in
    if negb (String.eqb preferred modulePath) then
      (redirect (redirectLocation path u preferred), [])
    else fetchBundle request requestHeaders JSONPCallback modulePath.

Definition handle (request : Request) : Outcome * list FetchCall :=
  match url request with
  | None => (Responded 422 textPlain (Some "422: Malformed URL"), [])
  | Some u =>
      let path := normalizePath host (pathname u) in
      match modulePathOf path with
      | None => (Failed, [])
      | Some modulePath =>
          let requestHeaders := requestHeadersOf request in
          if negb (truthy modulePath) then
            if hasNext request then (CalledNext, [])
            else (Responded 404 textPlain
                    (Some "404: The requested resource could not be found."),
                  [])
          else if negb (String.eqb (method request) "HEAD")
                  && negb (String.eqb (method request) "GET") then
            (Responded 405
               (<["allow" := "HEAD, GET"]> textPlain)
               (Some "405: Only the HEAD or GET methods are allowed."), [])
          else
            match callback u with
            | None =>
                (directProxy request requestHeaders (str modulePath),
                 [{| fetchURIs := [_resourceURIForModulePath (str modulePath)];
                     fetchMethod := "GET";
                     fetchHeaders := requestHeaders |}])
            | Some JSONPCallback =>
                bundle request requestHeaders path u JSONPCallback
                  (str modulePath)
            end
      end
  end.

End Handler.

(** *** The constructor *)

(** [path && !path.endsWith('/') ? `${path}/` : path] *)
Definition trailingSlash (path : string) : string :=
  if negb (Str.isEmpty path) && negb (Str.endsWith_char "/" path)
  then path +:+ "/" else path.

(** [path && !path.startsWith('/') ? `/${path}` : path] *)
Definition leadingSlash (path : string) : string :=
  if negb (Str.isEmpty path) && negb (Str.startsWith "/" path)
  then "/" +:+ path else path.

(** The options that the constructor reads; [None] is an option that is
    not given. The option [requestURIs], which replaces the collaborator of
    the same name, is the field of [Host]. *)
Record Options := {
  rootURI : option string;
  rootPath : option string;
  libraryURI : option string;
  libraryPath : option string;
  baseURI : option string;
}.

(** What the constructor throws: the [TypeError] of [new URL(uri)], the
    error of [validateURI], and the error of the two ambiguous paths. *)
Inductive ConstructorError :=
| MalformedURI (uri : string)
| InvalidURI (uri : string)
| AmbiguousPaths (rootPath libraryPath : string).

(** [validateURI]; [protocolOf] is the built-in [new URL(uri).protocol],
    [None] when the constructor of [URL] throws. The result is the error
    thrown, [None] when the function returns. *)
Definition validateURI (protocolOf : string -> option string) (uri : string)
  : option ConstructorError :=
  match protocolOf uri with
  | None => Some (MalformedURI uri)
  | Some protocol =>
      if bool_decide (protocol ∈ ["file:"; "http:"; "https:"]) then None
      else Some (InvalidURI uri)
  end.

(** [new Server(options)]: the fields of the server, or the error
    thrown. *)
Definition newServer (protocolOf : string -> option string)
    (options : Options) : ConstructorError + ServerState :=
  let rootURI' :=
    if truthy (rootURI options)
    then Some (trailingSlash (str (rootURI options))) else None in
  match rootURI' ≫= validateURI protocolOf with
  | Some e => inl e
  | None =>
      let rootPath' :=
        if truthy (rootURI options)
        then Some (leadingSlash
                     (trailingSlash (default "root" (rootPath options))))
        else None in
      let libraryURI' :=
        if truthy (libraryURI options)
        then Some (trailingSlash (str (libraryURI options))) else None in
      match libraryURI' ≫= validateURI protocolOf with
      | Some e => inl e
      | None =>
          let libraryPath' :=
            if truthy (libraryURI options)
            then Some (leadingSlash
                         (trailingSlash
                            (default "library" (libraryPath options))))
            else None in
          if truthy rootPath' && truthy libraryPath'
             && (Str.startsWith (str libraryPath') (str rootPath')
                 || Str.startsWith (str rootPath') (str libraryPath'))
          then inl (AmbiguousPaths (str rootPath') (str libraryPath'))
          else
            inr {| _rootURI := rootURI';
                   _rootPath := rootPath';
                   _libraryURI := libraryURI';
                   _libraryPath := libraryPath';
                   _baseURI :=
                     if truthy (baseURI options)
                     then Some (trailingSlash (str (baseURI options)))
                     else None;
                   _associator := None |}
      end
  end.

Definition setAssociator (server : ServerState) (associator : Associator)
  : ServerState :=
  {| _rootURI := _rootURI server;
     _rootPath := _rootPath server;
     _libraryURI := _libraryURI server;
     _libraryPath := _libraryPath server;
     _baseURI := _baseURI server;
     _associator := Some associator |}.

End Server.

(** ** Objects that are enumerated

    An object used as a map whose keys are enumerated ([Object.keys],
    [Object.entries]): its own properties in the order of their creation,
    no key twice. *)

Module Obj.

Section Obj.

Context {A : Type}.

(** [o[k]]; [None] is [undefined]. *)
Fixpoint get (o : list (string * A)) (k : string) : option A :=
  match o with
  | [] => None
  | (k', v) :: rest => if decide (k = k') then Some v else get rest k
  end.

(** [o[k] = v]: a known key keeps its place. *)
Fixpoint set (k : string) (v : A) (o : list (string * A))
  : list (string * A) :=
  match o with
  | [] => [(k, v)]
  | (k', v') :: rest =>
      if decide (k = k') then (k, v) :: rest else (k', v') :: set k v rest
  end.

(** [hasOwnProperty(o, k)] *)
Definition has (o : list (string * A)) (k : string) : bool :=
  match get o k with Some _ => true | None => false end.

(** A change of the value that [o[k]] holds, in place. *)
Definition alter (f : A -> A) (k : string) (o : list (string * A))
  : list (string * A) :=
  match get o k with
  | Some v => set k (f v) o
  | None => o
  end.

Fixpoint insertByIndex (e : N * (string * A))
    (l : list (N * (string * A))) : list (N * (string * A)) :=
  match l with
  | [] => [e]
  | e' :: rest =>
      if (e.1 <=? e'.1)%N then e :: l else e' :: insertByIndex e rest
  end.

(** [Object.entries(o)]: the array indices in ascending order, then the
    other keys in the order of their creation. *)
Definition entries (o : list (string * A)) : list (string * A) :=
  (foldr insertByIndex []
     (omap (fun e => (fun i => (i, e)) <$> Server.arrayIndexOf e.1) o)).*2
  ++ filter (fun e => Server.arrayIndexOf e.1 = None) o.

(** [Object.keys(o)] *)
Definition keys (o : list (string * A)) : list string := (entries o).*1.

End Obj.

End Obj.

(** ** associators.js: the complex mapping *)

Module ComplexMapping.

Import Associators.

(** The property key that a member of a bundle is read as: a path is its
    own key; an [Alias] is an object without a [toString] of its own. *)
Definition propertyKey (key : Member) : string :=
  match key with
  | Mod path => path
  | Alias _ _ => "[object Object]"
  end.

(** What the complex mapping holds for a module: the index of its primary
    package and, for every package, whether the package includes it. *)
Abbreviation Association := (nat * list bool)%type.

(** The body of [for (const key of packageModuleMap[pkg])]. Every array of
    flags is a copy of [blankMapping], which has one flag per package, so
    the index [i] of a package is never beyond its end. *)
Definition mark (blankMapping : list bool) (i : nat)
    (mapping : list (string * Association)) (key : Member)
  : list (string * Association) :=
  let k := propertyKey key in
  let mapping :=
    if Obj.has mapping k then mapping
    else Obj.set k (i, blankMapping) mapping in
  Obj.alter (fun a => (i, <[i := true]> a.2)) k mapping.

(** The callback of [packages.forEach((pkg, i) => ...)]; [pkg] is a key of
    [packageModuleMap], so [packageModuleMap[pkg]] is defined. *)
Definition markPackage (packageModuleMap : list (string * list Member))
    (blankMapping : list bool) (mapping : list (string * Association))
    (entry : nat * string) : list (string * Association) :=
  foldl (mark blankMapping entry.1) mapping
    (default [] (Obj.get packageModuleMap entry.2)).

Definition complexMappingForAssociations {B : Type}
    (associations : list (string * list Member) * B)
  : list string * list (string * Association) :=
  let packageModuleMap := associations.1 in
  let packages := Obj.keys packageModuleMap in
  let blankMapping := (fun _ => false) <$> packages in
  let mapping :=
    foldl (markPackage packageModuleMap blankMapping) []
      (imap (fun i pkg => (i, pkg)) packages) in
  (packages, mapping).

(** The callback of [association[1].forEach((include, i) => ...)];
    [packages[i]] beyond the end of [packages] is [undefined], which is read
    as the key [undefined]. *)
Definition includeIn (packages : list string) (path : string)
    (packageModuleMap : list (string * list Member)) (entry : nat * bool)
  : list (string * list Member) :=
  if entry.2 then
    let pkg := default "undefined" (packages !! entry.1) in
    let packageModuleMap :=
      if Obj.has packageModuleMap pkg then packageModuleMap
      else Obj.set pkg [] packageModuleMap in
    Obj.alter (fun modules => modules ++ [Mod path]) pkg packageModuleMap
  else packageModuleMap.

(** The body of [for (const [path, association] of
    Object.entries(associations))]. *)
Definition associate (packages : list string)
    (maps : list (string * list Member) * list (string * option string))
    (entry : string * Association)
  : list (string * list Member) * list (string * option string) :=
  let '(path, association) := entry in
  let modulePackageMap := Obj.set path (packages !! association.1) maps.2 in
  let packageModuleMap :=
    foldl (includeIn packages path) maps.1
      (imap (fun i include => (i, include)) association.2) in
  (packageModuleMap, modulePackageMap).

(** [associationsForComplexMapping]: the first loop of the source only
    fills [packageSet], which is never read. *)
Definition associationsForComplexMapping (packages : list string)
    (associations : list (string * Association))
  : list (string * list Member) * list (string * option string) :=
  foldl (associate packages) ([], []) (Obj.entries associations).

End ComplexMapping.

(** ** Resolution of a relative reference

    The test-suite checks every expected redirect with
    [new URL(want, fromUrl).href === toUrl.href]. [resolveReference] is that
    built-in on paths: the base loses its last segment, then the segments
    of the reference are applied in order, [..] removing a segment (none
    when there is none left), [.] none, and either of them leaving a
    trailing separator when it is the last segment. A reference that starts
    with a separator replaces the path of the base; the empty reference is
    the base itself. A path that starts with a separator keeps it.

    The built-in does more than this on other strings: it reads a scheme
    before a colon, an authority after two separators, a query and a
    fragment, it escapes characters, and it removes the dot segments of the
    base. The properties below use [resolveReference] on the literal pairs
    of the test-suite and on paths without any of these
    ([Statements.plainPath]). *)

Module Url.

Fixpoint applySegments (stack segs : list string) : list string :=
  match segs with
  | [] => stack
  | s :: rest =>
      let isLast := match rest with [] => true | _ => false end in
      if String.eqb s ".." then
        if isLast then removelast stack ++ [""]
        else applySegments (removelast stack) rest
      else if String.eqb s "." then
        if isLast then stack ++ [""]
        else applySegments stack rest
      else applySegments (stack ++ [s]) rest
  end.

(** The segments of a path, after its leading separator when it has one. *)
Definition segmentsOf (path : string) : list string :=
  Str.split "/" (if Str.startsWith "/" path then Str.drop 1 path else path).

Definition resolveReference (base ref : string) : string :=
  if Str.isEmpty ref then base
  else if Str.startsWith "/" ref then
    "/" +:+ Str.join "/" (applySegments [] (segmentsOf ref))
  else
    (if Str.startsWith "/" base then "/" else "")
    +:+ Str.join "/"
          (applySegments (removelast (segmentsOf base)) (Str.split "/" ref)).

End Url.

(** ** A concrete platform

    One instance of [Host], for running the handler on examples: dates in
    the fixed format of HTTP ([Thu, 01 Jan 1970 00:00:00 GMT]), which is
    what [toUTCString] prints and what [Date.parse] reads back; the
    algorithm of [path.posix.normalize]; a fetch collaborator given as a
    function. Strings in another format do not parse in this instance. *)

Module Platform.

Import Server.

Definition daysFromCivil (y m d : Z) : Z :=
  let y := if m <=? 2 then y - 1 else y in
  let era := y / 400 in
  let yoe := y - era * 400 in
  let doy := (153 * (m + (if 2 <? m then -3 else 9)) + 2) / 5 + d - 1 in
  let doe := yoe * 365 + yoe / 4 - yoe / 100 + doy in
  era * 146097 + doe - 719468.

Definition civilFromDays (z : Z) : Z * Z * Z :=
  let z := z + 719468 in
  let era := z / 146097 in
  let doe := z - era * 146097 in
  let yoe := (doe - doe / 1460 + doe / 36524 - doe / 146096) / 365 in
  let doy := doe - (365 * yoe + yoe / 4 - yoe / 100) in
  let mp := (5 * doy + 2) / 153 in
  let d := doy - (153 * mp + 2) / 5 + 1 in
  let m := if mp <? 10 then mp + 3 else mp - 9 in
  (yoe + era * 400 + (if m <=? 2 then 1 else 0), m, d).

Definition monthNames : list string :=
  ["Jan"; "Feb"; "Mar"; "Apr"; "May"; "Jun";
   "Jul"; "Aug"; "Sep"; "Oct"; "Nov"; "Dec"].

Definition dayNames : list string :=
  ["Sun"; "Mon"; "Tue"; "Wed"; "Thu"; "Fri"; "Sat"].

Fixpoint indexOf (x : string) (l : list string) : option Z :=
  match l with
  | [] => None
  | y :: rest => if String.eqb x y then Some 0 else Z.succ <$> indexOf x rest
  end.

(** A field of exactly [n] decimal digits. *)
Definition digitsField (n : nat) (s : string) : option Z :=
  if Str.forallb Str.isDigit s && Nat.eqb (String.length s) n
  then Some (Str.digitsValue s) else None.

Definition parseHttpDate (s : string) : option Z :=
  match Str.split " " s with
  | [wd; dd; mon; yyyy; time; zone] =>
      match Str.split ":" time with
      | [hh; mm; ss] =>
          _ ← indexOf wd ((fun n => n +:+ ",") <$> dayNames);
          d ← digitsField 2 dd;
          m ← indexOf mon monthNames;
          y ← digitsField 4 yyyy;
          h ← digitsField 2 hh;
          mi ← digitsField 2 mm;
          sec ← digitsField 2 ss;
          if String.eqb zone "GMT"
             && (1 <=? d) && (d <=? 31) && (h <? 24) && (mi <? 60) && (sec <? 60)
          then Some ((((daysFromCivil y (m + 1) d * 24 + h) * 60 + mi) * 60
                      + sec) * 1000)
          else None
      | _ => None
      end
  | _ => None
  end.

Definition pad (n : nat) (z : Z) : string :=
  let s := pretty z in
  Str.repeat "0" (n - String.length s) +:+ s.

Definition printHttpDate (ms : Z) : string :=
  let secs := ms / 1000 in
  let days := secs / 86400 in
  let rest := secs mod 86400 in
  let '(y, m, d) := civilFromDays days in
  default "" (dayNames !! Z.to_nat ((days + 4) mod 7)) +:+ ", "
  +:+ pad 2 d +:+ " " +:+ default "" (monthNames !! Z.to_nat (m - 1)) +:+ " "
  +:+ pad 4 y +:+ " " +:+ pad 2 (rest / 3600) +:+ ":"
  +:+ pad 2 (rest mod 3600 / 60) +:+ ":" +:+ pad 2 (rest mod 60) +:+ " GMT".

(** The segments of a normalized path, last one first. *)
Definition normalizeSegments (allowAboveRoot : bool) (segs : list string)
  : list string :=
  foldl (fun stack seg =>
           if String.eqb seg "" || String.eqb seg "." then stack
           else if String.eqb seg ".." then
             match stack with
             | top :: below =>
                 if String.eqb top ".." then seg :: stack else below
             | [] => if allowAboveRoot then [seg] else []
             end
           else seg :: stack) [] segs.

Definition posixNormalize (path : string) : string :=
  if Str.isEmpty path then "."
  else
    let isAbsolute := Str.startsWith "/" path in
    let trailingSeparator := Str.endsWith_char "/" path in
    let res :=
      Str.join "/"
        (rev (normalizeSegments (negb isAbsolute) (Str.split "/" path))) in
    if Str.isEmpty res then
      if isAbsolute then "/" else if trailingSeparator then "./" else "."
    else
      (if isAbsolute then "/" else "") +:+ res
      +:+ (if trailingSeparator then "/" else "").

(** A letter in lower case. *)
Definition lower (c : ascii) : ascii :=
  if Str.isUpper c then ascii_of_N (N_of_ascii c + 32) else c.

(** The characters of a scheme up to the first colon, in lower case, with
    the colon. *)
Fixpoint schemeOf (s : string) : option string :=
  match s with
  | EmptyString => None
  | String c rest =>
      if Ascii.eqb c ":" then Some ":"
      else if Str.isAlnum c || Str.mem c "+-." then
        String (lower c) <$> schemeOf rest
      else None
  end.

(** The [protocol] of [new URL(uri)] for the URIs of the examples: the
    scheme with its colon, a letter followed by letters, digits and [+-.];
    a string without one does not parse. *)
Definition protocolOf (uri : string) : option string :=
  match uri with
  | EmptyString => None
  | String c _ =>
      if Str.isUpper c || Str.isLower c then schemeOf uri else None
  end.

Definition hostWith
    (fetchOne : string -> string -> Headers -> Z * Headers * Body)
    (fetchAll : list string -> string -> Headers -> Fetched) : Host :=
  {| Date_parse := parseHttpDate;
     toUTCString := printHttpDate;
     normalizePath := posixNormalize;
     requestURI := fetchOne;
     requestURIs := fetchAll |}.

(** A server as the constructor leaves it for
    [{rootURI: 'http://r.example', libraryURI: 'http://l.example'}]. *)
Definition defaultServer (associator : option Associators.Associator)
  : ServerState :=
  {| _rootURI := Some "http://r.example/";
     _rootPath := Some "/root/";
     _libraryURI := Some "http://l.example/";
     _libraryPath := Some "/library/";
     _baseURI := None;
     _associator := associator |}.

End Platform.

(** ** Statements

    The vocabulary of the properties below: the literal data of the
    specification, the readings of its sentences that the code is compared
    with, and the example backends. *)

Module Statements.

Import Associators Server.

(** *** An example platform *)

(** Three dates in the format of HTTP; the second has the timestamp 0. *)
Definition date1994 : string := "Sun, 06 Nov 1994 08:49:37 GMT".
Definition date1970 : string := "Thu, 01 Jan 1970 00:00:00 GMT".
Definition date2023 : string := "Tue, 14 Nov 2023 22:13:20 GMT".

(** Modelled from the spec: [requestURIs] of [request.js], which is not
    among the sources. One request per resource, the answers joined in the
    order of the resources; [backend] gives the answer of a resource to a
    method. *)
Definition fetchAllFrom (backend : string -> string -> Z * Headers * Body)
    (uris : list string) (method : string) (_ : Headers) : Fetched :=
  {| statuss := (fun u => (backend u method).1.1) <$> uris;
     headerss := (fun u => (backend u method).1.2) <$> uris;
     contents := (fun u => (backend u method).2) <$> uris |}.

Definition hostOf (backend : string -> string -> Z * Headers * Body) : Host :=
  Platform.hostWith (fun u m _ => backend u m) (fetchAllFrom backend).

(** A backend that knows no resource. *)
Definition emptyBackend (_ _ : string) : Z * Headers * Body :=
  (404, ∅, BodyText "").

(** *** The redirect canonicalizer *)

(** The pairs that the canonicalizer is specified by: [from], [to] and the
    expected relative path. *)
Definition literalPairs : list (string * string * string) :=
  [("a", "b", "b"); ("a/", "a", "../a"); ("a", "a/", "a/");
   ("a/b", "a/", "./")].

(** A segment without a separator, and a segment that is no dot
    segment. *)
Definition noSlash (s : string) : Prop := Str.mem "/" s = false.
Definition plainSegment (s : string) : Prop := s ≠ "." ∧ s ≠ "..".

(** A character that the parser of [new URL] keeps as it is inside a path
    and reads nothing else in: a letter, a digit, one of [-._~] or the
    separator. No colon (a scheme), question mark or hash (the end of the
    path), percent sign (an escaped dot), backslash or blank. *)
Definition pathChar (c : ascii) : bool := Str.isAlnum c || Str.mem c "-._~/".

(** A path that [new URL] reads as it is written, so that
    [Url.resolveReference] is the built-in on it: one separator at its
    start, only plain characters, no dot segment. *)
Definition plainPath (p : string) : Prop :=
  Str.startsWith "/" p = true
  ∧ Str.startsWith "//" p = false
  ∧ Str.forallb pathChar p = true
  ∧ Forall plainSegment (Url.segmentsOf p).

(** A server with the convention of [SimpleAssociator], for which [a.js]
    is not a preferred path. *)
Definition simpleServer : ServerState :=
  Platform.defaultServer (Some SimpleAssociator).

(** [GET /library/a.js?callback=x&y=1] *)
Definition aliasRequest : Request :=
  {| url := Some {| pathname := "/library/a.js"; search := "?callback=x&y=1";
                    callback := Some "x" |};
     method := "GET";
     headers := ∅;
     hasNext := false |}.

(** *** The conditional-cache evaluator *)

(** Both header sets carry an [etag] and the two values are equal. *)
Definition etagsEqual (req resp : Headers) : Prop :=
  ∃ e, req !! "etag" = Some e ∧ resp !! "etag" = Some e.

(** The same, for a value that is not the empty string. *)
Definition etagsEqualNonEmpty (req resp : Headers) : Prop :=
  ∃ e, e ≠ "" ∧ req !! "etag" = Some e ∧ resp !! "etag" = Some e.

(** The [last-modified] of the response parses, and so does the
    [if-modified-since] of the request, to a date that is not earlier. *)
Definition lastModifiedNotAfter (host : Host) (req resp : Headers) : Prop :=
  ∃ lastModified modifiedSince,
    dateOf host resp "last-modified" = Some lastModified
    ∧ dateOf host req "if-modified-since" = Some modifiedSince
    ∧ lastModified <= modifiedSince.

(** The sentence of the specification about [notModified], word for word. *)
Definition notModified_as_stated (host : Host) (req resp : Headers) : Prop :=
  etagsEqual req resp ∨ lastModifiedNotAfter host req resp.

(** A merged header: when every set gives a value that [parse] reads, the
    result is the printed value [v] of one of the sets, which [prefer]s to
    the value of every set; when some set does not, the header is absent. *)
Definition mergedAs (parse : Headers -> option Z) (prefer : Z -> Z -> Prop)
    (print : Z -> string) (hs : list Headers) (r : option string) : Prop :=
  (Forall (fun h => is_Some (parse h)) hs
   ∧ ∃ v, r = Some (print v)
          ∧ (∃ h, h ∈ hs ∧ parse h = Some v)
          ∧ ∀ h w, h ∈ hs → parse h = Some w → prefer v w)
  ∨ (Exists (fun h => parse h = None) hs ∧ r = None).

Definition latest (v w : Z) : Prop := w <= v.
Definition earliest (v w : Z) : Prop := v <= w.

(** A directive without the spaces before it. *)
Fixpoint dropSpaces (s : string) : string :=
  match s with
  | String c s' => if Ascii.eqb c " " then dropSpaces s' else s
  | EmptyString => EmptyString
  end.

(** The number of a directive [max-age=N]. *)
Definition maxAgeOfDirective (directive : string) : option Z :=
  let directive := dropSpaces directive in
  if Str.startsWith "max-age=" directive then
    let argument := Str.drop 8 directive in
    let digits := Str.takeDigits argument in
    if negb (Str.isEmpty digits)
       && Str.forallb (Ascii.eqb " ")
            (Str.drop (String.length digits) argument)
    then Some (Str.digitsValue digits)
    else None
  else None.

(** The [max-age] that a [cache-control] value carries, as HTTP reads the
    header: a list of directives separated by commas. *)
Definition maxAgeDirective (v : string) : option Z :=
  head (omap maxAgeOfDirective (Str.split "," v)).

(** The sentence of the specification about merging, for [cache-control]:
    the header is merged exactly when every set carries a [max-age] that
    parses, and then with the smallest one. *)
Definition mergeHeaders_as_stated : Prop :=
  ∀ (host : Host) (hs : list Headers),
    hs ≠ [] →
    mergedAs (fun h => h !! "cache-control" ≫= maxAgeDirective) earliest
      (fun v => "max-age=" +:+ pretty v) hs
      (mergeHeaders host hs !! "cache-control").

(** [Number.MAX_SAFE_INTEGER]: up to it a number holds every integer
    exactly and [toString] prints all of its digits. *)
Definition MAX_SAFE_INTEGER : Z := 2 ^ 53 - 1.

(** Whether a string starts with a decimal digit. *)
Definition startsWithDigit (s : string) : bool :=
  match s with
  | String c _ => Str.isDigit c
  | EmptyString => false
  end.

(** The value [v] begins with [max-age=] and the decimal numeral of [n],
    after zeros if any and before a character that is no digit. *)
Definition beginsWithMaxAge (v : string) (n : Z) : Prop :=
  0 <= n
  ∧ ∃ zeros rest,
      v = "max-age=" +:+ zeros +:+ pretty n +:+ rest
      ∧ Str.forallb (Ascii.eqb "0") zeros = true
      ∧ startsWithDigit rest = false.

(** The [cache-control] of a header set begins with [max-age=n]. *)
Definition leadingMaxAge (h : Headers) (n : Z) : Prop :=
  ∃ v, h !! "cache-control" = Some v ∧ beginsWithMaxAge v n.

(** The merged [cache-control]: when the value of every set begins with
    [max-age=] and a number, the header is present, and for numbers up to
    [MAX_SAFE_INTEGER] it is [max-age=] and the smallest of them; when the
    value of some set does not begin so, the header is absent. *)
Definition mergedMaxAge (hs : list Headers) (r : option string) : Prop :=
  (∃ ns, Forall2 leadingMaxAge hs ns
         ∧ is_Some r
         ∧ (Forall (fun n => n <= MAX_SAFE_INTEGER) ns →
            ∃ v, r = Some ("max-age=" +:+ pretty v)
                 ∧ v ∈ ns ∧ ∀ w, w ∈ ns → v <= w))
  ∨ (Exists (fun h => ∀ n, ¬ leadingMaxAge h n) hs ∧ r = None).

(** The keys that [mergeHeaders] may define. *)
Definition mergedKeys : list string :=
  ["date"; "last-modified"; "expires"; "cache-control"].

(** Two header sets that can be merged on every header, and a third one
    whose [cache-control] does not start with [max-age=]. *)
Definition headersA : Headers :=
  {[ "date" := date2023; "last-modified" := date1994;
     "expires" := date2023; "cache-control" := "max-age=3600" ]}.

Definition headersB : Headers :=
  {[ "date" := date1994; "last-modified" := date1970;
     "expires" := date1994; "cache-control" := "max-age=60, public" ]}.

Definition headersC : Headers :=
  {[ "date" := date1994; "cache-control" := "public, max-age=60" ]}.

(** *** The bundle packager *)

(** The sentence of the specification about packaging: the payload lists
    one entry per member, in the order of the members, each with its body
    when its status is 200 and with [null] otherwise. *)
Definition packaging_as_stated : Prop :=
  ∀ (modulePaths : list string) (f : Fetched),
    Object_entries (Object_fromEntries (moduleEntries modulePaths f))
    = moduleEntries modulePaths f.

(** A bundle of three members whose second one is not found. *)
Definition threeMembers : list string := ["m/1.js"; "m/2.js"; "m/3.js"].

Definition threeFetched : Fetched :=
  {| statuss := [200; 404; 200];
     headerss := [∅; ∅; ∅];
     contents := [BodyText "one()"; BodyText "Not Found"; BodyText "three()"] |}.

(** A bundle whose second member is named by an array index. *)
Definition indexMembers : list string := ["b"; "1"].

Definition indexFetched : Fetched :=
  {| statuss := [200; 200];
     headerss := [∅; ∅];
     contents := [BodyText "b()"; BodyText "one()"] |}.

(** The bundle [m/1.js] of three members, and a backend that does not find
    the second. *)
Definition threeAssociator : Associator :=
  StaticAssociator {["m/1.js" := Mod <$> threeMembers]}
    {["m/1.js" := "m/1.js"; "m/2.js" := "m/1.js"; "m/3.js" := "m/1.js"]}
    IdentityAssociator.

Definition threeBackend (uri method : string) : Z * Headers * Body :=
  if String.eqb uri "http://l.example/m/1.js" then (200, ∅, BodyText "one()")
  else if String.eqb uri "http://l.example/m/3.js" then
    (200, ∅, BodyText "three()")
  else (404, ∅, BodyText "Not Found").

Definition threeRequest : Request :=
  {| url := Some {| pathname := "/library/m/1.js"; search := "?callback=cb";
                    callback := Some "cb" |};
     method := "GET";
     headers := ∅;
     hasNext := false |}.

(** *** The response dispatcher *)

(** Two of the statuses differ. *)
Definition statusesDisagree (statuss : list Z) : Prop :=
  ∃ i j s t, statuss !! i = Some s ∧ statuss !! j = Some t ∧ s ≠ t.

(** The sentence of the specification about a status mismatch in the HEAD
    fan-out: the GET fan-out follows and the response is not a 304. *)
Definition mismatch_forces_get_as_stated : Prop :=
  ∀ (host : Host) (server : ServerState) (request : Request)
    (requestHeaders : Headers) (JSONPCallback modulePath : string)
    (modulePaths : list string),
    memberPaths (bundleMembers server modulePath) = Some modulePaths →
    statusesDisagree
      (statuss (fetch host (headCall server requestHeaders modulePaths))) →
    let result :=
      fetchBundle host server request requestHeaders JSONPCallback modulePath in
    getCall server requestHeaders modulePaths ∈ result.2
    ∧ ∀ h b, result.1 ≠ Responded 304 h b.

(** A backend whose two resources were last modified in 1994; asked with
    HEAD, the first answers 200 and the second 304. *)
Definition mixedBackend (uri method : string) : Z * Headers * Body :=
  if String.eqb uri "http://l.example/a" then
    (200, {["last-modified" := date1994]}, BodyText "a()")
  else if String.eqb uri "http://l.example/b" then
    (if String.eqb method "HEAD" then 304 else 200,
     {["last-modified" := date1994]}, BodyText "b()")
  else (404, ∅, BodyText "").

(** The bundle [a] of the modules [a] and [b]. *)
Definition pairAssociator : Associator :=
  StaticAssociator {["a" := [Mod "a"; Mod "b"]]} {["a" := "a"; "b" := "a"]}
    IdentityAssociator.

Definition pairServer : ServerState :=
  Platform.defaultServer (Some pairAssociator).

(** [GET /library/a?callback=cb] with [if-modified-since] in 2023. *)
Definition conditionalGet : Request :=
  {| url := Some {| pathname := "/library/a"; search := "?callback=cb";
                    callback := Some "cb" |};
     method := "GET";
     headers := {["if-modified-since" := date2023]};
     hasNext := false |}.

(** *** The association table *)

(** [new Alias(a, t)] is listed in some bundle of the description. *)
Definition aliasEntry (mapping : Mapping) (a t : string) : Prop :=
  ∃ bundle modules, (bundle, modules) ∈ mapping ∧ Alias a t ∈ modules.

Definition isAliasName (mapping : Mapping) (a : string) : Prop :=
  ∃ t, aliasEntry mapping a t.

(** No alias is named after a bundle. *)
Definition aliasesAvoidBundles (mapping : Mapping) : Prop :=
  ∀ a, isAliasName mapping a → a ∉ mapping.*1.

(** Every alias that is named after a bundle has that bundle as its
    preferred path in the member-to-bundle map [m2b]. *)
Definition aliasesKeepBundles (mapping : Mapping)
    (m2b : gmap string string) : Prop :=
  ∀ B, B ∈ mapping.*1 → isAliasName mapping B → m2b !! B = Some B.

(** A member-to-bundle map whose values read as themselves. *)
Definition closedTable (m2b : gmap string string) : Prop :=
  ∀ x v, m2b !! x = Some v → default v (m2b !! v) = v.

(** The members of the description with the bundle that lists them, in the
    order in which the first loop meets them. *)
Definition listed (mapping : Mapping) : list (string * Member) :=
  mapping ≫= (fun entry => (fun module => (entry.1, module)) <$> entry.2).

(** The table built from a description, the empty one when the
    construction throws. *)
Definition tableOf (mapping : Mapping) : Associations :=
  match associationsForSimpleMapping mapping with
  | Ok associations => associations
  | Throw _ => (∅, ∅)
  end.

(** [/\.js$|(?:^|\/)index\.js$|.\/+$/.test(s)]: the expression matches at
    some position of [s]. *)
Fixpoint expressionMatches (atStart : bool) (s : string) : bool :=
  suffixMatches atStart s
  || match s with
     | EmptyString => false
     | String _ rest => expressionMatches false rest
     end.

(** The sentence of the specification about alias chains, first half: in a
    table built from a description whose aliases lead from [a] to [b] and
    from [b] to [c], where [c] is no alias, the preferred path of [a] is
    [c]. *)
Definition chain_resolves_as_stated : Prop :=
  ∀ (mapping : Mapping) (a b c : string) (associations : Associations),
    aliasEntry mapping a b → aliasEntry mapping b c →
    ¬ isAliasName mapping c →
    associationsForSimpleMapping mapping = Ok associations →
    preferredPath (newStaticAssociator associations None) a = c.

(** The same sentence, second half: a description whose aliases lead from
    [a] to [b] and back to [a] still gives a table, the error being left to
    the first lookup of [a]. *)
Definition cycle_deferred_as_stated : Prop :=
  ∀ (mapping : Mapping) (a b : string),
    aliasEntry mapping a b → aliasEntry mapping b a →
    ∃ associations, associationsForSimpleMapping mapping = Ok associations.

(** The sentence of the specification about canonicalization. *)
Definition preferredPath_idempotent_as_stated : Prop :=
  ∀ (a : Associator) (p : string),
    preferredPath a (preferredPath a p) = preferredPath a p.

(** The sentence about bundle membership: the members of a path are the
    members of its preferred path. *)
Definition membership_as_stated : Prop :=
  ∀ (mapping : Mapping) (associations : Associations) (p : string),
    associationsForSimpleMapping mapping = Ok associations →
    let a := newStaticAssociator associations None in
    associatedModulePaths a p = associatedModulePaths a (preferredPath a p).

(** The description of the source comment, without an alias. *)
Definition plainMapping : Mapping :=
  [("/module/path/1.js",
    [Mod "/module/path/1.js"; Mod "/module/path/2.js";
     Mod "/module/path/3.js"; Mod "/module/path/4.js"]);
   ("/module/path/4.js",
    [Mod "/module/path/3.js"; Mod "/module/path/4.js";
     Mod "/module/path/5.js"])].

(** The description of the source comment, with one more alias: the bundle
    [/module/path/4.js] lists three modules, the alias [/module] of
    [/module/path/3.js] and the alias [/m] of [/module]. *)
Definition chainMapping : Mapping :=
  [("/module/path/4.js",
    [Mod "/module/path/3.js"; Mod "/module/path/4.js";
     Mod "/module/path/5.js";
     Alias "/module" "/module/path/3.js"; Alias "/m" "/module"])].

(** Two aliases that lead to each other. *)
Definition loopMapping : Mapping :=
  [("/bundle.js", [Mod "/bundle.js"; Alias "a" "b"; Alias "b" "a"])].

(** The description of the source comment of [Alias]: the bundle [jquery]
    lists the module [jquery/dist/jquery.min.js] and the alias [jquery] of
    it. *)
Definition jqueryMapping : Mapping :=
  [("jquery",
    [Alias "jquery" "jquery/dist/jquery.min.js";
     Mod "jquery/dist/jquery.min.js"])].

(** A bundle that lists one module and an alias named after the bundle
    itself, to a path outside the bundle. *)
Definition selfAliasMapping : Mapping :=
  [("/app.js", [Mod "/util.js"; Alias "/app.js" "/main.js"])].

(** *** What the construction reports *)

(** Two members of the description with the same name have the same
    target: a name is not listed both as a module and as an alias, nor as
    an alias of two paths. *)
Definition namesAgree (mapping : Mapping) : Prop :=
  ∀ b1 m1 b2 m2,
    (b1, m1) ∈ listed mapping → (b2, m2) ∈ listed mapping →
    moduleNameOf m1 = moduleNameOf m2 → targetNameOf m1 = targetNameOf m2.

(** The aliases of the description lead from [n] back to [n]. *)
Definition aliasCycle (mapping : Mapping) (n : string) : Prop :=
  tc (aliasEntry mapping) n n.

(** What each error of [associationsForSimpleMapping] reports. *)
Definition reported (mapping : Mapping) (e : Error) : Prop :=
  match e with
  | BundleAlreadyDefined bundle =>
      ∃ pre modules post,
        mapping = pre ++ (bundle, modules) :: post ∧ bundle ∈ pre.*1
  | ConflictingDefinition name =>
      ∃ b1 m1 b2 m2,
        (b1, m1) ∈ listed mapping ∧ (b2, m2) ∈ listed mapping
        ∧ moduleNameOf m1 = name ∧ moduleNameOf m2 = name
        ∧ targetNameOf m1 ≠ targetNameOf m2
  | AliasLoop name =>
      isAliasName mapping name
      ∧ ∃ n, rtc (aliasEntry mapping) name n ∧ aliasCycle mapping n
  | OutOfSteps => False
  end.

(** *** The complex mapping *)

(** The package of index [j] lists a member that is read as the key
    [path]. *)
Definition packageLists (packageModuleMap : list (string * list Member))
    (packages : list string) (j : nat) (path : string) : Prop :=
  ∃ pkg modules key,
    packages !! j = Some pkg ∧ Obj.get packageModuleMap pkg = Some modules
    ∧ key ∈ modules ∧ ComplexMapping.propertyKey key = path.

(** What the loops of [complexMappingForAssociations] maintain, [P j key]
    saying that the member [key] of the package of index [j] has been met,
    and [n] being the number of the packages: the mapping holds exactly the
    keys met, each with one flag per package, the flags of the packages in
    which it was met, and the greatest index of such a package. *)
Definition marked (n : nat) (P : nat -> Member -> Prop)
    (mapping : list (string * ComplexMapping.Association)) : Prop :=
  NoDup mapping.*1
  ∧ ∀ k,
      match Obj.get mapping k with
      | None => ∀ j key, P j key → ComplexMapping.propertyKey key ≠ k
      | Some (i, flags) =>
          length flags = n
          ∧ (∃ key, P i key ∧ ComplexMapping.propertyKey key = k)
          ∧ (∀ j, flags !! j = Some true
                  ↔ ∃ key, P j key ∧ ComplexMapping.propertyKey key = k)
          ∧ (∀ j key, P j key → ComplexMapping.propertyKey key = k →
                      (j <= i)%nat)
      end.

(** The modules that [associationsForComplexMapping] pushes to the package
    [pkg] for the entries [es], in the order of the pushes. *)
Definition pushedTo (packages : list string) (pkg : string)
    (es : list (string * ComplexMapping.Association)) : list Member :=
  es ≫= (fun e =>
    imap (fun j include => (j, include)) e.2.2 ≫= (fun f =>
      if f.2 && bool_decide (default "undefined" (packages !! f.1) = pkg)
      then [Mod e.1] else [])).

(** What a package holds after pushes to a package that held [held]. *)
Definition afterPushes (held : option (list Member)) (pushed : list Member)
  : option (list Member) :=
  match held, pushed with
  | None, [] => None
  | _, _ => Some (default [] held ++ pushed)
  end.

(** *** The invariants of the two loops *)

(** What the first loop maintains, [met] being the members met so far:
    every member met is recorded in [ind] with its target; [ind] holds
    nothing else, and no key twice; a module is given a bundle only by a
    bundle that lists it, and only when the module names no bundle or names
    that very bundle. *)
Record FirstLoopInv (mapping : Mapping) (met : list (string * Member))
    (m2b : gmap string string) (ind : Indirections) : Prop := {
  inv_recorded : ∀ bundle module,
    (bundle, module) ∈ met →
    indGet ind (moduleNameOf module) = Some (targetNameOf module);
  inv_origin : ∀ k v,
    indGet ind k = Some v →
    ∃ bundle module, (bundle, module) ∈ met
                     ∧ moduleNameOf module = k ∧ targetNameOf module = v;
  inv_keys : NoDup ind.*1;
  inv_bundle : ∀ x B,
    m2b !! x = Some B →
    (B, Mod x) ∈ met ∧ (hasOwn mapping x = false ∨ x = B);
}.

(** What the second loop maintains, [met] being the entries of [ind] met
    so far and [m2b0] the map that the first loop left: a path that is the
    end of a chain reads as it did after the first loop, itself when it has
    no bundle; an entry met is given what its end reads; nothing else is
    added. *)
Record SecondLoopInv (ind : Indirections) (m2b0 : gmap string string)
    (met : Indirections) (m2b : gmap string string) : Prop := {
  inv_ends : ∀ r,
    indTarget ind r = None → default r (m2b !! r) = default r (m2b0 !! r);
  inv_resolved : ∀ name target,
    (name, target) ∈ met →
    ∃ r, resolveLoop (S (length ind)) ind name {[name]} name target = Ok r
         ∧ m2b !! name = Some (default r (m2b0 !! r));
  inv_domain : ∀ x,
    is_Some (m2b !! x) → is_Some (m2b0 !! x) ∨ x ∈ met.*1;
}.

(** *** The test-suite of the repository *)

(** The server and the requests of the test-suite of the relative paths:
    only the library is configured, every resource answers 200 with the
    body ['use strict';], and case [i] sends [i/from] to [i/to]. *)
Definition testCases : list (string * string * option string) :=
  [("a", "a", None); ("a", "b", Some "b"); ("a", "a/", Some "a/");
   ("a/", "a", Some "../a"); ("a", "a/b", Some "a/b");
   ("a/b", "a", Some "../a"); ("a/", "a/b", Some "b");
   ("a/b", "a/", Some "./"); ("", "b", Some "b")].

Definition testHost : Host :=
  Platform.hostWith
    (fun _ _ _ => (200, ∅, BodyText "'use strict';"))
    (fun locations _ _ =>
       {| statuss := (fun _ => 200) <$> locations;
          headerss := (fun _ => ∅) <$> locations;
          contents := (fun _ => BodyText "'use strict';") <$> locations |}).

Definition testServer : ServerState :=
  {| _rootURI := None;
     _rootPath := None;
     _libraryURI := Some "http://ignored.because.of.requestURIs.example/";
     _libraryPath := Some "/library/";
     _baseURI := None;
     _associator :=
       Some (StaticAssociator ∅
               (list_to_map
                  (imap (fun i '(from, to, _) =>
                           (pretty i +:+ "/" +:+ from, pretty i +:+ "/" +:+ to))
                     testCases))
               IdentityAssociator) |}.

Definition testRequest (i : nat) (from : string) : Request :=
  {| url := Some {| pathname := "/library/" +:+ pretty i +:+ "/" +:+ from;
                    search := "?callback=require.define";
                    callback := Some "require.define" |};
     method := "GET";
     headers := ∅;
     hasNext := true |}.

(** What the test-suite expects of case [i]: the status 200 without an
    expected path, the status 307 and the [Location] with one. *)
Definition testExpectation (i : nat) (c : string * string * option string)
  : Prop :=
  let '(from, to, want) := c in
  match (handle testHost testServer (testRequest i from)).1, want with
  | Responded 200 _ _, None => True
  | Responded 307 h _, Some w =>
      h !! "Location" = Some (w +:+ "?callback=require.define")
  | _, _ => False
  end.

End Statements.

(** * Properties *)

Import Associators Server Statements.

(** ** Strings *)

Lemma string_length_app (s t : string) :
  String.length (s +:+ t) = (String.length s + String.length t)%nat.
Proof. induction s as [|c s IH]; [done|]. simpl. by rewrite IH. Qed.

Lemma string_app_assoc (s t u : string) : (s +:+ t) +:+ u = s +:+ (t +:+ u).
Proof.
  induction s as [|c s IH]; [done|].
  change (String c ((s +:+ t) +:+ u) = String c (s +:+ (t +:+ u))).
  by rewrite IH.
Qed.

Lemma Str_forallb_app (p : ascii -> bool) (s t : string) :
  Str.forallb p (s +:+ t) = Str.forallb p s && Str.forallb p t.
Proof.
  induction s as [|c s IH]; [done|]. simpl. rewrite IH. by rewrite andb_assoc.
Qed.

Lemma startsWith_app (p s : string) : Str.startsWith p (p +:+ s) = true.
Proof.
  induction p as [|c p IH]; [done|]. simpl. by rewrite Ascii.eqb_refl, IH.
Qed.

Lemma startsWith_spec (p s : string) :
  Str.startsWith p s = true ↔ ∃ rest, s = p +:+ rest.
Proof.
  split.
  - revert s. induction p as [|c p IH]; intros s; [by exists s|].
    destruct s as [|d s]; [discriminate|]. simpl.
    intros [->%Ascii.eqb_eq [rest ->]%IH]%andb_true_iff. by exists rest.
  - intros [rest ->]. apply startsWith_app.
Qed.

Lemma Str_drop_app (p s : string) : Str.drop (String.length p) (p +:+ s) = s.
Proof. induction p as [|c p IH]; [by destruct s | exact IH]. Qed.

(** ** The redirect canonicalizer: [relativePath] *)

Lemma relativePath_nonempty (from to : string) : relativePath from to ≠ "".
Proof.
  unfold relativePath.
  destruct (pop (Str.split "/" to)) as [toSplit toFile].
  destruct (dropCommon _ toSplit) as [fromSplit' toSplit'].
  match goal with
  | |- (if Str.isEmpty ?r then _ else _) ≠ _ => destruct r eqn:E
  end; simpl; discriminate.
Qed.

(** C3. [relativePath] gives the four literal results
    ([a] to [b] is [b], [a/] to [a] is [../a], [a] to [a/] is [a/], [a/b] to
    [a/] is [./]); resolving each result against its [from] path gives the
    [to] path back; and the result is never the empty string, for these
    pairs as for every other pair of paths. *)
Theorem relativePath_literal_pairs :
  relativePath "a" "b" = "b"
  ∧ relativePath "a/" "a" = "../a"
  ∧ relativePath "a" "a/" = "a/"
  ∧ relativePath "a/b" "a/" = "./"
  ∧ Forall (fun '(from, to, want) =>
              relativePath from to = want
              ∧ Url.resolveReference from (relativePath from to) = to)
      literalPairs
  ∧ ∀ from to, relativePath from to ≠ "".
Proof.
  repeat split; try reflexivity; try apply relativePath_nonempty.
  unfold literalPairs. repeat constructor.
Qed.

(** The earlier revision of [relativePath], which [src/server.js] still
    holds, is another function: it gives the empty string on three of the
    four pairs, and its loop does not end when the two paths are equal. *)
Example relativePath_earlier_pairs :
  relativePath_earlier "a" "b" = Some "b"
  ∧ relativePath_earlier "a/" "a" = Some ""
  ∧ relativePath_earlier "a" "a/" = Some ""
  ∧ relativePath_earlier "a/b" "a/" = Some ""
  ∧ relativePath_earlier "a" "a" = None.
Proof. repeat split. Qed.

(** *** The general case *)

Section Segments.

#[local] Arguments Ascii.eqb : simpl never.

Lemma split_nonempty (s : string) : Str.split "/" s ≠ [].
Proof.
  destruct s as [|c s]; simpl; [done|].
  destruct (Ascii.eqb c "/"); [done|]. by destruct (Str.split "/" s).
Qed.

Lemma join_cons_char (c : ascii) (w : string) (ws : list string) :
  Str.join "/" (String c w :: ws) = String c (Str.join "/" (w :: ws)).
Proof. by destruct ws. Qed.

Lemma join_split (s : string) : Str.join "/" (Str.split "/" s) = s.
Proof.
  induction s as [|c s IH]; [done|]. simpl.
  destruct (Ascii.eqb c "/") eqn:E.
  - apply Ascii.eqb_eq in E. subst c.
    pose proof (split_nonempty s) as Hne.
    destruct (Str.split "/" s) as [|w ws]; [done|].
    change (Str.join "/" ("" :: w :: ws))
      with ("" +:+ "/" +:+ Str.join "/" (w :: ws)).
    by rewrite IH.
  - pose proof (split_nonempty s) as Hne.
    destruct (Str.split "/" s) as [|w ws]; [done|].
    by rewrite join_cons_char, IH.
Qed.

Lemma split_noSlash (s : string) : Forall noSlash (Str.split "/" s).
Proof.
  induction s as [|c s IH]; simpl; [by repeat constructor|].
  destruct (Ascii.eqb c "/") eqn:E; [by constructor|].
  pose proof (split_nonempty s) as Hne.
  destruct (Str.split "/" s) as [|w ws]; [done|].
  apply Forall_cons in IH as [Hw Hws]. constructor; [|done].
  unfold noSlash in *. simpl. rewrite Hw.
  rewrite Ascii.eqb_sym, E. done.
Qed.

Lemma split_segment (x r : string) :
  noSlash x → Str.split "/" (x +:+ "/" +:+ r) = x :: Str.split "/" r.
Proof.
  unfold noSlash. induction x as [|c x IH]; simpl; [done|].
  intros [Hc Hx]%orb_false_iff. rewrite Ascii.eqb_sym, Hc.
  rewrite (IH Hx). done.
Qed.

Lemma split_single (x : string) : noSlash x → Str.split "/" x = [x].
Proof.
  unfold noSlash. induction x as [|c x IH]; simpl; [done|].
  intros [Hc Hx]%orb_false_iff. rewrite Ascii.eqb_sym, Hc.
  by rewrite (IH Hx).
Qed.

Lemma split_join (l : list string) :
  l ≠ [] → Forall noSlash l → Str.split "/" (Str.join "/" l) = l.
Proof.
  induction l as [|x l IH]; [done|]. intros _ [Hx Hl]%Forall_cons.
  destruct l as [|y l].
  - by apply split_single.
  - change (Str.join "/" (x :: y :: l))
      with (x +:+ "/" +:+ Str.join "/" (y :: l)).
    rewrite split_segment by done. f_equal. by apply IH.
Qed.

Lemma split_repeat (n : nat) (s : string) :
  Str.split "/" (Str.repeat "../" n +:+ s)
  = replicate n ".." ++ Str.split "/" s.
Proof.
  induction n as [|n IH]; [done|].
  change (Str.repeat "../" (S n) +:+ s)
    with (".." +:+ "/" +:+ (Str.repeat "../" n +:+ s)).
  rewrite split_segment by done. by rewrite IH.
Qed.

Lemma join_empty (l : list string) :
  Str.join "/" l = "" → l = [] ∨ l = [""].
Proof.
  destruct l as [|x [|y l]]; [by left | simpl; intros ->; by right|].
  change (Str.join "/" (x :: y :: l))
    with (x +:+ "/" +:+ Str.join "/" (y :: l)).
  destruct x; discriminate.
Qed.

Lemma isEmpty_true (s : string) : Str.isEmpty s = true → s = "".
Proof. by destruct s. Qed.

Lemma append_empty (s t : string) : s +:+ t = "" → s = "" ∧ t = "".
Proof. destruct s; [done | discriminate]. Qed.

Lemma repeat_empty (n : nat) : Str.repeat "../" n = "" → n = 0%nat.
Proof. destruct n; [done | discriminate]. Qed.

Lemma dropCommon_spec (F T F' T' : list string) :
  dropCommon F T = (F', T') →
  ∃ common, F = common ++ F' ∧ T = common ++ T'.
Proof.
  revert T. induction F as [|f F IH]; intros T; simpl.
  - intros [= <- <-]. by exists [].
  - destruct T as [|t T]; [intros [= <- <-]; by exists []|].
    destruct (String.eqb f t) eqn:E.
    + apply String.eqb_eq in E. subst t.
      intros (common & -> & ->)%IH. by exists (f :: common).
    + intros [= <- <-]. by exists [].
Qed.

Lemma pop_spec (l : list string) :
  l ≠ [] → ∃ f, Server.pop l = (removelast l, Some f) ∧ removelast l ++ [f] = l.
Proof.
  intros Hne. destruct (exists_last Hne) as (l' & f & ->).
  exists f. unfold pop. rewrite last_snoc, removelast_last. done.
Qed.

Lemma applySegments_up (n : nat) (stack extra segs : list string) :
  segs ≠ [] → length extra = n →
  Url.applySegments (stack ++ extra) (replicate n ".." ++ segs)
  = Url.applySegments stack segs.
Proof.
  revert extra. induction n as [|n IH]; intros extra Hne Hlen.
  - destruct extra; [|done]. by rewrite app_nil_r.
  - destruct (exists_last (l := extra)) as (extra' & x & ->);
      [by destruct extra|].
    rewrite length_app in Hlen. simpl in Hlen.
    change (replicate (S n) ".." ++ segs) with (".." :: (replicate n ".." ++ segs)).
    cbn [Url.applySegments]. simpl String.eqb.
    assert (replicate n ".." ++ segs ≠ []) as Hrest.
    { destruct n; [done | discriminate]. }
    destruct (replicate n ".." ++ segs) as [|s rest] eqn:E; [done|].
    rewrite app_assoc, removelast_last. apply IH; [done | lia].
Qed.

Lemma applySegments_plain (stack segs : list string) :
  Forall plainSegment segs → Url.applySegments stack segs = stack ++ segs.
Proof.
  revert stack. induction segs as [|s segs IH]; intros stack Hplain; simpl.
  - by rewrite app_nil_r.
  - apply Forall_cons in Hplain as [[Hdot Hdotdot] Hplain].
    apply String.eqb_neq in Hdot, Hdotdot. rewrite Hdot, Hdotdot.
    rewrite IH by done. by rewrite <- app_assoc.
Qed.

Lemma split_absolute (s : string) :
  Str.startsWith "/" s = true →
  Str.split "/" s = "" :: Url.segmentsOf s.
Proof.
  unfold Url.segmentsOf. intros Habs. rewrite Habs.
  destruct s as [|c s]; [discriminate|].
  cbn [Str.startsWith] in Habs. rewrite andb_true_r in Habs.
  apply Ascii.eqb_eq in Habs. subst c. reflexivity.
Qed.

Lemma removelast_cons (x : string) (l : list string) :
  l ≠ [] → removelast (x :: l) = x :: removelast l.
Proof. by destruct l. Qed.

Lemma last_cons_nonempty (x : string) (l : list string) :
  l ≠ [] → last (x :: l) = last l.
Proof. by destruct l. Qed.

Lemma segmentsOf_nonempty (s : string) : Url.segmentsOf s ≠ [].
Proof. apply split_nonempty. Qed.

Lemma join_segmentsOf (s : string) :
  Str.startsWith "/" s = true → "/" +:+ Str.join "/" (Url.segmentsOf s) = s.
Proof.
  intros Habs. rewrite <- (join_split s) at 2.
  rewrite (split_absolute s Habs).
  pose proof (segmentsOf_nonempty s).
  by destruct (Url.segmentsOf s).
Qed.

(** X13. For two paths that [new URL] reads as they are written (one
    separator at the start, plain characters, no dot segment): when the
    relative path is not itself taken for an absolute one, resolving it
    against [from] gives [to] back. *)
Lemma relativePath_resolves (from to : string) :
  plainPath from →
  plainPath to →
  Str.startsWith "/" (relativePath from to) = false →
  Url.resolveReference from (relativePath from to) = to.
Proof.
  intros (Hfrom & _ & _ & _) (Hto & _ & _ & Hplain). unfold relativePath.
  rewrite (split_absolute from Hfrom), (split_absolute to Hto).
  destruct (pop_spec (Url.segmentsOf from) (segmentsOf_nonempty from))
    as (ff & Hpf & Hff).
  destruct (pop_spec (Url.segmentsOf to) (segmentsOf_nonempty to))
    as (f & Hpt & Hf).
  unfold pop in *.
  rewrite !removelast_cons, !last_cons_nonempty by apply segmentsOf_nonempty.
  injection Hpt as Hlast. rewrite Hlast. cbn [fst default].
  cbn [dropCommon]. rewrite String.eqb_refl.
  destruct (dropCommon (removelast (Url.segmentsOf from))
              (removelast (Url.segmentsOf to))) as [F' T'] eqn:Hdrop.
  apply dropCommon_spec in Hdrop as (common & HF & HT).
  assert (Forall noSlash (T' ++ [f])) as Hslash.
  { pose proof (split_noSlash (if Str.startsWith "/" to then Str.drop 1 to else to))
      as Hall.
    fold (Url.segmentsOf to) in Hall. rewrite <- Hf, HT in Hall.
    rewrite <- app_assoc in Hall. by apply Forall_app in Hall as [_ ?]. }
  assert (Forall plainSegment (T' ++ [f])) as Hplain'.
  { rewrite <- Hf, HT, <- app_assoc in Hplain.
    by apply Forall_app in Hplain as [_ ?]. }
  assert (to = "/" +:+ Str.join "/" (common ++ T' ++ [f])) as Hto_eq.
  { rewrite <- (join_segmentsOf to Hto) at 1.
    by rewrite <- Hf, HT, <- app_assoc. }
  unfold Url.resolveReference. rewrite Hfrom.
  change (id f) with f.
  destruct (Str.isEmpty _) eqn:Hempty.
  - intros _.
    assert (Str.repeat "../" (length F') +:+ Str.join "/" (T' ++ [f]) = "")
      as Hrel by (by apply isEmpty_true).
    apply append_empty in Hrel as [Hn%repeat_empty Hj%join_empty].
    destruct F'; [|discriminate Hn].
    destruct Hj as [Hj|Hj]; [by destruct T'|].
    rewrite app_nil_r in HF. rewrite HF.
    rewrite Hto_eq, Hj. reflexivity.
  - intros Hrel. rewrite Hrel.
    assert (Str.isEmpty (Str.repeat "../" (length F')
                         +:+ Str.join "/" (T' ++ [f])) = false) as -> by done.
    rewrite split_repeat, split_join by (done || by destruct T').
    rewrite HF, applySegments_up by (done || by destruct T').
    rewrite applySegments_plain by done. by rewrite Hto_eq.
Qed.

End Segments.

(** Without the last hypothesis the property fails: an empty segment of
    [to] right after the common part makes the relative path start with a
    separator. *)
Example relativePath_empty_segment :
  relativePath "/a/x" "/a//b" = "/b"
  ∧ Url.resolveReference "/a/x" (relativePath "/a/x" "/a//b") = "/b".
Proof. split; reflexivity. Qed.

(** ** The conditional-cache evaluator *)

Section Evaluator.

Context (host : Host).

Lemma lookup_selectProperties_acc (o acc : Headers) (keys : list string)
    (k : string) :
  foldl (fun object key =>
           match o !! key with
           | Some v => <[key := v]> object
           | None => object
           end) acc keys !! k
  = match (if decide (k ∈ keys) then o !! k else None) with
    | Some v => Some v
    | None => acc !! k
    end.
Proof.
  revert acc. induction keys as [|key keys IH]; intros acc; simpl.
  - destruct (decide (k ∈ [])) as [Hin|]; [by apply elem_of_nil in Hin | done].
  - rewrite IH. clear IH.
    destruct (decide (k = key)) as [<-|Hne].
    + rewrite (decide_True (P := k ∈ k :: keys)) by (by left).
      destruct (decide (k ∈ keys)); destruct (o !! k) eqn:E;
        rewrite ?lookup_insert_eq; done.
    + destruct (decide (k ∈ key :: keys)) as [Hin|Hnin];
        destruct (decide (k ∈ keys)) as [Hin'|Hnin'].
      * destruct (o !! k); [done|].
        destruct (o !! key); rewrite ?lookup_insert_ne; done.
      * apply elem_of_cons in Hin as [?|?]; done.
      * exfalso. apply Hnin. by right.
      * destruct (o !! key); rewrite ?lookup_insert_ne; done.
Qed.

Lemma lookup_selectProperties (o : Headers) (keys : list string) (k : string) :
  selectProperties o keys !! k = if decide (k ∈ keys) then o !! k else None.
Proof.
  unfold selectProperties. rewrite lookup_selectProperties_acc.
  rewrite lookup_empty. by destruct (if decide (k ∈ keys) then _ else _).
Qed.

Lemma bundleHeaders_etag (h : Headers) : bundleHeaders h !! "etag" = None.
Proof.
  unfold bundleHeaders. rewrite !lookup_insert_ne by done.
  rewrite lookup_selectProperties. apply decide_False.
  unfold HEADER_WHITELIST. rewrite !elem_of_cons, elem_of_nil.
  intros H. repeat (destruct H as [H|H]; [discriminate H|]). exact H.
Qed.

Lemma bundleHeaders_last_modified (h : Headers) :
  bundleHeaders h !! "last-modified" = h !! "last-modified".
Proof.
  unfold bundleHeaders. rewrite !lookup_insert_ne by done.
  rewrite lookup_selectProperties. by rewrite decide_True by set_solver.
Qed.

Lemma etagMatches_absent (req resp : Headers) :
  resp !! "etag" = None → etagMatches req resp = false.
Proof.
  intros E. unfold etagMatches, truthy. rewrite E.
  destruct (req !! "etag"); [|done].
  rewrite bool_decide_eq_false_2 by done. apply andb_false_r.
Qed.

(** In a bundle response the decision only reads [last-modified]. *)
Lemma notModified_bundleHeaders (req h : Headers) :
  notModified host req (bundleHeaders h) = notModifiedSince host req h.
Proof.
  unfold notModified. rewrite etagMatches_absent by apply bundleHeaders_etag.
  unfold notModifiedSince, dateOf. by rewrite bundleHeaders_last_modified.
Qed.

(** The lookups of a merged header object. *)
Lemma mergeHeaders_date (hs : list Headers) :
  mergeHeaders host hs !! "date"
  = (fun values => utcString host (Math_max values))
      <$> everyNumber ((fun h => dateOf host h "date") <$> hs).
Proof.
  unfold mergeHeaders. repeat case_match; simplify_map_eq; done.
Qed.

Lemma mergeHeaders_last_modified (hs : list Headers) :
  mergeHeaders host hs !! "last-modified"
  = (fun values => utcString host (Math_max values))
      <$> everyNumber ((fun h => dateOf host h "last-modified") <$> hs).
Proof.
  unfold mergeHeaders. repeat case_match; simplify_map_eq; done.
Qed.

Lemma mergeHeaders_expires (hs : list Headers) :
  mergeHeaders host hs !! "expires"
  = (fun values => utcString host (Math_min values))
      <$> everyNumber ((fun h => dateOf host h "expires") <$> hs).
Proof.
  unfold mergeHeaders. repeat case_match; simplify_map_eq; done.
Qed.

Lemma mergeHeaders_cache_control (hs : list Headers) :
  mergeHeaders host hs !! "cache-control"
  = (fun values => "max-age=" +:+ numToString (Math_min values))
      <$> everyNumber (maxAgeOf <$> hs).
Proof.
  unfold mergeHeaders. repeat case_match; simplify_map_eq; done.
Qed.

Lemma mergeHeaders_other (hs : list Headers) (k : string) :
  k ∉ ["date"; "last-modified"; "expires"; "cache-control"] →
  mergeHeaders host hs !! k = None.
Proof.
  intros Hk. unfold mergeHeaders.
  assert (k ≠ "date" ∧ k ≠ "last-modified" ∧ k ≠ "expires"
          ∧ k ≠ "cache-control") as (? & ? & ? & ?) by set_solver.
  repeat case_match; simplify_map_eq; done.
Qed.

End Evaluator.

(** *** [notModified] *)

Section NotModified.

Context (host : Host).

Lemma truthy_Some (v : option string) :
  truthy v = true ↔ ∃ e, e ≠ "" ∧ v = Some e.
Proof.
  unfold truthy. destruct v as [s|]; simpl.
  - destruct s as [|c s]; simpl; split.
    + discriminate.
    + intros (e & Hne & [= <-]). done.
    + intros _. eexists; split; [|done]. discriminate.
    + done.
  - split; [discriminate | intros (e & _ & ?); discriminate].
Qed.

Lemma etagMatches_iff (req resp : Headers) :
  etagMatches req resp = true ↔ etagsEqualNonEmpty req resp.
Proof.
  unfold etagMatches, etagsEqualNonEmpty.
  rewrite andb_true_iff, truthy_Some, bool_decide_eq_true. split.
  - intros ((e & Hne & He) & Heq). exists e. rewrite <- Heq. auto.
  - intros (e & Hne & Hq & Hs). split; [eauto | congruence].
Qed.

Lemma notModifiedSince_iff (req resp : Headers) :
  dateOf host resp "last-modified" ≠ Some 0 →
  notModifiedSince host req resp = true ↔ lastModifiedNotAfter host req resp.
Proof.
  intros Hepoch. unfold notModifiedSince, lastModifiedNotAfter.
  destruct (dateOf host resp "last-modified") as [lm|]; cycle 1.
  { split; [discriminate | intros (? & ? & ? & _); discriminate]. }
  assert (lm ≠ 0) as Hlm by congruence.
  rewrite andb_true_iff, negb_true_iff, Z.eqb_neq.
  destruct (dateOf host req "if-modified-since") as [ms|].
  - rewrite Z.leb_le. split.
    + intros [_ Hle]. eauto.
    + intros (lm' & ms' & [= <-] & [= <-] & Hle). auto.
  - split; [intros [_ ?]; discriminate | intros (? & ? & _ & ? & _); discriminate].
Qed.

End NotModified.

(** C5 (as stated it fails). A request and a response that both carry the
    empty [etag] have equal values, yet [notModified] does not hold: the
    guard [requestHeaders.etag &&] rejects an empty request value. *)
Lemma notModified_empty_etag_counterexample :
  ¬ (∀ (host : Host) (req resp : Headers),
       notModified host req resp = true ↔ notModified_as_stated host req resp).
Proof.
  intros H.
  destruct (H (hostOf emptyBackend) {["etag" := ""]} {["etag" := ""]})
    as [_ Hback].
  assert (notModified (hostOf emptyBackend) {["etag" := ""]} {["etag" := ""]}
          = true) as Hnm.
  { apply Hback. left. exists "". split; apply lookup_singleton_eq. }
  vm_compute in Hnm. discriminate Hnm.
Qed.

(** C5 (amended). Whenever the [last-modified] of the response is not the
    date whose timestamp is zero, [notModified] holds exactly when the
    request carries a non-empty [etag] equal to that of the response, or the
    [last-modified] of the response and the [if-modified-since] of the
    request both parse and the first is not later than the second. *)
Theorem notModified_iff (host : Host) (req resp : Headers) :
  dateOf host resp "last-modified" ≠ Some 0 →
  notModified host req resp = true
  ↔ etagsEqualNonEmpty req resp ∨ lastModifiedNotAfter host req resp.
Proof.
  intros Hepoch. unfold notModified.
  rewrite orb_true_iff, etagMatches_iff, notModifiedSince_iff by done. done.
Qed.

Lemma notModified_iff_witness :
  dateOf (hostOf emptyBackend) {["last-modified" := date1994]} "last-modified"
    ≠ Some 0
  ∧ (notModified (hostOf emptyBackend)
       {["if-modified-since" := date2023]} {["last-modified" := date1994]}
     = true
     ↔ etagsEqualNonEmpty
         {["if-modified-since" := date2023]} {["last-modified" := date1994]}
       ∨ lastModifiedNotAfter (hostOf emptyBackend)
           {["if-modified-since" := date2023]} {["last-modified" := date1994]}).
Proof.
  split; [vm_compute; discriminate |].
  apply (notModified_iff (hostOf emptyBackend)). vm_compute. discriminate.
Defined.

(** The behaviour that the amended statement leaves out: a response last
    modified at timestamp zero is reported as modified. *)
Example notModified_at_epoch :
  notModified (hostOf emptyBackend)
    {["if-modified-since" := date2023]} {["last-modified" := date1970]}
  = false.
Proof. vm_compute. reflexivity. Qed.

Example notModified_after_epoch :
  notModified (hostOf emptyBackend)
    {["if-modified-since" := date2023]} {["last-modified" := date1994]}
  = true.
Proof. vm_compute. reflexivity. Qed.

(** *** [mergeHeaders] *)

Lemma Math_max_attained (values : list Z) :
  values ≠ [] →
  ∃ v, Math_max values = Finite v ∧ v ∈ values ∧ ∀ w, w ∈ values → w <= v.
Proof.
  induction values as [|x rest IH]; [done|]. intros _. simpl.
  destruct rest as [|y rest'].
  - exists x. simpl. split; [done|]. split; [by left|].
    intros w [->|Hw]%elem_of_cons; [lia | by apply elem_of_nil in Hw].
  - destruct IH as (v & -> & Hin & Hub); [done|].
    exists (Z.max x v). split; [done|]. split.
    + destruct (Z.max_spec x v) as [[_ ->]|[_ ->]]; [by right | by left].
    + intros w [->|Hw]%elem_of_cons; [lia|]. specialize (Hub w Hw). lia.
Qed.

Lemma Math_min_attained (values : list Z) :
  values ≠ [] →
  ∃ v, Math_min values = Finite v ∧ v ∈ values ∧ ∀ w, w ∈ values → v <= w.
Proof.
  induction values as [|x rest IH]; [done|]. intros _. simpl.
  destruct rest as [|y rest'].
  - exists x. simpl. split; [done|]. split; [by left|].
    intros w [->|Hw]%elem_of_cons; [lia | by apply elem_of_nil in Hw].
  - destruct IH as (v & -> & Hin & Hlb); [done|].
    exists (Z.min x v). split; [done|]. split.
    + destruct (Z.min_spec x v) as [[_ ->]|[_ ->]]; [by left | by right].
    + intros w [->|Hw]%elem_of_cons; [lia|]. specialize (Hlb w Hw). lia.
Qed.

Lemma everyNumber_Some (parse : Headers -> option Z) (hs : list Headers)
    (values : list Z) :
  everyNumber (parse <$> hs) = Some values ↔
  Forall2 (fun h v => parse h = Some v) hs values.
Proof.
  unfold everyNumber. rewrite mapM_Some, Forall2_fmap_l. done.
Qed.

Lemma everyNumber_None (parse : Headers -> option Z) (hs : list Headers) :
  everyNumber (parse <$> hs) = None ↔ Exists (fun h => parse h = None) hs.
Proof.
  unfold everyNumber. rewrite mapM_None, Exists_fmap. done.
Qed.

(** One header of the merge, for a selection [pick] of the values that
    attains a [prefer]red one. *)
Lemma merged_header (parse : Headers -> option Z) (prefer : Z -> Z -> Prop)
    (pick : list Z -> Num) (print : Z -> string) (render : Num -> string)
    (hs : list Headers) :
  (∀ values, values ≠ [] →
     ∃ v, pick values = Finite v ∧ v ∈ values
          ∧ ∀ w, w ∈ values → prefer v w) →
  (∀ v, render (Finite v) = print v) →
  hs ≠ [] →
  mergedAs parse prefer print hs
    ((fun values => render (pick values)) <$> everyNumber (parse <$> hs)).
Proof.
  intros Hpick Hrender Hne.
  destruct (everyNumber (parse <$> hs)) as [values|] eqn:E.
  - left. apply everyNumber_Some in E.
    assert (values ≠ []) as Hvne.
    { intros ->. apply Forall2_nil_inv_r in E. done. }
    destruct (Hpick values Hvne) as (v & Hv & Hin & Hpref).
    split.
    { apply Forall_forall. intros h Hh.
      apply list_elem_of_lookup_1 in Hh as [i Hi].
      destruct (Forall2_lookup_l _ _ _ _ _ E Hi) as (w & _ & Hw). eauto. }
    exists v. simpl. rewrite Hv, Hrender. split; [done|]. split.
    + apply list_elem_of_lookup_1 in Hin as [i Hi].
      destruct (Forall2_lookup_r _ _ _ _ _ E Hi) as (h & Hh & Hp).
      exists h. split; [by eapply list_elem_of_lookup_2 | done].
    + intros h w Hh Hw. apply Hpref.
      apply list_elem_of_lookup_1 in Hh as [i Hi].
      destruct (Forall2_lookup_l _ _ _ _ _ E Hi) as (w' & Hw' & Hp).
      assert (w' = w) as -> by congruence.
      by eapply list_elem_of_lookup_2.
  - right. apply everyNumber_None in E. done.
Qed.

(** *** Decimal numerals *)

Lemma digitsValue_cons (c : ascii) (s : string) :
  Str.digitsValue (String c s)
  = (Z.of_N (N_of_ascii c) - 48) * 10 ^ Z.of_nat (String.length s)
    + Str.digitsValue s.
Proof.
  unfold Str.digitsValue.
  match goal with |- ?f _ _ = _ => set (go := f) end.
  assert (∀ s acc, go acc s = acc * 10 ^ Z.of_nat (String.length s) + go 0 s)
    as Hgo.
  { clear. intros s. induction s as [|d s IH]; intros acc.
    - cbn. lia.
    - cbn [go String.length]. fold go.
      rewrite (IH (10 * acc + _)), (IH (10 * 0 + _)).
      rewrite Nat2Z.inj_succ, Z.pow_succ_r by lia. lia. }
  cbn [go]. fold go. rewrite Hgo. f_equal; lia.
Qed.

Lemma digitsValue_nonneg (s : string) :
  Str.forallb Str.isDigit s = true → 0 <= Str.digitsValue s.
Proof.
  induction s as [|c s IH]; [done|]. cbn [Str.forallb].
  intros [Hc Hs]%andb_true_iff. rewrite digitsValue_cons.
  specialize (IH Hs). unfold Str.isDigit in Hc.
  apply andb_true_iff in Hc as [Hlo%N.leb_le _].
  assert (0 <= 10 ^ Z.of_nat (String.length s)) by lia. nia.
Qed.

Lemma pretty_N_char_digit (k : N) :
  (k < 10)%N →
  Str.isDigit (pretty_N_char k) = true
  ∧ Z.of_N (N_of_ascii (pretty_N_char k)) - 48 = Z.of_N k.
Proof.
  intros Hk.
  assert (k = 0 ∨ k = 1 ∨ k = 2 ∨ k = 3 ∨ k = 4 ∨ k = 5 ∨ k = 6 ∨ k = 7
          ∨ k = 8 ∨ k = 9)%N as Hcases by lia.
  repeat (destruct Hcases as [->|Hcases]; [by vm_compute|]).
  subst k. by vm_compute.
Qed.

Lemma digit_pretty_N_char (c : ascii) :
  Str.isDigit c = true →
  ∃ k, (k < 10)%N ∧ c = pretty_N_char k ∧ Z.of_N (N_of_ascii c) - 48 = Z.of_N k.
Proof.
  unfold Str.isDigit. intros [Hlo%N.leb_le Hhi%N.leb_le]%andb_true_iff.
  exists (N_of_ascii c - 48)%N. split; [lia|]. split; [|lia].
  rewrite <- (ascii_N_embedding c) at 1.
  assert (N_of_ascii c = 48 ∨ N_of_ascii c = 49 ∨ N_of_ascii c = 50
          ∨ N_of_ascii c = 51 ∨ N_of_ascii c = 52 ∨ N_of_ascii c = 53
          ∨ N_of_ascii c = 54 ∨ N_of_ascii c = 55 ∨ N_of_ascii c = 56
          ∨ N_of_ascii c = 57)%N as Hcases by lia.
  repeat (destruct Hcases as [->|Hcases]; [by vm_compute|]).
  rewrite Hcases. by vm_compute.
Qed.

Lemma pretty_N_go_app (x : N) (s : string) :
  pretty_N_go x s = pretty_N_go x "" +:+ s.
Proof.
  revert s. induction (N.lt_wf_0 x) as [x _ IH]; intros s.
  assert (x = 0 ∨ 0 < x)%N as [->|Hx] by lia.
  - by rewrite !pretty_N_go_0.
  - assert (x `div` 10 < x)%N as Hlt by (by apply N.div_lt).
    rewrite (pretty_N_go_step x s), (pretty_N_go_step x "") by done.
    rewrite (IH _ Hlt (String _ s)), (IH _ Hlt (String _ "")).
    by rewrite string_app_assoc.
Qed.

(** The numeral of a number of one digit, and of a longer one. *)
Lemma pretty_N_digit (k : N) :
  (k < 10)%N → pretty k = String (pretty_N_char k) "".
Proof.
  intros Hk. unfold pretty, pretty_N. destruct (decide (k = 0)%N) as [->|Hne].
  - reflexivity.
  - rewrite pretty_N_go_step by lia.
    rewrite N.div_small, N.mod_small by done. apply pretty_N_go_0.
Qed.

Lemma pretty_N_snoc (a k : N) :
  (0 < a)%N → (k < 10)%N →
  pretty (10 * a + k)%N = pretty a +:+ String (pretty_N_char k) "".
Proof.
  intros Ha Hk. unfold pretty, pretty_N.
  destruct (decide (10 * a + k = 0)%N) as [|_]; [lia|].
  destruct (decide (a = 0)%N) as [|_]; [lia|].
  rewrite pretty_N_go_step by lia.
  replace ((10 * a + k) `div` 10)%N with a
    by (apply (N.div_unique _ 10 a k); lia).
  replace ((10 * a + k) `mod` 10)%N with k
    by (apply (N.mod_unique _ 10 a k); lia).
  apply pretty_N_go_app.
Qed.

Lemma pretty_Z_N (z : Z) : 0 <= z → pretty z = pretty (Z.to_N z).
Proof. destruct z; [done|done|lia]. Qed.

Lemma pretty_Z_digit (k : N) :
  (k < 10)%N → pretty (Z.of_N k) = String (pretty_N_char k) "".
Proof.
  intros Hk. rewrite pretty_Z_N, N2Z.id by lia. by apply pretty_N_digit.
Qed.

Lemma pretty_Z_snoc (a : Z) (k : N) :
  0 < a → (k < 10)%N →
  pretty (10 * a + Z.of_N k) = pretty a +:+ String (pretty_N_char k) "".
Proof.
  intros Ha Hk. rewrite !pretty_Z_N by lia.
  replace (Z.to_N (10 * a + Z.of_N k)) with (10 * Z.to_N a + k)%N by lia.
  apply pretty_N_snoc; lia.
Qed.

Lemma string_app_nil_r (s : string) : s +:+ "" = s.
Proof.
  induction s as [|c s IH]; [done|].
  change (String c (s +:+ "") = String c s). by rewrite IH.
Qed.

(** What follows the numeral of a positive number is read as more digits of
    it. *)
Lemma pretty_digits (d : string) (a : Z) :
  Str.forallb Str.isDigit d = true →
  0 < a →
  pretty (a * 10 ^ Z.of_nat (String.length d) + Str.digitsValue d)
  = pretty a +:+ d.
Proof.
  revert a. induction d as [|c d IH]; intros a Hd Ha.
  - change (Str.digitsValue "") with 0.
    change (Z.of_nat (String.length "")) with 0.
    by rewrite Z.pow_0_r, Z.mul_1_r, Z.add_0_r, string_app_nil_r.
  - cbn [Str.forallb] in Hd. apply andb_true_iff in Hd as [Hc Hd].
    destruct (digit_pretty_N_char c Hc) as (k & Hk & -> & Hval).
    rewrite digitsValue_cons, Hval. cbn [String.length].
    rewrite Nat2Z.inj_succ, Z.pow_succ_r by lia.
    replace (a * (10 * 10 ^ Z.of_nat (String.length d))
             + (Z.of_N k * 10 ^ Z.of_nat (String.length d) + Str.digitsValue d))
      with ((10 * a + Z.of_N k) * 10 ^ Z.of_nat (String.length d)
            + Str.digitsValue d) by lia.
    rewrite IH by (done || lia). rewrite pretty_Z_snoc by done.
    by rewrite string_app_assoc.
Qed.

(** A numeral without a leading zero is the numeral of its value. *)
Lemma pretty_digitsValue (c : ascii) (d : string) :
  Str.forallb Str.isDigit (String c d) = true →
  c ≠ "0"%char →
  pretty (Str.digitsValue (String c d)) = String c d.
Proof.
  intros Hd Hc. pose proof Hd as Hd'.
  cbn [Str.forallb] in Hd. apply andb_true_iff in Hd as [Hdc Hd].
  destruct (digit_pretty_N_char c Hdc) as (k & Hk & -> & Hval).
  rewrite digitsValue_cons, Hval.
  assert (k ≠ 0%N) by (by intros ->).
  rewrite pretty_digits by (done || lia). by rewrite pretty_Z_digit.
Qed.

Lemma digitsValue_app (a b : string) :
  Str.digitsValue (a +:+ b)
  = Str.digitsValue a * 10 ^ Z.of_nat (String.length b) + Str.digitsValue b.
Proof.
  induction a as [|c a IH]; [done|].
  change (String c a +:+ b) with (String c (a +:+ b)).
  rewrite !digitsValue_cons, IH, string_length_app.
  rewrite Nat2Z.inj_add, Z.pow_add_r by lia. lia.
Qed.

(** The numeral of a number: digits, at least one, that give the number
    back. *)
Lemma pretty_Z_numeral (n : Z) :
  0 <= n →
  Str.forallb Str.isDigit (pretty n) = true
  ∧ pretty n ≠ ""
  ∧ Str.digitsValue (pretty n) = n.
Proof.
  induction (Z.lt_wf 0 n) as [n _ IH]. intros Hn.
  destruct (decide (n < 10)) as [Hsmall|Hbig].
  - destruct (pretty_N_char_digit (Z.to_N n)) as [Hdigit Hval]; [lia|].
    replace n with (Z.of_N (Z.to_N n)) at 1 2 3 by lia.
    rewrite pretty_Z_digit by lia. cbn [Str.forallb].
    rewrite Hdigit, digitsValue_cons. split; [done|]. split; [done|].
    rewrite Hval. change (Str.digitsValue "") with 0.
    change (Z.of_nat (String.length "")) with 0. lia.
  - destruct (IH (n `div` 10)) as (Hdigits & _ & Hvalue);
      [Z.div_mod_to_equations; lia..|].
    destruct (pretty_N_char_digit (Z.to_N (n `mod` 10))) as [Hdigit Hval];
      [Z.div_mod_to_equations; lia|].
    assert (pretty n
            = pretty (n `div` 10)
              +:+ String (pretty_N_char (Z.to_N (n `mod` 10))) "") as ->.
    { rewrite <- pretty_Z_snoc by (Z.div_mod_to_equations; lia).
      f_equal. Z.div_mod_to_equations; lia. }
    rewrite Str_forallb_app, digitsValue_app, Hdigits, Hvalue.
    cbn [Str.forallb]. rewrite Hdigit, digitsValue_cons, Hval.
    split; [done|]. split; [by destruct (pretty (n `div` 10))|].
    change (Str.digitsValue "") with 0.
    change (Z.of_nat (String.length (String _ ""))) with 1.
    change (Z.of_nat (String.length "")) with 0.
    Z.div_mod_to_equations; lia.
Qed.

(** *** The number that [mergeHeaders] reads in a [cache-control] *)

Lemma takeDigits_app (d rest : string) :
  Str.forallb Str.isDigit d = true →
  startsWithDigit rest = false →
  Str.takeDigits (d +:+ rest) = d.
Proof.
  intros Hd Hrest. induction d as [|c d IH].
  - change ("" +:+ rest) with rest. destruct rest as [|c rest]; [done|].
    cbn [startsWithDigit] in Hrest. cbn [Str.takeDigits]. by rewrite Hrest.
  - cbn [Str.forallb] in Hd. apply andb_true_iff in Hd as [Hc Hd].
    change (String c d +:+ rest) with (String c (d +:+ rest)).
    cbn [Str.takeDigits]. by rewrite Hc, IH.
Qed.

Lemma takeDigits_split (s : string) :
  Str.forallb Str.isDigit (Str.takeDigits s) = true
  ∧ ∃ rest, s = Str.takeDigits s +:+ rest ∧ startsWithDigit rest = false.
Proof.
  induction s as [|c s (IHd & rest & IHs & IHrest)].
  - split; [done|]. by exists "".
  - cbn [Str.takeDigits]. destruct (Str.isDigit c) eqn:Hc.
    + cbn [Str.forallb]. rewrite Hc, IHd. split; [done|].
      exists rest. split; [|done].
      change (String c (Str.takeDigits s) +:+ rest)
        with (String c (Str.takeDigits s +:+ rest)).
      by rewrite <- IHs.
    + split; [done|]. exists (String c s). by split.
Qed.

Lemma zeros_digits (zeros : string) :
  Str.forallb (Ascii.eqb "0") zeros = true →
  Str.forallb Str.isDigit zeros = true ∧ Str.digitsValue zeros = 0.
Proof.
  induction zeros as [|c zeros IH]; [done|]. cbn [Str.forallb].
  intros [<-%Ascii.eqb_eq Hzeros]%andb_true_iff.
  destruct (IH Hzeros) as [-> Hvalue].
  rewrite digitsValue_cons, Hvalue. split; [done|].
  change (Z.of_N (N_of_ascii "0") - 48) with 0. lia.
Qed.

(** Digits are the numeral of their value after zeros. *)
Lemma digits_numeral (d : string) :
  Str.forallb Str.isDigit d = true →
  d ≠ "" →
  ∃ zeros, d = zeros +:+ pretty (Str.digitsValue d)
           ∧ Str.forallb (Ascii.eqb "0") zeros = true.
Proof.
  induction d as [|c d IH]; [done|]. intros Hd _.
  destruct (decide (c = "0"%char)) as [->|Hc].
  - destruct d as [|c' d'].
    + by exists "".
    + cbn [Str.forallb] in Hd. apply andb_true_iff in Hd as [_ Hd].
      destruct (IH Hd) as (zeros & Heq & Hzeros); [done|].
      exists (String "0" zeros). split.
      * rewrite digitsValue_cons.
        change (Z.of_N (N_of_ascii "0") - 48) with 0.
        rewrite Z.mul_0_l, Z.add_0_l.
        change (String "0" zeros +:+ ?x) with (String "0" (zeros +:+ x)).
        by rewrite <- Heq.
      * cbn [Str.forallb]. by rewrite Hzeros.
  - exists "". split; [|done]. by rewrite pretty_digitsValue.
Qed.

Lemma startsWith_drop (p s : string) :
  Str.startsWith p s = true → s = p +:+ Str.drop (String.length p) s.
Proof.
  intros [rest ->]%startsWith_spec. by rewrite Str_drop_app.
Qed.

Lemma maxAgeOf_Some (h : Headers) (n : Z) :
  maxAgeOf h = Some n ↔ leadingMaxAge h n.
Proof.
  unfold maxAgeOf, leadingMaxAge, beginsWithMaxAge. cbv zeta. split.
  - destruct (h !! "cache-control") as [v|]; [|by cbn]. cbn [default].
    change (id v) with v.
    destruct (Str.startsWith "max-age=" v) eqn:Hstart; [|by cbn].
    apply startsWith_drop in Hstart.
    change (String.length "max-age=") with 8%nat in Hstart.
    destruct (takeDigits_split (Str.drop 8 v)) as (Hdigits & rest & Hv & Hrest).
    destruct (Str.takeDigits (Str.drop 8 v)) as [|c d] eqn:Htake;
      [by cbn [Str.isEmpty]|].
    cbn [Str.isEmpty]. intros [= <-].
    destruct (digits_numeral (String c d) Hdigits) as (zeros & Heq & Hzeros);
      [done|].
    exists v. split; [done|]. split; [by apply digitsValue_nonneg|].
    exists zeros, rest. split; [|done].
    by rewrite <- (string_app_assoc zeros), <- Heq, <- Hv.
  - intros (v & -> & Hn & zeros & rest & -> & Hzeros & Hrest). cbn [default].
    change (id ?x) with x.
    destruct (pretty_Z_numeral n Hn) as (Hdigits & Hne & Hvalue).
    destruct (zeros_digits zeros Hzeros) as [Hzd Hzv].
    rewrite startsWith_app.
    change 8%nat with (String.length "max-age="). rewrite Str_drop_app.
    rewrite <- (string_app_assoc zeros).
    rewrite takeDigits_app by (by rewrite ?Str_forallb_app, ?Hzd, ?Hdigits).
    rewrite digitsValue_app, Hzv, Hvalue.
    destruct (zeros +:+ pretty n) eqn:Hempty.
    + apply (f_equal String.length) in Hempty.
      rewrite string_length_app in Hempty.
      destruct (pretty n); [done|]. cbn in Hempty. lia.
    + cbn [Str.isEmpty]. f_equal; lia.
Qed.

Lemma maxAgeOf_None (h : Headers) :
  maxAgeOf h = None ↔ ∀ n, ¬ leadingMaxAge h n.
Proof.
  split.
  - intros Hnone n Hn%maxAgeOf_Some. congruence.
  - intros Hno. destruct (maxAgeOf h) as [n|] eqn:E; [|done].
    by apply maxAgeOf_Some, Hno in E.
Qed.

Lemma merged_max_age (host : Host) (hs : list Headers) :
  hs ≠ [] → mergedMaxAge hs (mergeHeaders host hs !! "cache-control").
Proof.
  intros Hne. rewrite mergeHeaders_cache_control.
  destruct (everyNumber (maxAgeOf <$> hs)) as [values|] eqn:E.
  - left. apply everyNumber_Some in E. exists values. split.
    { eapply Forall2_impl; [exact E|]. intros h n. apply maxAgeOf_Some. }
    split; [done|]. intros _.
    destruct (Math_min_attained values) as (v & Hv & Hin & Hleast).
    { intros ->. by apply Forall2_nil_inv_r in E. }
    exists v. cbn [fmap option_fmap option_map]. rewrite Hv. done.
  - right. apply everyNumber_None in E. split; [|done].
    eapply Exists_impl; [exact E|]. intros h. apply maxAgeOf_None.
Qed.


Example maxAgeDirective_not_leading :
  headersC !! "cache-control" ≫= maxAgeDirective = Some 60
  ∧ maxAgeOf headersC = None.
Proof. vm_compute. split; reflexivity. Qed.



(** The two sets of the example begin with [max-age=3600] and
    [max-age=60]; the third begins with another directive. *)
Example leadingMaxAge_headers :
  leadingMaxAge headersA 3600
  ∧ leadingMaxAge headersB 60
  ∧ ∀ n, ¬ leadingMaxAge headersC n.
Proof.
  split; [|split].
  - exists "max-age=3600". split; [reflexivity|]. split; [lia|].
    by exists "", "".
  - exists "max-age=60, public". split; [reflexivity|]. split; [lia|].
    by exists "", ", public".
  - intros n (v & Hv & _ & zeros & rest & Heq & _).
    vm_compute in Hv. injection Hv as <-. discriminate Heq.
Qed.

Example maxAgeOf_leading : maxAgeOf headersB = Some 60.
Proof. vm_compute. reflexivity. Qed.

(** A [max-age] that is not the first directive is not read. *)
Example maxAgeOf_not_leading : maxAgeOf headersC = None.
Proof. vm_compute. reflexivity. Qed.

Example mergeHeaders_partial :
  mergeHeaders (hostOf emptyBackend) [headersA; headersC]
  = {[ "date" := date2023 ]}.
Proof. vm_compute. reflexivity. Qed.

Lemma not_in_mergedKeys (k : string) :
  k = "etag" ∨ k = "content-type" → k ∉ mergedKeys.
Proof.
  unfold mergedKeys. rewrite !elem_of_cons, elem_of_nil.
  intros [-> | ->] H; repeat (destruct H as [H|H]; [discriminate H|]); exact H.
Qed.

Lemma mergeHeaders_etag (host : Host) (hs : list Headers) :
  mergeHeaders host hs !! "etag" = None.
Proof. apply mergeHeaders_other, not_in_mergedKeys. by left. Qed.

Lemma notModified_merged (host : Host) (req : Headers) (hs : list Headers) :
  notModified host req (mergeHeaders host hs)
  = notModifiedSince host req (mergeHeaders host hs).
Proof.
  unfold notModified.
  by rewrite etagMatches_absent by apply mergeHeaders_etag.
Qed.

(** A bundle response is a 304 only on a 304 aggregate status or on the
    comparison of [last-modified] with [if-modified-since]. *)
Lemma respondBundle_304 (host : Host) (req : Headers) (status : option Z)
    (headers h : Headers) (content b : option string) :
  respondBundle host req status headers content = Responded 304 h b →
  status = Some 304 ∨ notModifiedSince host req headers = true.
Proof.
  unfold respondBundle. rewrite notModified_bundleHeaders.
  destruct (bool_decide (status = Some 304)) eqn:Hs; simpl.
  - intros _. left. by apply bool_decide_eq_true in Hs.
  - destruct (notModifiedSince host req headers); [by right | discriminate].
Qed.



(** ** The bundle packager *)

Lemma imap_keys (g : nat -> string -> Body) (l : list string) :
  (imap (fun i m => (m, g i m)) l).*1 = l.
Proof.
  revert g. induction l as [|m l IH]; intros g; [done|].
  simpl. f_equal. apply (IH (fun i => g (S i))).
Qed.

Lemma moduleEntries_keys (modulePaths : list string) (f : Fetched) :
  (moduleEntries modulePaths f).*1 = modulePaths.
Proof. apply imap_keys. Qed.

Lemma moduleEntries_lookup (modulePaths : list string) (f : Fetched)
    (i : nat) (m : string) :
  modulePaths !! i = Some m →
  moduleEntries modulePaths f !! i
  = Some (m, if bool_decide (statuss f !! i = Some 200)
             then default BodyUndefined (contents f !! i)
             else BodyNull).
Proof.
  intros Hm. unfold moduleEntries. rewrite list_lookup_imap, Hm. done.
Qed.

Lemma defineProperty_fresh (k : string) (v : Body) (o : ModuleMap) :
  k ∉ o.*1 → defineProperty k v o = o ++ [(k, v)].
Proof.
  induction o as [|[k' v'] o IH]; [done|]. simpl.
  intros Hk. apply not_elem_of_cons in Hk as [Hne Hk].
  rewrite decide_False by done. by rewrite IH.
Qed.

Lemma Object_fromEntries_fresh (entries acc : ModuleMap) :
  NoDup (acc.*1 ++ entries.*1) →
  foldl (fun o e => defineProperty e.1 e.2 o) acc entries = acc ++ entries.
Proof.
  revert acc. induction entries as [|[k v] entries IH]; intros acc Hnd; simpl.
  - by rewrite app_nil_r.
  - simpl in Hnd. rewrite defineProperty_fresh; cycle 1.
    { apply NoDup_app in Hnd as (_ & Hdis & _). intros Hk.
      apply (Hdis k Hk). by left. }
    rewrite IH; [by rewrite <- app_assoc|].
    rewrite fmap_app. simpl. rewrite <- app_assoc. done.
Qed.

Lemma Object_fromEntries_NoDup (entries : ModuleMap) :
  NoDup entries.*1 → Object_fromEntries entries = entries.
Proof.
  intros Hnd. unfold Object_fromEntries.
  by rewrite Object_fromEntries_fresh.
Qed.

Lemma Object_entries_no_index (o : ModuleMap) :
  Forall (fun k => arrayIndexOf k = None) o.*1 → Object_entries o = o.
Proof.
  intros Hno. unfold Object_entries, indexProperties.
  assert (omap (fun e : string * Body =>
                  (fun i => (i, e)) <$> arrayIndexOf e.1) o = []) as ->.
  { induction o as [|[k v] o IH]; [done|]. simpl in *.
    apply Forall_cons in Hno as [Hk Hno]. rewrite Hk. simpl. auto. }
  simpl. induction o as [|[k v] o IH]; [done|]. simpl in *.
  apply Forall_cons in Hno as [Hk Hno].
  rewrite filter_cons_True by done. f_equal. auto.
Qed.


Example packagedDefine_index_first :
  (Object_entries (Object_fromEntries (moduleEntries indexMembers indexFetched))).*1
  = ["1"; "b"].
Proof. vm_compute. reflexivity. Qed.



(** The payload of the three members, the second of which is not found. *)
Example packagedDefine_three_members :
  packagedDefine "cb" (Object_fromEntries (moduleEntries threeMembers threeFetched))
  = "cb({"
    +:+ Str.DQ +:+ "m/1.js" +:+ Str.DQ +:+ ": {" +:+ Str.DQ
    +:+ "(module m/1.js)" +:+ Str.DQ
    +:+ ": function (require, exports, module) {one()}}[" +:+ Str.DQ
    +:+ "(module m/1.js)" +:+ Str.DQ +:+ "]," +:+ Str.LF
    +:+ Str.DQ +:+ "m/2.js" +:+ Str.DQ +:+ ": null," +:+ Str.LF
    +:+ Str.DQ +:+ "m/3.js" +:+ Str.DQ +:+ ": {" +:+ Str.DQ
    +:+ "(module m/3.js)" +:+ Str.DQ
    +:+ ": function (require, exports, module) {three()}}[" +:+ Str.DQ
    +:+ "(module m/3.js)" +:+ Str.DQ +:+ "]," +:+ Str.LF
    +:+ "});" +:+ Str.LF.
Proof. vm_compute. reflexivity. Qed.

(** The content of a bundle response is the payload packaged from the
    members and the GET fan-out. *)
Lemma fetchBundle_content (host : Host) (server : ServerState)
    (request : Request) (req : Headers) (cb modulePath : string)
    (modulePaths : list string) (st : Z) (h : Headers) (content : string)
    (calls : list FetchCall) :
  memberPaths (bundleMembers server modulePath) = Some modulePaths →
  fetchBundle host server request req cb modulePath
  = (Responded st h (Some content), calls) →
  method request = "GET"
  ∧ calls = [headCall server req modulePaths; getCall server req modulePaths]
  ∧ content
    = packagedDefine cb
        (Object_fromEntries
           (moduleEntries modulePaths
              (fetch host (getCall server req modulePaths)))).
Proof.
  intros Hmembers. unfold fetchBundle. rewrite Hmembers.
  assert (∀ status headers c st h content,
            respondBundle host req status headers c
            = Responded st h (Some content) → c = Some content) as Hbody.
  { intros status headers c st' h' content'. unfold respondBundle.
    destruct c as [c|]; [|discriminate].
    destruct (Str.isEmpty c); [discriminate|]. by intros [= _ _ ->]. }
  destruct (reduceStatus _) as [status|]; [|discriminate].
  destruct (_ || _).
  { intros [Hresp _]%pair_equal_spec. by apply Hbody in Hresp. }
  destruct (_ && _).
  { intros [Hresp _]%pair_equal_spec. by apply Hbody in Hresp. }
  destruct (reduceStatus _) as [status'|]; [|discriminate].
  destruct (String.eqb (method request) "HEAD").
  { intros [Hresp _]%pair_equal_spec. by apply Hbody in Hresp. }
  destruct (String.eqb (method request) "GET") eqn:Hget; [|discriminate].
  intros [Hresp <-]%pair_equal_spec. apply Hbody in Hresp.
  injection Hresp as <-. by apply String.eqb_eq in Hget.
Qed.

(** The three members through the handler: the second one, not found, is
    in the payload as [null]. *)
Example handle_three_members :
  ∃ h, handle (hostOf threeBackend)
         (Platform.defaultServer (Some threeAssociator)) threeRequest
       = (Responded 200 h
            (Some (packagedDefine "cb"
                     [("m/1.js", BodyText "one()"); ("m/2.js", BodyNull);
                      ("m/3.js", BodyText "three()")])),
          [headCall (Platform.defaultServer (Some threeAssociator))
             (requestHeadersOf threeRequest) threeMembers;
           getCall (Platform.defaultServer (Some threeAssociator))
             (requestHeadersOf threeRequest) threeMembers]).
Proof. eexists. vm_compute. reflexivity. Qed.

(** ** The response dispatcher *)

Lemma foldl_reduceStep_None (rest : list Z) : foldl reduceStep None rest = None.
Proof. induction rest as [|s rest IH]; [done|]. exact IH. Qed.

Lemma foldl_reduceStep_Some (rest : list Z) (a m : Z) :
  foldl reduceStep (Some a) rest = Some m → m = a ∧ Forall (eq a) rest.
Proof.
  revert a. induction rest as [|s rest IH]; intros a; simpl.
  - intros [= <-]. split; [done | constructor].
  - destruct (negb (a =? 0) && (a =? s)) eqn:E.
    + apply andb_true_iff in E as [_ Heq%Z.eqb_eq]. subst s.
      intros [-> Hall]%IH. split; [done | by constructor].
    + rewrite foldl_reduceStep_None. discriminate.
Qed.

(** The aggregate of statuses that are not all equal is [undefined]. *)
Lemma reduceStatus_disagree (statuss : list Z) :
  statusesDisagree statuss → reduceStatus statuss = Some None.
Proof.
  intros (i & j & s & t & Hi & Hj & Hne).
  destruct statuss as [|s0 rest]; [done|]. simpl. f_equal.
  destruct (foldl reduceStep (Some s0) rest) as [m|] eqn:E; [|done].
  exfalso. apply foldl_reduceStep_Some in E as [-> Hall].
  assert (Forall (eq s0) (s0 :: rest)) as Hall' by (by constructor).
  rewrite Forall_lookup in Hall'.
  apply Hne. by rewrite <- (Hall' _ _ Hi), <- (Hall' _ _ Hj).
Qed.

(** A bundle response is a 304 or a 200. *)
Lemma respondBundle_status (host : Host) (req : Headers) (status : option Z)
    (headers : Headers) (content : option string) :
  ∃ st body, respondBundle host req status headers content
             = Responded st (bundleHeaders headers) body
             ∧ (st = 304 ∨ st = 200).
Proof.
  unfold respondBundle.
  destruct (bool_decide (status = Some 304) || _); eauto.
Qed.

Lemma fetchBundle_status (host : Host) (server : ServerState)
    (request : Request) (req : Headers) (cb modulePath : string)
    (st : Z) (h : Headers) (b : option string) :
  (fetchBundle host server request req cb modulePath).1 = Responded st h b →
  st = 304 ∨ st = 200.
Proof.
  unfold fetchBundle.
  repeat (case_match; simpl; try discriminate);
    match goal with
    | |- respondBundle ?ho ?r ?s ?hd ?c = _ → _ =>
        destruct (respondBundle_status ho r s hd c) as (st' & b' & -> & Hst);
        intros [= <- _ _]; exact Hst
    end.
Qed.

(** C1 (as stated it fails). The two members answer HEAD with 200 and with
    304, so their statuses disagree; both were last modified before the
    [if-modified-since] of the request, so [notModified] holds against the
    merged headers: the response is a 304 and no GET fan-out is made. *)
Lemma status_mismatch_counterexample : ¬ mismatch_forces_get_as_stated.
Proof.
  intros H.
  destruct (H (hostOf mixedBackend) pairServer conditionalGet
              (requestHeadersOf conditionalGet) "cb" "a" ["a"; "b"])
    as [_ Hno304].
  - vm_compute. reflexivity.
  - exists 0%nat, 1%nat, 200, 304. vm_compute. repeat split. discriminate.
  - eapply Hno304. vm_compute. reflexivity.
Qed.

Example status_mismatch_handled :
  ∃ h, handle (hostOf mixedBackend) pairServer conditionalGet
       = (Responded 304 h None,
          [headCall pairServer (requestHeadersOf conditionalGet) ["a"; "b"]]).
Proof. eexists. vm_compute. reflexivity. Qed.

(** C1 (amended). When the statuses of the HEAD fan-out are not all equal,
    the aggregate status is [undefined], hence neither 304 nor 405. The
    response is then a 304, without a GET fan-out, when [notModified] holds
    against the merged headers of the HEAD fan-out; otherwise a HEAD
    request is answered 200 from the HEAD fan-out alone, and any other
    request proceeds to the GET fan-out. *)
Theorem status_mismatch_indeterminate (host : Host) (server : ServerState)
    (request : Request) (requestHeaders : Headers)
    (JSONPCallback modulePath : string) (modulePaths : list string) :
  memberPaths (bundleMembers server modulePath) = Some modulePaths →
  let head := headCall server requestHeaders modulePaths in
  let merged := mergeHeaders host (headerss (fetch host head)) in
  let result :=
    fetchBundle host server request requestHeaders JSONPCallback modulePath in
  statusesDisagree (statuss (fetch host head)) →
  reduceStatus (statuss (fetch host head)) = Some None
  ∧ (notModified host requestHeaders merged = true →
     result = (Responded 304 (bundleHeaders merged) None, [head]))
  ∧ (notModified host requestHeaders merged = false →
     method request = "HEAD" →
     result = (Responded 200 (bundleHeaders merged) None, [head]))
  ∧ (notModified host requestHeaders merged = false →
     method request ≠ "HEAD" →
     result.2 = [head; getCall server requestHeaders modulePaths]).
Proof.
  intros Hmembers head merged result Hdis.
  pose proof (reduceStatus_disagree _ Hdis) as Hred.
  split; [exact Hred|].
  unfold result, fetchBundle. rewrite Hmembers. fold head. rewrite Hred.
  fold merged. simpl.
  split; [|split].
  - intros ->. simpl. unfold respondBundle. simpl. done.
  - intros Hnm ->. rewrite Hnm. simpl. unfold respondBundle.
    rewrite notModified_bundleHeaders.
    unfold notModified in Hnm. apply orb_false_iff in Hnm as [_ ->]. done.
  - intros Hnm Hmeth. rewrite Hnm.
    apply String.eqb_neq in Hmeth. rewrite Hmeth. simpl.
    repeat case_match; done.
Qed.

Lemma status_mismatch_indeterminate_witness :
  let head := headCall pairServer (requestHeadersOf conditionalGet) ["a"; "b"] in
  let merged :=
    mergeHeaders (hostOf mixedBackend)
      (headerss (fetch (hostOf mixedBackend) head)) in
  reduceStatus (statuss (fetch (hostOf mixedBackend) head)) = Some None
  ∧ fetchBundle (hostOf mixedBackend) pairServer conditionalGet
      (requestHeadersOf conditionalGet) "cb" "a"
    = (Responded 304 (bundleHeaders merged) None, [head]).
Proof.
  intros head merged.
  assert (memberPaths (bundleMembers pairServer "a") = Some ["a"; "b"])
    as Hmembers by (vm_compute; reflexivity).
  assert (statusesDisagree (statuss (fetch (hostOf mixedBackend) head)))
    as Hdis.
  { exists 0%nat, 1%nat, 200, 304. vm_compute. repeat split. discriminate. }
  destruct (status_mismatch_indeterminate (hostOf mixedBackend) pairServer
              conditionalGet (requestHeadersOf conditionalGet) "cb" "a"
              ["a"; "b"] Hmembers Hdis) as (Hred & H304 & _).
  split; [exact Hred|]. apply H304. vm_compute. reflexivity.
Defined.

(** ** The redirect *)

(** C8. For a request with a valid [callback] whose path resolves to the
    module path [p] (and whose method is GET or HEAD), [handle] answers 307
    exactly when the preferred path of [p] differs from [p]; the [Location]
    is then the location of the preferred path followed by the query string
    of the request, unchanged. When the preferred path is [p] the answer is
    not a redirect. *)
Theorem redirect_iff_not_preferred (host : Host) (server : ServerState)
    (request : Request) (u : URL) (JSONPCallback modulePath : string) :
  url request = Some u →
  callback u = Some JSONPCallback →
  matchesCallbackExpression JSONPCallback = true →
  method request = "GET" ∨ method request = "HEAD" →
  modulePathOf server (normalizePath host (pathname u))
    = Some (Some modulePath) →
  modulePath ≠ "" →
  let path := normalizePath host (pathname u) in
  let preferred := preferredPathOf server modulePath in
  ((∃ h b, (handle host server request).1 = Responded 307 h b)
   ↔ preferred ≠ modulePath)
  ∧ (preferred ≠ modulePath →
     handle host server request
     = (Responded 307
          {["Content-Type" := "text/plain; charset=utf-8";
            "Location" := canonicalLocation server path preferred +:+ search u]}
          (Some "307: Resource moved temporarily."), [])).
Proof.
  intros Hurl Hcb Hvalid Hmeth Hpath Hne path preferred.
  assert (handle host server request
          = if negb (String.eqb preferred modulePath)
            then (redirect (redirectLocation server path u preferred), [])
            else fetchBundle host server request (requestHeadersOf request)
                   JSONPCallback modulePath) as Hhandle.
  { unfold handle. rewrite Hurl. fold path. unfold path at 1. rewrite Hpath.
    assert (truthy (Some modulePath) = true) as ->.
    { destruct modulePath; [done | reflexivity]. }
    assert (negb (String.eqb (method request) "HEAD")
            && negb (String.eqb (method request) "GET") = false) as ->.
    { destruct Hmeth as [-> | ->]; reflexivity. }
    simpl. rewrite Hcb. unfold bundle, str. simpl.
    assert (Str.isEmpty JSONPCallback = false) as ->.
    { unfold matchesCallbackExpression in Hvalid.
      apply andb_true_iff in Hvalid as [Hv _].
      by apply negb_true_iff in Hv. }
    rewrite Hvalid. reflexivity. }
  split.
  - rewrite Hhandle. split.
    + intros (h & b & Hresp) Heq.
      apply String.eqb_eq in Heq. rewrite Heq in Hresp. simpl in Hresp.
      apply fetchBundle_status in Hresp as [?|?]; discriminate.
    + intros Hdiff%String.eqb_neq. rewrite Hdiff. simpl.
      unfold redirect. eauto.
  - intros Hdiff%String.eqb_neq. rewrite Hhandle, Hdiff. reflexivity.
Qed.

Lemma redirect_iff_not_preferred_witness :
  handle (hostOf emptyBackend) simpleServer aliasRequest
  = (Responded 307
       {["Content-Type" := "text/plain; charset=utf-8";
         "Location" := "a?callback=x&y=1"]}
       (Some "307: Resource moved temporarily."), []).
Proof.
  refine (proj2 (redirect_iff_not_preferred (hostOf emptyBackend) simpleServer
                   aliasRequest
                   {| pathname := "/library/a.js"; search := "?callback=x&y=1";
                      callback := Some "x" |} "x" "a.js" _ _ _ _ _ _) _);
    try (vm_compute; reflexivity); try (vm_compute; discriminate).
  left. reflexivity.
Defined.

(** The preferred path itself is served, not redirected. *)
Example preferred_path_served :
  ∃ h b, (handle (hostOf emptyBackend) simpleServer
            {| url := Some {| pathname := "/library/a";
                              search := "?callback=x&y=1";
                              callback := Some "x" |};
               method := "GET"; headers := ∅; hasNext := false |}).1
         = Responded 200 h b.
Proof. eexists _, _. vm_compute. reflexivity. Qed.

(** The embedding passes the test-suite of the repository. *)
Example test_suite_relative_paths :
  ∀ i c, testCases !! i = Some c → testExpectation i c.
Proof.
  intros i c Hc.
  do 9 (destruct i as [|i];
        [injection Hc as <-; vm_compute; done|]).
  destruct i; discriminate Hc.
Qed.

(** ** The association table *)

(** *** Loops that may throw *)

(** An invariant of the state that may mention the elements met so far. *)
Lemma forOf_inv {A S} (body : S -> A -> Result S) (I : list A -> S -> Prop)
    (l : list A) (s s' : S) :
  I [] s →
  (∀ pre a post t t',
     l = pre ++ a :: post → I pre t → body t a = Ok t' → I (pre ++ [a]) t') →
  forOf body l s = Ok s' →
  I l s'.
Proof.
  intros Hinit Hstep.
  assert (∀ post pre t, l = pre ++ post → I pre t →
                        forOf body post t = Ok s' → I l s') as Hgen.
  { induction post as [|a post IH]; intros pre t Hl Hpre Hrun; simpl in Hrun.
    - injection Hrun as <-. rewrite app_nil_r in Hl. by subst l.
    - destruct (body t a) as [t'|e] eqn:E; [|discriminate].
      simpl in Hrun. apply (IH (pre ++ [a]) t').
      + by rewrite <- app_assoc.
      + by eapply Hstep.
      + exact Hrun. }
  intros Hrun. by apply (Hgen l [] s).
Qed.

(** A loop that returns has run its body on every element. *)
Lemma forOf_Ok_each {A S} (body : S -> A -> Result S) (l : list A) (s s' : S)
    (a : A) :
  forOf body l s = Ok s' → a ∈ l → ∃ t t', body t a = Ok t'.
Proof.
  revert s. induction l as [|x l IH]; intros s Hrun Hin.
  - by apply elem_of_nil in Hin.
  - simpl in Hrun. destruct (body s x) as [t|e] eqn:E; [|discriminate].
    apply elem_of_cons in Hin as [->|Hin]; [eauto|]. by eapply IH.
Qed.

(** What a loop throws, its body threw. *)
Lemma forOf_Throw {A S} (body : S -> A -> Result S) (l : list A) (s : S)
    (e : Error) :
  forOf body l s = Throw e → ∃ a t, a ∈ l ∧ body t a = Throw e.
Proof.
  revert s. induction l as [|x l IH]; intros s Hrun; [discriminate|].
  simpl in Hrun. destruct (body s x) as [t|e'] eqn:E.
  - destruct (IH t Hrun) as (a & t' & Hin & Ha).
    exists a, t'. split; [by right | done].
  - injection Hrun as ->. exists x, s. split; [by left | done].
Qed.

(** *** The map of indirections *)

Lemma indGet_indSet (ind : Indirections) (k k' : string) (v : option string) :
  indGet (indSet k v ind) k'
  = if decide (k' = k) then Some v else indGet ind k'.
Proof.
  induction ind as [|[k0 v0] ind IH]; simpl.
  - done.
  - destruct (decide (k = k0)) as [->|Hne]; simpl.
    + destruct (decide (k' = k0)); done.
    + rewrite IH. destruct (decide (k' = k0)) as [->|]; [|done].
      by rewrite decide_False by done.
Qed.

Lemma indSet_keys (ind : Indirections) (k : string) (v : option string) :
  (indSet k v ind).*1 = if decide (k ∈ ind.*1) then ind.*1 else ind.*1 ++ [k].
Proof.
  induction ind as [|[k0 v0] ind IH].
  - destruct (decide (k ∈ ([] : Indirections).*1)) as [H|];
      [by apply elem_of_nil in H | done].
  - change (indSet k v ((k0, v0) :: ind))
      with (if decide (k = k0) then (k, v) :: ind
            else (k0, v0) :: indSet k v ind).
    rewrite (fmap_cons fst (k0, v0) ind).
    destruct (decide (k = k0)) as [->|Hne].
    + rewrite decide_True by (by left). done.
    + rewrite fmap_cons, IH. simpl fst.
      destruct (decide (k ∈ ind.*1)) as [Hin|Hnin].
      * rewrite decide_True by (by right). done.
      * rewrite decide_False; [done|].
        intros [?|?]%elem_of_cons; done.
Qed.

Lemma indSet_NoDup (ind : Indirections) (k : string) (v : option string) :
  NoDup ind.*1 → NoDup (indSet k v ind).*1.
Proof.
  intros Hnd. rewrite indSet_keys. case_decide as Hin; [done|].
  apply NoDup_app. split; [done|]. split; [|apply NoDup_singleton].
  intros x Hx ->%list_elem_of_singleton. done.
Qed.

Lemma indGet_Some_elem (ind : Indirections) (k : string) (v : option string) :
  indGet ind k = Some v → (k, v) ∈ ind.
Proof.
  induction ind as [|[k0 v0] ind IH]; simpl; [discriminate|].
  destruct (decide (k = k0)) as [->|Hne].
  - intros [= ->]. by left.
  - intros H. right. auto.
Qed.

Lemma indGet_elem_NoDup (ind : Indirections) (k : string) (v : option string) :
  NoDup ind.*1 → (k, v) ∈ ind → indGet ind k = Some v.
Proof.
  induction ind as [|[k0 v0] ind IH]; simpl; intros Hnd Hin.
  - by apply elem_of_nil in Hin.
  - apply NoDup_cons in Hnd as [Hk0 Hnd].
    apply elem_of_cons in Hin as [[= -> ->]|Hin].
    + by rewrite decide_True.
    + rewrite decide_False; [auto|]. intros ->. apply Hk0.
      apply list_elem_of_fmap. by exists (k0, v).
Qed.

Lemma indTarget_Some_keys (ind : Indirections) (k t : string) :
  indTarget ind k = Some t → k ∈ ind.*1.
Proof.
  unfold indTarget. destruct (indGet ind k) as [v|] eqn:E; [|discriminate].
  intros _. apply indGet_Some_elem in E.
  apply list_elem_of_fmap. by exists (k, v).
Qed.

(** *** The first loop *)

Lemma listed_snoc (pre : Mapping) (bundle : string) (modules : list Member) :
  listed (pre ++ [(bundle, modules)])
  = listed pre ++ ((fun module => (bundle, module)) <$> modules).
Proof.
  unfold listed. rewrite bind_app. simpl. by rewrite app_nil_r.
Qed.

Lemma elem_of_listed (mapping : Mapping) (bundle : string) (module : Member) :
  (bundle, module) ∈ listed mapping
  ↔ ∃ modules, (bundle, modules) ∈ mapping ∧ module ∈ modules.
Proof.
  unfold listed. rewrite list_elem_of_bind. split.
  - intros ([b ms] & Hin & Hentry). simpl in Hin.
    apply list_elem_of_fmap in Hin as (m & [= -> ->] & Hm). eauto.
  - intros (ms & Hentry & Hm). exists (bundle, ms). split; [|done].
    simpl. apply list_elem_of_fmap. eauto.
Qed.

Lemma addModule_shape (mapping : Mapping) (bundle : string)
    (m2b m2b' : gmap string string) (ind ind' : Indirections)
    (module : Member) :
  addModule mapping bundle (m2b, ind) module = Ok (m2b', ind') →
  (indGet ind (moduleNameOf module) = None
   ∨ indGet ind (moduleNameOf module) = Some (targetNameOf module))
  ∧ ind' = indSet (moduleNameOf module) (targetNameOf module) ind
  ∧ (m2b' = m2b
     ∨ ∃ path, module = Mod path ∧ m2b' = <[path := bundle]> m2b
               ∧ (hasOwn mapping path = false ∨ path = bundle)).
Proof.
  unfold addModule. intros Hadd.
  assert (indGet ind (moduleNameOf module) = None
          ∨ indGet ind (moduleNameOf module) = Some (targetNameOf module))
    as Hold.
  { destruct (indGet ind (moduleNameOf module)) as [t|]; [|by left].
    right. destruct (decide (t = targetNameOf module)) as [->|]; [done|].
    discriminate Hadd. }
  split; [exact Hold|].
  assert ((match indGet ind (moduleNameOf module) with
           | Some t => if decide (t = targetNameOf module) then Ok ()
                       else Throw (ConflictingDefinition (moduleNameOf module))
           | None => Ok ()
           end) = Ok ()) as Hcheck.
  { destruct Hold as [->| ->]; [done|]. by rewrite decide_True. }
  rewrite Hcheck in Hadd. simpl in Hadd.
  destruct module as [path|alias target]; simpl in *.
  - destruct (negb (hasOwn mapping path) || bool_decide (path = bundle))
      eqn:Hcond; injection Hadd as <- <-; (split; [done|]).
    + right. exists path. split; [done|]. split; [done|].
      apply orb_true_iff in Hcond as [Hc|Hc].
      * left. by apply negb_true_iff in Hc.
      * right. by apply bool_decide_eq_true in Hc.
    + by left.
  - injection Hadd as <- <-. split; [done | by left].
Qed.

Lemma addModule_inv (mapping : Mapping) (bundle : string)
    (met : list (string * Member)) (m2b m2b' : gmap string string)
    (ind ind' : Indirections) (module : Member) :
  FirstLoopInv mapping met m2b ind →
  addModule mapping bundle (m2b, ind) module = Ok (m2b', ind') →
  FirstLoopInv mapping (met ++ [(bundle, module)]) m2b' ind'.
Proof.
  intros [Hrec Horig Hkeys Hbun] (Hold & -> & Hm2b)%addModule_shape.
  split.
  - intros b m [Hin|Hin%list_elem_of_singleton]%elem_of_app;
      rewrite indGet_indSet.
    + case_decide as Heq; [|by apply (Hrec b)].
      specialize (Hrec b m Hin). rewrite Heq in Hrec.
      destruct Hold as [Hold|Hold]; congruence.
    + injection Hin as -> ->. by rewrite decide_True.
  - intros k v. rewrite indGet_indSet. case_decide as Heq.
    + intros [= <-]. exists bundle, module. split; [|done].
      apply elem_of_app. right. by apply list_elem_of_singleton.
    + intros (b & m & Hin & Hm)%Horig. exists b, m. split; [|done].
      apply elem_of_app. by left.
  - by apply indSet_NoDup.
  - intros x B. destruct Hm2b as [->|(path & -> & -> & Hcond)].
    + intros [Hin Hc]%Hbun. split; [|done]. apply elem_of_app. by left.
    + rewrite lookup_insert. case_decide as Heq.
      * intros [= <-]. subst x. split; [|done].
        apply elem_of_app. right. by apply list_elem_of_singleton.
      * intros [Hin Hc]%Hbun. split; [|done]. apply elem_of_app. by left.
Qed.

Lemma addBundle_inv (mapping pre : Mapping) (t t' : Tables) (bundle : string)
    (modules : list Member) :
  FirstLoopInv mapping (listed pre) (moduleToBundle t) (indirections t) →
  addBundle mapping t (bundle, modules) = Ok t' →
  FirstLoopInv mapping (listed (pre ++ [(bundle, modules)]))
    (moduleToBundle t') (indirections t').
Proof.
  intros Hinv Hadd. unfold addBundle in Hadd.
  destruct (bundleToModules t !! bundle); [discriminate|].
  destruct (forOf (addModule mapping bundle) modules
              (moduleToBundle t, indirections t)) as [[m2b ind]|e] eqn:E;
    [|discriminate].
  simpl in Hadd. injection Hadd as <-. simpl. rewrite listed_snoc.
  apply (forOf_inv (addModule mapping bundle)
           (fun mpre st =>
              FirstLoopInv mapping
                (listed pre ++ ((fun module => (bundle, module)) <$> mpre))
                st.1 st.2) modules _ (m2b, ind)) in E; [exact E| |].
  - simpl. by rewrite app_nil_r.
  - intros mpre module post [m1 i1] [m2 i2] _ Hpre Hstep. simpl in *.
    rewrite fmap_app, app_assoc. simpl. by eapply addModule_inv.
Qed.

Lemma firstLoop_inv (mapping : Mapping) (t : Tables) :
  firstLoop mapping = Ok t →
  FirstLoopInv mapping (listed mapping) (moduleToBundle t) (indirections t).
Proof.
  unfold firstLoop.
  apply (forOf_inv (addBundle mapping)
           (fun pre t =>
              FirstLoopInv mapping (listed pre) (moduleToBundle t)
                (indirections t))).
  - split; simpl; try done.
    + intros b m Hin. by apply elem_of_nil in Hin.
    + constructor.
  - intros pre [bundle modules] post t1 t2 _ Hpre Hstep.
    by eapply addBundle_inv.
Qed.

(** The indirections after the first loop are the aliases of the
    description. *)
Lemma firstLoop_alias (mapping : Mapping) (t : Tables) (a b : string) :
  firstLoop mapping = Ok t →
  indTarget (indirections t) a = Some b ↔ aliasEntry mapping a b.
Proof.
  intros [Hrec Horig _ _]%firstLoop_inv. unfold indTarget, aliasEntry. split.
  - destruct (indGet (indirections t) a) as [v|] eqn:E; [|discriminate].
    simpl. intros ->.
    destruct (Horig _ _ E) as (bundle & module & Hin & Hname & Htarget).
    apply elem_of_listed in Hin as (modules & Hentry & Hm).
    destruct module as [path|alias target]; [discriminate|].
    simpl in *. injection Htarget as ->. subst alias. eauto.
  - intros (bundle & modules & Hentry & Hm).
    assert (indGet (indirections t) a = Some (Some b)) as ->; [|done].
    apply (Hrec bundle (Alias a b)). apply elem_of_listed. eauto.
Qed.

(** A module that the first loop gave a bundle is no alias; its bundle is
    a bundle of the description; a bundle is given no other bundle than
    itself. *)
Lemma firstLoop_bundle (mapping : Mapping) (t : Tables) (x B : string) :
  firstLoop mapping = Ok t →
  moduleToBundle t !! x = Some B →
  indTarget (indirections t) x = None
  ∧ B ∈ mapping.*1
  ∧ (∃ modules, (B, modules) ∈ mapping ∧ Mod x ∈ modules)
  ∧ (x ∈ mapping.*1 → x = B).
Proof.
  intros [Hrec Horig _ Hbun]%firstLoop_inv Hx.
  destruct (Hbun _ _ Hx) as [Hin Hcond].
  assert (∃ modules, (B, modules) ∈ mapping ∧ Mod x ∈ modules)
    as (modules & Hentry & Hm) by (by apply elem_of_listed).
  split; [|split; [|split]].
  - unfold indTarget.
    assert (indGet (indirections t) x = Some None) as ->; [|done].
    by apply (Hrec B (Mod x)).
  - apply list_elem_of_fmap. by exists (B, modules).
  - eauto.
  - intros Hkey. destruct Hcond as [Hno|]; [|done].
    unfold hasOwn in Hno. by apply bool_decide_eq_false in Hno.
Qed.

(** *** The resolution of one entry *)

(** The loop returns the end of a chain: a path without a target. *)
Lemma resolveLoop_end (steps : nat) (ind : Indirections) (name : string)
    (seen : gset string) (real : string) (next : option string) (r : string) :
  indTarget ind real = next →
  resolveLoop steps ind name seen real next = Ok r →
  indTarget ind r = None.
Proof.
  revert seen real next. induction steps as [|steps IH]; intros seen real next.
  - destruct next; simpl; [discriminate|]. by intros ? [= <-].
  - destruct next as [n|]; simpl; [|by intros ? [= <-]].
    intros _. case_decide; [discriminate|]. by apply IH.
Qed.

(** With more steps than there are keys left to see, the loop does not run
    out of steps. *)
Lemma resolveLoop_enough_steps (steps : nat) (ind : Indirections)
    (name : string) (seen : gset string) (real : string)
    (next : option string) :
  (is_Some next → (size (list_to_set ind.*1 ∖ seen : gset string) < steps)%nat) →
  resolveLoop steps ind name seen real next ≠ Throw OutOfSteps.
Proof.
  revert seen real next. induction steps as [|steps IH]; intros seen real next.
  - destruct next; simpl; [|done]. intros H. specialize (H (mk_is_Some _ _ eq_refl)). lia.
  - destruct next as [n|]; simpl; [|done].
    intros H. specialize (H (mk_is_Some _ _ eq_refl)).
    case_decide as Hseen; [done|]. apply IH.
    intros [t Ht]. apply indTarget_Some_keys in Ht.
    assert (list_to_set ind.*1 ∖ ({[n]} ∪ seen)
            = (list_to_set ind.*1 ∖ seen) ∖ ({[n]} : gset string)) as ->
      by set_solver.
    rewrite size_difference by set_solver.
    rewrite size_singleton.
    assert (n ∈ (list_to_set ind.*1 ∖ seen : gset string)) as Hn by set_solver.
    assert (size (list_to_set ind.*1 ∖ seen : gset string) ≠ 0%nat) as Hpos.
    { intros Hz. apply size_empty_inv in Hz. set_solver. }
    lia.
Qed.

Lemma resolveEntry_enough_steps (ind : Indirections)
    (m2b : gmap string string) (entry : string * option string) :
  NoDup ind.*1 → resolveEntry ind m2b entry ≠ Throw OutOfSteps.
Proof.
  intros Hnd. destruct entry as [name target]. unfold resolveEntry.
  destruct (resolveLoop _ _ _ _ _ _) as [r|e] eqn:E; [done|].
  simpl. intros [= ->]. revert E. apply resolveLoop_enough_steps.
  intros _.
  assert (size (list_to_set ind.*1 ∖ {[name]} : gset string)
          ≤ size (list_to_set ind.*1 : gset string))%nat as Hle
    by (apply subseteq_size; set_solver).
  rewrite size_list_to_set in Hle by done.
  rewrite length_fmap in Hle. lia.
Qed.

(** Two aliases in a row, the second to a path without a target. *)
Lemma resolveLoop_chain (steps : nat) (ind : Indirections) (a b c r : string) :
  indTarget ind a = Some b → indTarget ind b = Some c →
  indTarget ind c = None →
  resolveLoop steps ind a {[a]} a (Some b) = Ok r → r = c.
Proof.
  intros Ha Hb Hc. destruct steps as [|[|steps]]; simpl; [discriminate| |].
  - case_decide; [discriminate|]. rewrite Hb. discriminate.
  - case_decide; [discriminate|]. rewrite Hb. simpl.
    case_decide; [discriminate|]. rewrite Hc.
    destruct steps; simpl; by intros [= <-].
Qed.

(** Two aliases that lead to each other. *)
Lemma resolveLoop_cycle (steps : nat) (ind : Indirections) (a b r : string) :
  indTarget ind b = Some a →
  resolveLoop steps ind a {[a]} a (Some b) ≠ Ok r.
Proof.
  intros Hb. destruct steps as [|[|steps]]; simpl; [discriminate| |].
  - case_decide; [discriminate|]. rewrite Hb. discriminate.
  - case_decide; [discriminate|]. rewrite Hb. simpl.
    rewrite decide_True by set_solver. discriminate.
Qed.

(** *** The second loop *)

Lemma resolveLoop_None (steps : nat) (ind : Indirections) (name : string)
    (seen : gset string) (real : string) :
  resolveLoop steps ind name seen real None = Ok real.
Proof. by destruct steps. Qed.

Lemma resolveEntry_shape (ind : Indirections) (m2b m2b' : gmap string string)
    (name : string) (target : option string) :
  resolveEntry ind m2b (name, target) = Ok m2b' →
  ∃ r, resolveLoop (S (length ind)) ind name {[name]} name target = Ok r
       ∧ m2b' = <[name := default r (m2b !! r)]> m2b.
Proof.
  unfold resolveEntry.
  destruct (resolveLoop _ _ _ _ _ _) as [r|e]; simpl; [|discriminate].
  intros [= <-]. eauto.
Qed.

Lemma resolveEntry_inv (ind pre post : Indirections)
    (m2b0 m2b m2b' : gmap string string) (name : string)
    (target : option string) :
  NoDup ind.*1 →
  ind = pre ++ (name, target) :: post →
  SecondLoopInv ind m2b0 pre m2b →
  resolveEntry ind m2b (name, target) = Ok m2b' →
  SecondLoopInv ind m2b0 (pre ++ [(name, target)]) m2b'.
Proof.
  intros Hnd Hind [Hends Hres Hdom] (r & Hr & ->)%resolveEntry_shape.
  assert (indTarget ind name = target) as Htarget.
  { unfold indTarget. rewrite (indGet_elem_NoDup ind name target); [done..|].
    rewrite Hind. apply elem_of_app. right. by left. }
  assert (indTarget ind r = None) as Hend by (by eapply resolveLoop_end).
  assert (name ∉ pre.*1) as Hfresh.
  { rewrite Hind, fmap_app in Hnd. apply NoDup_app in Hnd as (_ & Hdis & _).
    intros Hin. apply (Hdis _ Hin). by left. }
  split.
  - intros r' Hr'. rewrite lookup_insert. case_decide as Heq; [|by apply Hends].
    subst r'. assert (target = None) as -> by congruence.
    assert (r = name) as ->.
    { rewrite resolveLoop_None in Hr. by injection Hr as <-. }
    simpl. by apply Hends.
  - intros n t [Hin|Hin%list_elem_of_singleton]%elem_of_app.
    + destruct (Hres n t Hin) as (r' & Hr' & Hlook). exists r'.
      split; [done|]. rewrite lookup_insert_ne; [done|].
      intros <-. apply Hfresh. apply list_elem_of_fmap. by exists (name, t).
    + injection Hin as -> ->. exists r. split; [done|].
      rewrite lookup_insert_eq. f_equal. by apply Hends.
  - intros x. rewrite lookup_insert, fmap_app. case_decide as Heq.
    + intros _. right. apply elem_of_app. right. subst x. by left.
    + intros [?|?]%Hdom; [by left|]. right. apply elem_of_app. by left.
Qed.

Lemma secondLoop_inv (ind : Indirections) (m2b0 m2b' : gmap string string) :
  NoDup ind.*1 →
  secondLoop ind m2b0 = Ok m2b' →
  SecondLoopInv ind m2b0 ind m2b'.
Proof.
  intros Hnd. unfold secondLoop.
  apply (forOf_inv (resolveEntry ind) (SecondLoopInv ind m2b0)).
  - split; [done| |by left].
    intros n t Hin. by apply elem_of_nil in Hin.
  - intros pre [name target] post t t' Hind Hpre Hstep.
    by eapply resolveEntry_inv.
Qed.

(** *** The table that [associationsForSimpleMapping] returns *)

Lemma associationsForSimpleMapping_Ok (mapping : Mapping)
    (associations : Associations) :
  associationsForSimpleMapping mapping = Ok associations →
  ∃ t, firstLoop mapping = Ok t
       ∧ secondLoop (indirections t) (moduleToBundle t) = Ok associations.2
       ∧ associations.1 = bundleToModules t.
Proof.
  unfold associationsForSimpleMapping.
  destruct (firstLoop mapping) as [t|e]; simpl; [|discriminate].
  destruct (secondLoop _ _) as [m2b|e] eqn:E; simpl; [|discriminate].
  intros [= <-]. by exists t.
Qed.

(** Every value of the final map is what the end of a chain read after
    the first loop, the end itself when it had no bundle. *)
Lemma table_value (mapping : Mapping) (t : Tables)
    (m2b : gmap string string) (x v : string) :
  firstLoop mapping = Ok t →
  secondLoop (indirections t) (moduleToBundle t) = Ok m2b →
  m2b !! x = Some v →
  ∃ r, indTarget (indirections t) r = None
       ∧ v = default r (moduleToBundle t !! r).
Proof.
  intros Hfirst Hsecond Hx.
  pose proof (firstLoop_inv _ _ Hfirst) as [Hrec Horig Hnd Hbun].
  pose proof (secondLoop_inv _ _ _ Hnd Hsecond) as [Hends Hres Hdom].
  assert (x ∈ (indirections t).*1) as Hkey.
  { destruct (Hdom x) as [[B HB]|?]; [by eexists| |done].
    destruct (Hbun _ _ HB) as [Hin _].
    apply Hrec in Hin. simpl in Hin. apply indGet_Some_elem in Hin.
    apply list_elem_of_fmap. by exists (x, None). }
  apply list_elem_of_fmap in Hkey as ([x' target] & -> & Hentry). simpl in Hx.
  destruct (Hres _ _ Hentry) as (r & Hr & Hlook).
  exists r. split; [|congruence].
  eapply resolveLoop_end; [|exact Hr].
  unfold indTarget. by rewrite (indGet_elem_NoDup _ _ _ Hnd Hentry).
Qed.

Lemma aliasesAvoid_keep (mapping : Mapping) (m2b : gmap string string) :
  aliasesAvoidBundles mapping → aliasesKeepBundles mapping m2b.
Proof. intros Havoid B HB Halias. by destruct (Havoid B Halias). Qed.

(** When the aliases named after bundles keep them, every value of the
    final map reads as itself. *)
Lemma table_closed (mapping : Mapping) (t : Tables)
    (m2b : gmap string string) :
  aliasesKeepBundles mapping m2b →
  firstLoop mapping = Ok t →
  secondLoop (indirections t) (moduleToBundle t) = Ok m2b →
  closedTable m2b.
Proof.
  intros Hkeep Hfirst Hsecond x v Hx.
  destruct (table_value _ _ _ _ _ Hfirst Hsecond Hx) as (r & Hend & ->).
  pose proof (firstLoop_inv _ _ Hfirst) as [_ _ Hnd _].
  pose proof (secondLoop_inv _ _ _ Hnd Hsecond) as [Hends _ _].
  destruct (moduleToBundle t !! r) as [B|] eqn:HB; simpl.
  - destruct (firstLoop_bundle _ _ _ _ Hfirst HB) as (_ & HBkey & _ & _).
    destruct (indTarget (indirections t) B) as [tB|] eqn:HBend.
    + apply (firstLoop_alias _ _ _ _ Hfirst) in HBend.
      rewrite (Hkeep B HBkey); [done | by exists tB].
    + rewrite (Hends B HBend).
      destruct (moduleToBundle t !! B) as [w|] eqn:Hw; [|done]. simpl.
      destruct (firstLoop_bundle _ _ _ _ Hfirst Hw) as (_ & _ & _ & Heq).
      symmetry. by apply Heq.
  - rewrite (Hends r Hend), HB. done.
Qed.

(** On a closed table, with the identity as the fallback, the preferred
    path of a preferred path is that path. *)
Lemma closed_preferredPath_idempotent
    (b2m : gmap string (list Member)) (m2b : gmap string string) (p : string) :
  closedTable m2b →
  let a := StaticAssociator b2m m2b IdentityAssociator in
  preferredPath a (preferredPath a p) = preferredPath a p.
Proof.
  intros Hclosed. simpl. destruct (m2b !! p) as [v|] eqn:Hp.
  - specialize (Hclosed _ _ Hp).
    destruct (m2b !! v); simpl in Hclosed; congruence.
  - by rewrite Hp.
Qed.

(** The helper that the idempotence and the membership properties share:
    the table built from a description whose aliases named after bundles
    keep them is closed. *)
Lemma built_table_closed (mapping : Mapping) (associations : Associations) :
  aliasesKeepBundles mapping associations.2 →
  associationsForSimpleMapping mapping = Ok associations →
  closedTable associations.2.
Proof.
  intros Hkeep (t & Hfirst & Hsecond & _)%associationsForSimpleMapping_Ok.
  by eapply table_closed.
Qed.

(** *** What the construction throws *)

Lemma addModule_Throw (mapping : Mapping) (bundle : string)
    (st : gmap string string * Indirections) (module : Member) (e : Error) :
  addModule mapping bundle st module = Throw e →
  e = ConflictingDefinition (moduleNameOf module).
Proof.
  destruct st as [m2b ind]. unfold addModule.
  destruct (indGet ind (moduleNameOf module)) as [t|];
    [destruct (decide (t = targetNameOf module))|]; simpl;
    try (by intros [= <-]);
    destruct module; try case_match; discriminate.
Qed.

Lemma firstLoop_Throw (mapping : Mapping) (e : Error) :
  firstLoop mapping = Throw e → e ≠ OutOfSteps.
Proof.
  intros ([bundle modules] & t & _ & Hadd)%forOf_Throw.
  unfold addBundle in Hadd.
  destruct (bundleToModules t !! bundle); [by injection Hadd as <-|].
  destruct (forOf (addModule mapping bundle) modules _) as [[m2b ind]|e']
    eqn:E; [discriminate|].
  simpl in Hadd. injection Hadd as ->.
  apply forOf_Throw in E as (module & st & _ & ->%addModule_Throw). done.
Qed.

Lemma resolveLoop_Throw (steps : nat) (ind : Indirections) (name : string)
    (seen : gset string) (real : string) (next : option string) (e : Error) :
  resolveLoop steps ind name seen real next = Throw e →
  e = AliasLoop name ∨ e = OutOfSteps.
Proof.
  revert seen real next. induction steps as [|steps IH]; intros seen real next.
  - destruct next; simpl; [intros [= <-]; by right | discriminate].
  - destruct next as [n|]; simpl; [|discriminate].
    case_decide; [intros [= <-]; by left | apply IH].
Qed.

Lemma secondLoop_Throw (ind : Indirections) (m2b : gmap string string)
    (e : Error) :
  NoDup ind.*1 →
  secondLoop ind m2b = Throw e → ∃ name, e = AliasLoop name.
Proof.
  intros Hnd ([name target] & t & _ & Hthrow)%forOf_Throw.
  pose proof (resolveEntry_enough_steps ind t (name, target) Hnd) as Hsteps.
  unfold resolveEntry in *.
  destruct (resolveLoop _ _ _ _ _ _) as [r|e'] eqn:E; [discriminate|].
  injection Hthrow as ->.
  apply resolveLoop_Throw in E as [->| ->]; [eauto | done].
Qed.

(** ** Alias chains *)

Lemma indTarget_Some (ind : Indirections) (k t : string) :
  indTarget ind k = Some t → (k, Some t) ∈ ind.
Proof.
  unfold indTarget. intros H. apply indGet_Some_elem.
  destruct (indGet ind k) as [[v|]|]; cbn in H; congruence.
Qed.

Ltac in_list :=
  repeat first [apply list_elem_of_here | apply list_elem_of_further].

Lemma chainMapping_aliases :
  aliasEntry chainMapping "/m" "/module"
  ∧ aliasEntry chainMapping "/module" "/module/path/3.js"
  ∧ ¬ isAliasName chainMapping "/module/path/3.js".
Proof.
  unfold aliasEntry, isAliasName, chainMapping. repeat split.
  - eexists _, _. split; in_list.
  - eexists _, _. split; in_list.
  - intros (t & bundle & modules & Hentry & Hm).
    apply list_elem_of_singleton in Hentry. injection Hentry as -> ->.
    rewrite !elem_of_cons, elem_of_nil in Hm.
    repeat (destruct Hm as [Hm|Hm]; [discriminate Hm|]). exact Hm.
Qed.

Lemma loopMapping_aliases :
  aliasEntry loopMapping "a" "b" ∧ aliasEntry loopMapping "b" "a".
Proof.
  unfold aliasEntry, loopMapping. split; eexists _, _; split; in_list.
Qed.

(** C2 (as stated it fails). In the description of the source comment the
    alias [/m] leads to [/module] and on to [/module/path/3.js], which the
    bundle [/module/path/4.js] lists: the preferred path of [/m] is that
    bundle, not the end of the chain. And a description with two aliases
    that lead to each other gives no table to look anything up in: its
    construction throws. *)
Lemma alias_chain_counterexample :
  ¬ chain_resolves_as_stated ∧ ¬ cycle_deferred_as_stated.
Proof.
  split.
  - intros H.
    destruct chainMapping_aliases as (Hab & Hbc & Hc).
    destruct (associationsForSimpleMapping chainMapping) as [associations|e]
      eqn:E; [|vm_compute in E; discriminate E].
    specialize (H chainMapping "/m" "/module" "/module/path/3.js" associations
                  Hab Hbc Hc E).
    vm_compute in E. injection E as <-.
    vm_compute in H. discriminate H.
  - intros H.
    destruct loopMapping_aliases as (Hab & Hba).
    destruct (H loopMapping "a" "b" Hab Hba) as [associations E].
    vm_compute in E. discriminate E.
Qed.

Example alias_chain_bundle :
  (fun associations =>
     preferredPath (newStaticAssociator associations None) "/m")
    <$> (match associationsForSimpleMapping chainMapping with
         | Ok associations => Some associations
         | Throw _ => None
         end)
  = Some "/module/path/4.js".
Proof. vm_compute. reflexivity. Qed.

Example alias_loop_thrown :
  associationsForSimpleMapping loopMapping = Throw (AliasLoop "a").
Proof. vm_compute. reflexivity. Qed.

(** The construction never exhausts the bound of the embedded loop: it
    returns the table or throws one of the errors of the source. *)
Lemma associationsForSimpleMapping_terminates (mapping : Mapping) :
  associationsForSimpleMapping mapping ≠ Throw OutOfSteps.
Proof.
  unfold associationsForSimpleMapping.
  destruct (firstLoop mapping) as [t|e] eqn:Hfirst; simpl.
  - pose proof (firstLoop_inv _ _ Hfirst) as [_ _ Hnd _].
    destruct (secondLoop _ _) as [m2b|e] eqn:Hsecond; simpl; [done|].
    apply secondLoop_Throw in Hsecond as [name ->]; done.
  - intros [= ->]. by apply firstLoop_Throw in Hfirst.
Qed.

(** C2 (amended). The construction of the table ends, with the table or
    with an error. When it returns a table and the aliases of the
    description lead from [a] to [b] and from [b] to [c], where [c] is no
    alias, the preferred path of [a] is the preferred path of [c]: the
    bundle that lists the module [c] when the first loop gave it one, and
    [c] itself otherwise. When two aliases lead from [a] to [b] and from [b]
    to [a], the construction itself throws, before any associator exists and
    any lookup is made; once the first loop has passed, what it throws is
    the alias loop error, found through the set of the paths seen. *)
Theorem alias_chain_resolution (mapping : Mapping) :
  associationsForSimpleMapping mapping ≠ Throw OutOfSteps
  ∧ (∀ a b c associations,
       aliasEntry mapping a b → aliasEntry mapping b c →
       ¬ isAliasName mapping c →
       associationsForSimpleMapping mapping = Ok associations →
       let assoc := newStaticAssociator associations None in
       preferredPath assoc a = preferredPath assoc c
       ∧ (preferredPath assoc c = c
          ∨ ∃ modules, (preferredPath assoc c, modules) ∈ mapping
                       ∧ Mod c ∈ modules))
  ∧ (∀ a b,
       aliasEntry mapping a b → aliasEntry mapping b a →
       (∀ associations, associationsForSimpleMapping mapping ≠ Ok associations)
       ∧ (∀ t, firstLoop mapping = Ok t →
               ∃ name, associationsForSimpleMapping mapping
                       = Throw (AliasLoop name))).
Proof.
  split; [apply associationsForSimpleMapping_terminates|]. split.
  - intros a b c associations Hab Hbc Hc
      (t & Hfirst & Hsecond & _)%associationsForSimpleMapping_Ok.
    pose proof (firstLoop_inv _ _ Hfirst) as [Hrec Horig Hnd Hbun].
    pose proof (secondLoop_inv _ _ _ Hnd Hsecond) as [Hends Hres Hdom].
    apply (firstLoop_alias _ _ _ _ Hfirst) in Hab, Hbc.
    assert (indTarget (indirections t) c = None) as Hcend.
    { destruct (indTarget (indirections t) c) as [tc|] eqn:E; [|done].
      apply (firstLoop_alias _ _ _ _ Hfirst) in E. exfalso. apply Hc.
      by exists tc. }
    assert ((a, Some b) ∈ indirections t) as Hentry.
    { by apply indTarget_Some. }
    destruct (Hres _ _ Hentry) as (r & Hr & Hlook).
    apply (resolveLoop_chain _ _ _ _ _ _ Hab Hbc Hcend) in Hr. subst r.
    assert (preferredPath (newStaticAssociator associations None) c
            = default c (moduleToBundle t !! c)) as Hpc.
    { simpl. rewrite <- (Hends c Hcend). by destruct (associations.2 !! c). }
    split.
    + rewrite Hpc. simpl. by rewrite Hlook.
    + rewrite Hpc. destruct (moduleToBundle t !! c) as [B|] eqn:HB; simpl.
      * right. by destruct (firstLoop_bundle _ _ _ _ Hfirst HB) as (_ & _ & ? & _).
      * by left.
  - intros a b Hab Hba.
    assert (∀ t, firstLoop mapping = Ok t →
                 ∃ name, secondLoop (indirections t) (moduleToBundle t)
                         = Throw (AliasLoop name)) as Hthrows.
    { intros t Hfirst.
      pose proof (firstLoop_inv _ _ Hfirst) as [_ _ Hnd _].
      apply (firstLoop_alias _ _ _ _ Hfirst) in Hab, Hba.
      destruct (secondLoop _ _) as [m2b|e] eqn:Hsecond.
      - exfalso.
        assert ((a, Some b) ∈ indirections t) as Hentry.
        { by apply indTarget_Some. }
        destruct (forOf_Ok_each _ _ _ _ _ Hsecond Hentry)
          as (t0 & t1 & (r & Hr & _)%resolveEntry_shape).
        by apply (resolveLoop_cycle _ _ _ _ _ Hba) in Hr.
      - apply secondLoop_Throw in Hsecond as [name ->]; eauto. }
    split.
    + intros associations
        (t & Hfirst & Hsecond & _)%associationsForSimpleMapping_Ok.
      destruct (Hthrows t Hfirst) as [name Hname]. congruence.
    + intros t Hfirst. destruct (Hthrows t Hfirst) as [name Hname].
      exists name. unfold associationsForSimpleMapping.
      rewrite Hfirst. simpl. by rewrite Hname.
Qed.

Lemma alias_chain_resolution_witness :
  (associationsForSimpleMapping chainMapping = Ok (tableOf chainMapping)
   ∧ preferredPath (newStaticAssociator (tableOf chainMapping) None) "/m"
     = preferredPath (newStaticAssociator (tableOf chainMapping) None)
         "/module/path/3.js")
  ∧ ∃ name, associationsForSimpleMapping loopMapping = Throw (AliasLoop name).
Proof.
  split.
  - assert (associationsForSimpleMapping chainMapping
            = Ok (tableOf chainMapping)) as E by (vm_compute; reflexivity).
    split; [exact E|].
    destruct chainMapping_aliases as (Hab & Hbc & Hc).
    exact (proj1 (proj1 (proj2 (alias_chain_resolution chainMapping))
                    "/m" "/module" "/module/path/3.js" (tableOf chainMapping)
                    Hab Hbc Hc E)).
  - destruct loopMapping_aliases as (Hab & Hba).
    destruct (firstLoop loopMapping) as [t|e] eqn:Hfirst;
      [|vm_compute in Hfirst; discriminate Hfirst].
    exact (proj2 (proj2 (proj2 (alias_chain_resolution loopMapping))
                    "a" "b" Hab Hba) t Hfirst).
Defined.

(** ** Canonicalization *)

Lemma stripFrom_no_match (atStart : bool) (s : string) :
  expressionMatches atStart s = false → stripFrom atStart s = s.
Proof.
  revert atStart. induction s as [|c s IH]; intros atStart.
  - by destruct atStart.
  - cbn [expressionMatches stripFrom].
    intros [-> Hrest]%orb_false_iff. by rewrite IH.
Qed.

Lemma stripFrom_match_shorter (atStart : bool) (s : string) :
  expressionMatches atStart s = true →
  (String.length (stripFrom atStart s) < String.length s)%nat.
Proof.
  revert atStart. induction s as [|c s IH]; intros atStart.
  - by destruct atStart.
  - cbn [expressionMatches stripFrom].
    destruct (suffixMatches atStart (String c s)) eqn:E.
    + intros _. simpl. lia.
    + simpl. intros H%IH. lia.
Qed.

(** [SimpleAssociator]: the preferred path of a preferred path is that path
    exactly when the expression does not match it any more. *)
Lemma simple_preferredPath_idempotent_iff (p : string) :
  preferredPath SimpleAssociator (preferredPath SimpleAssociator p)
  = preferredPath SimpleAssociator p
  ↔ expressionMatches true (preferredPath SimpleAssociator p) = false.
Proof.
  simpl. unfold stripSuffix. split.
  - intros Heq.
    destruct (expressionMatches true (stripFrom true p)) eqn:E; [|done].
    apply stripFrom_match_shorter in E. rewrite Heq in E. lia.
  - apply stripFrom_no_match.
Qed.

(** C4 (as stated it fails). With [SimpleAssociator] the preferred path of
    [chart.js/index.js] is [chart.js], whose preferred path is [chart]: each
    call removes one suffix. *)
Lemma preferredPath_idempotent_counterexample :
  ¬ preferredPath_idempotent_as_stated.
Proof.
  intros H. specialize (H SimpleAssociator "chart.js/index.js").
  vm_compute in H. discriminate H.
Qed.

Example simple_two_steps :
  preferredPath SimpleAssociator "chart.js/index.js" = "chart.js"
  ∧ preferredPath SimpleAssociator "chart.js" = "chart"
  ∧ preferredPath SimpleAssociator "chart" = "chart".
Proof. repeat split. Qed.

(** The two redirects that a request for [chart.js/index.js] goes
    through. *)
Example simple_two_redirects :
  let request pathname :=
    {| url := Some {| pathname := pathname; search := "?callback=cb";
                      callback := Some "cb" |};
       method := "GET"; headers := ∅; hasNext := false |} in
  (∃ h b, (handle (hostOf emptyBackend) simpleServer
             (request "/library/chart.js/index.js")).1 = Responded 307 h b
          ∧ h !! "Location" = Some "../chart.js?callback=cb")
  ∧ (∃ h b, (handle (hostOf emptyBackend) simpleServer
               (request "/library/chart.js")).1 = Responded 307 h b
            ∧ h !! "Location" = Some "chart?callback=cb").
Proof. split; eexists _, _; vm_compute; split; reflexivity. Qed.

(** C4 (amended). [preferredPath (preferredPath p) = preferredPath p] holds
    for every path [p] with [IdentityAssociator]; with a [StaticAssociator]
    that falls back on the identity, when every value of its member-to-bundle
    map reads as itself, which is the case of the table built from a
    description whose aliases named after bundles keep them, and so of
    every description in which no alias is named after a bundle; and with
    [SimpleAssociator], exactly for the paths [p] whose preferred path the
    suffix expression does not match any more. *)
Theorem preferredPath_idempotent_where :
  (∀ p, preferredPath IdentityAssociator (preferredPath IdentityAssociator p)
        = preferredPath IdentityAssociator p)
  ∧ (∀ b2m m2b p,
       closedTable m2b →
       let a := StaticAssociator b2m m2b IdentityAssociator in
       preferredPath a (preferredPath a p) = preferredPath a p)
  ∧ (∀ mapping associations,
       associationsForSimpleMapping mapping = Ok associations →
       (aliasesAvoidBundles mapping →
        aliasesKeepBundles mapping associations.2)
       ∧ (aliasesKeepBundles mapping associations.2 →
          closedTable associations.2
          ∧ ∀ p, let a := newStaticAssociator associations None in
                 preferredPath a (preferredPath a p) = preferredPath a p))
  ∧ (∀ p, preferredPath SimpleAssociator (preferredPath SimpleAssociator p)
          = preferredPath SimpleAssociator p
          ↔ expressionMatches true (preferredPath SimpleAssociator p) = false).
Proof.
  split; [done|]. split; [apply closed_preferredPath_idempotent|].
  split; [|apply simple_preferredPath_idempotent_iff].
  intros mapping associations Hbuilt. split; [apply aliasesAvoid_keep|].
  intros Hkeep.
  pose proof (built_table_closed mapping associations Hkeep Hbuilt) as Hclosed.
  split; [exact Hclosed|]. intros p.
  by apply closed_preferredPath_idempotent.
Qed.

Lemma plainMapping_avoids : aliasesAvoidBundles plainMapping.
Proof.
  intros a (t & bundle & modules & Hentry & Hm).
  unfold plainMapping in Hentry. rewrite !elem_of_cons, elem_of_nil in Hentry.
  destruct Hentry as [[= -> ->]|[[= -> ->]|[]]];
    rewrite !elem_of_cons, elem_of_nil in Hm;
    repeat (destruct Hm as [Hm|Hm]; [discriminate Hm|]); destruct Hm.
Qed.

Lemma jqueryMapping_keeps :
  aliasesKeepBundles jqueryMapping (tableOf jqueryMapping).2.
Proof.
  intros B HB _. unfold jqueryMapping in HB.
  apply list_elem_of_singleton in HB. subst B. vm_compute. reflexivity.
Qed.

Lemma preferredPath_idempotent_where_witness :
  aliasesKeepBundles plainMapping (tableOf plainMapping).2
  ∧ associationsForSimpleMapping plainMapping = Ok (tableOf plainMapping)
  ∧ preferredPath (newStaticAssociator (tableOf plainMapping) None)
      (preferredPath (newStaticAssociator (tableOf plainMapping) None)
         "/module/path/3.js")
    = preferredPath (newStaticAssociator (tableOf plainMapping) None)
        "/module/path/3.js"
  ∧ expressionMatches true (preferredPath SimpleAssociator "a/index.js")
    = false.
Proof.
  assert (associationsForSimpleMapping plainMapping
          = Ok (tableOf plainMapping)) as E by (vm_compute; reflexivity).
  destruct preferredPath_idempotent_where as (_ & _ & Hbuilt & Hsimple).
  destruct (Hbuilt plainMapping (tableOf plainMapping) E) as [Hkeep Hidem].
  specialize (Hkeep plainMapping_avoids).
  split; [exact Hkeep|]. split; [exact E|]. split.
  - exact (proj2 (Hidem Hkeep) "/module/path/3.js").
  - apply Hsimple. vm_compute. reflexivity.
Defined.

(** ** Bundle membership *)

(** C10 (as stated it fails). The bundle [/app.js] lists the module
    [/util.js] and an alias named [/app.js] to [/main.js]: the members of
    [/util.js] are those of the bundle, but its preferred path [/app.js] is
    itself sent on to [/main.js], whose only member is itself. *)
Lemma membership_counterexample : ¬ membership_as_stated.
Proof.
  intros H.
  specialize (H selfAliasMapping (tableOf selfAliasMapping) "/util.js").
  assert (associationsForSimpleMapping selfAliasMapping
          = Ok (tableOf selfAliasMapping)) as E by (vm_compute; reflexivity).
  specialize (H E). vm_compute in H. discriminate H.
Qed.

Example selfAlias_members :
  let a := newStaticAssociator (tableOf selfAliasMapping) None in
  associatedModulePaths a "/util.js"
  = [Mod "/util.js"; Alias "/app.js" "/main.js"]
  ∧ preferredPath a "/util.js" = "/app.js"
  ∧ associatedModulePaths a "/app.js" = [Mod "/main.js"].
Proof. vm_compute. repeat split. Qed.

(** C10 (amended). On the table built from a description whose aliases
    named after bundles have those bundles as their preferred paths (so, in
    particular, from a description in which no alias is named after a
    bundle), with the identity as the fallback, the members of every path
    are the members of its preferred path. *)
Theorem membership_of_preferredPath (mapping : Mapping)
    (associations : Associations) (p : string) :
  aliasesKeepBundles mapping associations.2 ∨ aliasesAvoidBundles mapping →
  associationsForSimpleMapping mapping = Ok associations →
  let a := newStaticAssociator associations None in
  associatedModulePaths a p = associatedModulePaths a (preferredPath a p).
Proof.
  intros Hkeep Hbuilt a.
  assert (aliasesKeepBundles mapping associations.2) as Hkeep'.
  { destruct Hkeep as [?|?]; [done | by apply aliasesAvoid_keep]. }
  pose proof (closed_preferredPath_idempotent associations.1 associations.2 p
                (built_table_closed mapping associations Hkeep' Hbuilt))
    as Hidem.
  unfold a, newStaticAssociator in *. simpl default in *.
  cbn [associatedModulePaths]. by rewrite Hidem.
Qed.

Lemma membership_of_preferredPath_witness :
  aliasesKeepBundles jqueryMapping (tableOf jqueryMapping).2
  ∧ associationsForSimpleMapping jqueryMapping = Ok (tableOf jqueryMapping)
  ∧ associatedModulePaths (newStaticAssociator (tableOf jqueryMapping) None)
      "jquery/dist/jquery.min.js"
    = associatedModulePaths (newStaticAssociator (tableOf jqueryMapping) None)
        (preferredPath (newStaticAssociator (tableOf jqueryMapping) None)
           "jquery/dist/jquery.min.js").
Proof.
  assert (associationsForSimpleMapping jqueryMapping
          = Ok (tableOf jqueryMapping)) as E by (vm_compute; reflexivity).
  split; [exact jqueryMapping_keeps|]. split; [exact E|].
  exact (membership_of_preferredPath jqueryMapping (tableOf jqueryMapping)
           "jquery/dist/jquery.min.js" (or_introl jqueryMapping_keeps) E).
Defined.

Example jquery_members :
  let a := newStaticAssociator (tableOf jqueryMapping) None in
  preferredPath a "jquery" = "jquery"
  ∧ preferredPath a "jquery/dist/jquery.min.js" = "jquery"
  ∧ associatedModulePaths a "jquery"
    = [Alias "jquery" "jquery/dist/jquery.min.js";
       Mod "jquery/dist/jquery.min.js"].
Proof. vm_compute. repeat split. Qed.

(** * The rest of the code

    The functions of [server.js] and [associators.js] that the properties
    above leave aside, and what the handler does on its other branches. *)

(** ** The escaper *)

Lemma escaped_code_alnum (c : ascii) :
  match Str.takeLast 4 ("000" +:+ toString16 (N_of_ascii c)) with
  | String h1 (String h2 (String h3 (String h4 ""))) =>
      Str.isAlnum h1 && Str.isAlnum h2 && Str.isAlnum h3 && Str.isAlnum h4
  | _ => false
  end = true.
Proof. destruct c as [[] [] [] [] [] [] [] []]; vm_compute; reflexivity. Qed.

(** The code of a character is made of four alphanumeric characters. *)
Lemma escaped_code (c : ascii) :
  ∃ h1 h2 h3 h4 : ascii,
    Str.takeLast 4 ("000" +:+ toString16 (N_of_ascii c))
    = String h1 (String h2 (String h3 (String h4 "")))
    ∧ Str.isAlnum h1 = true ∧ Str.isAlnum h2 = true
    ∧ Str.isAlnum h3 = true ∧ Str.isAlnum h4 = true.
Proof.
  pose proof (escaped_code_alnum c) as H.
  destruct (Str.takeLast 4 _) as [|h1 [|h2 [|h3 [|h4 [|]]]]]; try discriminate H.
  apply andb_true_iff in H as [[[H1 H2]%andb_true_iff H3]%andb_true_iff H4].
  by exists h1, h2, h3, h4.
Qed.

Lemma escapeChar_alphabet (exceptions : string) (c : ascii) :
  Str.forallb
    (fun c => Str.isAlnum c || Str.mem c exceptions || Ascii.eqb c "\")
    (escapeChar exceptions c) = true.
Proof.
  unfold escapeChar.
  destruct (Str.isAlnum c) eqn:Ha; [simpl; by rewrite Ha|].
  destruct (Str.mem c exceptions) eqn:Hm; [simpl; by rewrite Ha, Hm|].
  destruct (escaped_code c) as (h1 & h2 & h3 & h4 & -> & H1 & H2 & H3 & H4).
  simpl. by rewrite H1, H2, H3, H4, orb_true_r.
Qed.

Lemma forallb_mem (p : ascii -> bool) (s : string) (c : ascii) :
  Str.forallb p s = true → p c = false → Str.mem c s = false.
Proof.
  induction s as [|d s IH]; [done|]. simpl.
  intros [Hd Hs]%andb_true_iff Hc. rewrite (IH Hs Hc), orb_false_r.
  destruct (Ascii.eqb_spec c d) as [->|]; [congruence | done].
Qed.

(** X1. Whatever the text and the exceptions, the escaped text holds only
    alphanumeric characters, exceptions and backslashes. With the
    exceptions of [packagedDefine] the escaped path therefore holds no
    double quote, no line feed and no angle bracket: the key that
    [packagedDefine] prints between double quotes cannot end its own
    literal. *)
Theorem escapeNonAlphanumerics_alphabet (text exceptions : string) :
  Str.forallb
    (fun c => Str.isAlnum c || Str.mem c exceptions || Ascii.eqb c "\")
    (escapeNonAlphanumerics text exceptions) = true
  ∧ ∀ path c,
      c = ascii_of_nat 34 ∨ c = ascii_of_nat 10 ∨ c = "<"%char ∨ c = ">"%char →
      Str.mem c (escapeNonAlphanumerics path "./-_") = false.
Proof.
  assert (∀ text exceptions,
            Str.forallb
              (fun c => Str.isAlnum c || Str.mem c exceptions || Ascii.eqb c "\")
              (escapeNonAlphanumerics text exceptions) = true) as Hall.
  { clear. intros text exceptions.
    induction text as [|c text IH]; [done|].
    cbn [escapeNonAlphanumerics].
    by rewrite Str_forallb_app, escapeChar_alphabet, IH. }
  split; [apply Hall|].
  intros path c Hc. eapply forallb_mem; [apply Hall|].
  destruct Hc as [->|[->|[->| ->]]]; reflexivity.
Qed.

(** An escaped character is the character itself or six characters that
    start with a backslash. *)
Lemma escapeChar_cases (exceptions : string) (c : ascii) :
  (Str.isAlnum c || Str.mem c exceptions = true
   ∧ escapeChar exceptions c = String c "")
  ∨ (Str.isAlnum c || Str.mem c exceptions = false
     ∧ ∃ h1 h2 h3 h4,
         escapeChar exceptions c
         = String "\" (String "u" (String h1 (String h2 (String h3 (String h4 "")))))
         ∧ Str.takeLast 4 ("000" +:+ toString16 (N_of_ascii c))
           = String h1 (String h2 (String h3 (String h4 "")))).
Proof.
  unfold escapeChar.
  destruct (Str.isAlnum c); [by left|].
  destruct (Str.mem c exceptions); [by left|].
  right. split; [done|].
  destruct (escaped_code c) as (h1 & h2 & h3 & h4 & E & _).
  exists h1, h2, h3, h4. by rewrite E.
Qed.

Lemma escapeNonAlphanumerics_length (text exceptions : string) :
  (String.length text
   <= String.length (escapeNonAlphanumerics text exceptions))%nat.
Proof.
  induction text as [|c text IH]; [done|].
  cbn [escapeNonAlphanumerics]. rewrite string_length_app.
  destruct (escapeChar_cases exceptions c)
    as [[_ ->]|[_ (h1 & h2 & h3 & h4 & -> & _)]]; simpl; lia.
Qed.

(** X2. The escaper leaves a text as it is exactly when every character
    of the text is alphanumeric or an exception. *)
Theorem escapeNonAlphanumerics_fixed (text exceptions : string) :
  escapeNonAlphanumerics text exceptions = text
  ↔ Str.forallb (fun c => Str.isAlnum c || Str.mem c exceptions) text = true.
Proof.
  induction text as [|c text IH]; [done|].
  cbn [escapeNonAlphanumerics Str.forallb].
  destruct (escapeChar_cases exceptions c)
    as [[Hc ->]|[Hc (h1 & h2 & h3 & h4 & -> & _)]]; rewrite Hc; simpl.
  - rewrite <- IH. split; [intros [= H]; exact H|].
    intros H. change (String c (escapeNonAlphanumerics text exceptions)
                      = String c text). by rewrite H.
  - split; [|discriminate]. intros [= _ Hrest].
    pose proof (escapeNonAlphanumerics_length text exceptions) as Hlen.
    apply (f_equal String.length) in Hrest. simpl in Hrest.
    rewrite string_length_app in Hrest. simpl in Hrest. lia.
Qed.

(** The character that four hexadecimal digits stand for. *)
Lemma escaped_code_inj (c d : ascii) :
  Str.takeLast 4 ("000" +:+ toString16 (N_of_ascii c))
  = Str.takeLast 4 ("000" +:+ toString16 (N_of_ascii d)) →
  c = d.
Proof.
  intros H.
  set (value := fun s : string =>
         match s with
         | String _ (String _ (String h3 (String h4 ""))) =>
             let v h := (if (N_of_ascii h <? 58)%N then N_of_ascii h - 48
                         else N_of_ascii h - 87)%N in
             Some (ascii_of_N (16 * v h3 + v h4))
         | _ => None
         end).
  assert (∀ c, value (Str.takeLast 4 ("000" +:+ toString16 (N_of_ascii c)))
               = Some c) as Hvalue.
  { clear. intros c.
    destruct c as [[] [] [] [] [] [] [] []]; vm_compute; reflexivity. }
  apply (f_equal value) in H. rewrite !Hvalue in H. by injection H.
Qed.

(** X3. When the backslash is no exception the escaper is injective: two
    texts with the same escaped text are the same text. This is the case of
    [packagedDefine], so two different module paths never print the same
    key. *)
Theorem escapeNonAlphanumerics_injective (exceptions s t : string) :
  Str.mem "\" exceptions = false →
  escapeNonAlphanumerics s exceptions = escapeNonAlphanumerics t exceptions →
  s = t.
Proof.
  intros Hex. revert t. induction s as [|a s IH]; intros [|b t].
  - done.
  - cbn [escapeNonAlphanumerics].
    destruct (escapeChar_cases exceptions b)
      as [[_ ->]|[_ (h1 & h2 & h3 & h4 & -> & _)]]; discriminate.
  - cbn [escapeNonAlphanumerics].
    destruct (escapeChar_cases exceptions a)
      as [[_ ->]|[_ (h1 & h2 & h3 & h4 & -> & _)]]; discriminate.
  - cbn [escapeNonAlphanumerics].
    assert (Str.isAlnum "\" || Str.mem "\" exceptions = false) as Hback
      by (by rewrite Hex).
    destruct (escapeChar_cases exceptions a)
      as [[Ha ->]|[Ha (h1 & h2 & h3 & h4 & -> & Ea)]];
      destruct (escapeChar_cases exceptions b)
        as [[Hb ->]|[Hb (k1 & k2 & k3 & k4 & -> & Eb)]]; simpl.
    + intros [= -> Hrest]. f_equal. by apply IH.
    + intros [= -> _]. congruence.
    + intros [= <- _]. congruence.
    + intros [= -> -> -> -> Hrest].
      rewrite <- Eb in Ea. apply escaped_code_inj in Ea as ->.
      f_equal. by apply IH.
Qed.

Lemma escapeNonAlphanumerics_injective_witness :
  Str.mem "\" "./-_" = false ∧ "m/a b.js" = "m/a b.js".
Proof.
  split; [reflexivity|].
  apply (escapeNonAlphanumerics_injective "./-_" "m/a b.js" "m/a b.js");
    reflexivity.
Defined.

(** ** The selection of properties *)

(** X4. [selectProperties] is the restriction of the object to the keys:
    the result holds exactly the properties of the object whose key is
    listed, each with the value that the object gives it. *)
Theorem selectProperties_filter (o : Headers) (keys : list string) :
  selectProperties o keys = filter (fun kv => kv.1 ∈ keys) o.
Proof.
  apply map_eq. intros k. rewrite lookup_selectProperties.
  destruct (o !! k) as [v|] eqn:Hk.
  - destruct (decide (k ∈ keys)) as [Hin|Hnin].
    + symmetry. by apply map_lookup_filter_Some.
    + symmetry. apply map_lookup_filter_None. right. intros v' Hv'. done.
  - case_decide; symmetry; apply map_lookup_filter_None; by left.
Qed.

(** ** The order of the members *)

Lemma Math_max_Permutation (values values' : list Z) :
  values ≡ₚ values' → Math_max values = Math_max values'.
Proof.
  induction 1 as [|x l l' _ IH|x y l|l1 l2 l3 _ IH1 _ IH2]; simpl.
  - done.
  - fold (Math_max l) (Math_max l'). by rewrite IH.
  - fold (Math_max l). destruct (Math_max l); f_equal; lia.
  - congruence.
Qed.

Lemma Math_min_Permutation (values values' : list Z) :
  values ≡ₚ values' → Math_min values = Math_min values'.
Proof.
  induction 1 as [|x l l' _ IH|x y l|l1 l2 l3 _ IH1 _ IH2]; simpl.
  - done.
  - fold (Math_min l) (Math_min l'). by rewrite IH.
  - fold (Math_min l). destruct (Math_min l); f_equal; lia.
  - congruence.
Qed.

Lemma everyNumber_cons (parse : Headers -> option Z) (h : Headers)
    (hs : list Headers) :
  everyNumber (parse <$> h :: hs)
  = match parse h, everyNumber (parse <$> hs) with
    | Some v, Some values => Some (v :: values)
    | _, _ => None
    end.
Proof.
  unfold everyNumber. rewrite fmap_cons. cbn [mapM].
  destruct (parse h); [|done]. simpl.
  by destruct (mapM id (parse <$> hs)).
Qed.

(** The numbers of a permuted list are the permuted numbers. *)
Lemma everyNumber_Permutation (parse : Headers -> option Z)
    (hs hs' : list Headers) :
  hs ≡ₚ hs' →
  match everyNumber (parse <$> hs), everyNumber (parse <$> hs') with
  | Some values, Some values' => values ≡ₚ values'
  | None, None => True
  | _, _ => False
  end.
Proof.
  induction 1 as [|x l l' _ IH|x y l|l1 l2 l3 _ IH1 _ IH2];
    rewrite ?everyNumber_cons.
  - by vm_compute.
  - destruct (parse x); [|done].
    destruct (everyNumber (parse <$> l)), (everyNumber (parse <$> l'));
      try done. by constructor.
  - destruct (parse x), (parse y), (everyNumber (parse <$> l)); try done.
    constructor.
  - destruct (everyNumber (parse <$> l1)), (everyNumber (parse <$> l2)),
      (everyNumber (parse <$> l3)); try done. by etrans.
Qed.

(** X5. The merged headers do not depend on the order of the header
    sets: a bundle has the same merged headers in whatever order its
    members answer. *)
Theorem mergeHeaders_Permutation (host : Host) (hs hs' : list Headers) :
  hs ≡ₚ hs' → mergeHeaders host hs = mergeHeaders host hs'.
Proof.
  intros Hperm. unfold mergeHeaders.
  pose proof (everyNumber_Permutation (fun h => dateOf host h "date") _ _ Hperm)
    as H1.
  pose proof (everyNumber_Permutation
                (fun h => dateOf host h "last-modified") _ _ Hperm) as H2.
  pose proof (everyNumber_Permutation
                (fun h => dateOf host h "expires") _ _ Hperm) as H3.
  pose proof (everyNumber_Permutation maxAgeOf _ _ Hperm) as H4.
  repeat match goal with
         | H : match everyNumber ?a with _ => _ end |- _ =>
             destruct (everyNumber a); [|]
         | H : match everyNumber ?a with _ => _ end |- _ =>
             destruct (everyNumber a); try (destruct H; fail)
         | H : _ ≡ₚ _ |- _ =>
             first [rewrite (Math_max_Permutation _ _ H)
                   |rewrite (Math_min_Permutation _ _ H)]; clear H
         end.
  all: try done.
Qed.

Lemma mergeHeaders_Permutation_witness :
  mergeHeaders (hostOf emptyBackend) [headersA; headersB]
  = mergeHeaders (hostOf emptyBackend) [headersB; headersA].
Proof.
  apply (mergeHeaders_Permutation (hostOf emptyBackend)
           [headersA; headersB] [headersB; headersA]).
  apply perm_swap.
Defined.

(** ** What the handler sends to the backend *)

Lemma fetchBundle_calls (host : Host) (server : ServerState)
    (request : Request) (req : Headers) (cb modulePath : string) :
  (fetchBundle host server request req cb modulePath).2 = []
  ∨ ∃ modulePaths,
      memberPaths (bundleMembers server modulePath) = Some modulePaths
      ∧ ((fetchBundle host server request req cb modulePath).2
         = [headCall server req modulePaths]
         ∨ (fetchBundle host server request req cb modulePath).2
           = [headCall server req modulePaths;
              getCall server req modulePaths]).
Proof.
  unfold fetchBundle.
  destruct (memberPaths (bundleMembers server modulePath)) as [modulePaths|];
    [|by left].
  right. exists modulePaths. split; [done|].
  repeat (case_match; simpl; auto).
Qed.

Lemma bundle_calls (host : Host) (server : ServerState)
    (request : Request) (req : Headers) (path : string) (u : URL)
    (cb modulePath : string) :
  (bundle host server request req path u cb modulePath).2 = []
  ∨ ∃ modulePaths,
      (bundle host server request req path u cb modulePath).2
      = [headCall server req modulePaths]
      ∨ (bundle host server request req path u cb modulePath).2
        = [headCall server req modulePaths; getCall server req modulePaths].
Proof.
  unfold bundle. repeat (case_match; simpl; auto).
  destruct (fetchBundle_calls host server request req cb modulePath)
    as [?|(modulePaths & _ & ?)]; eauto.
Qed.

(** The calls of the handler: none, the single GET of the direct proxy,
    the HEAD fan-out, or the HEAD fan-out followed by the GET fan-out. *)
Lemma handle_calls (host : Host) (server : ServerState) (request : Request) :
  (handle host server request).2 = []
  ∨ (∃ uri, (handle host server request).2
            = [{| fetchURIs := [uri]; fetchMethod := "GET";
                  fetchHeaders := requestHeadersOf request |}])
  ∨ ∃ modulePaths,
      (handle host server request).2
      = [headCall server (requestHeadersOf request) modulePaths]
      ∨ (handle host server request).2
        = [headCall server (requestHeadersOf request) modulePaths;
           getCall server (requestHeadersOf request) modulePaths].
Proof.
  unfold handle.
  destruct (url request) as [u|]; [|by left].
  destruct (modulePathOf server _) as [modulePath|]; [|by left].
  destruct (negb (truthy modulePath)); [destruct (hasNext request); by left|].
  destruct (_ && _); [by left|].
  destruct (callback u) as [cb|]; [|right; left; by eexists].
  destruct (bundle_calls host server request (requestHeadersOf request)
              (normalizePath host (pathname u)) u cb (str modulePath))
    as [?|?]; auto.
Qed.

Lemma requestHeadersOf_lookup (request : Request) (k v : string) :
  requestHeadersOf request !! k = Some v →
  (k = "user-agent" ∧ v = "yajsml") ∨ (k = "accept" ∧ v = "*/*")
  ∨ ((k = "if-modified-since" ∨ k = "cache-control")
     ∧ headers request !! k = Some v).
Proof.
  unfold requestHeadersOf. rewrite lookup_union_Some_raw.
  rewrite lookup_selectProperties.
  intros [Hsel|[_ Hdef]].
  - right. right. case_decide as Hin; [|discriminate]. split; [|done].
    apply elem_of_cons in Hin as [->|Hin]; [by left|].
    apply list_elem_of_singleton in Hin as ->. by right.
  - apply lookup_insert_Some in Hdef as [[<- <-]|[_ Hdef]]; [by left|].
    apply lookup_singleton_Some in Hdef as [<- <-]. right. by left.
Qed.

(** X6. Whatever the request, every call that the handler makes to the
    backend carries only the two headers of the server ([user-agent:
    yajsml] and [accept: */*]) and, of the headers of the request, at most
    [if-modified-since] and [cache-control] with the values of the request:
    no other header of the client reaches the backend. *)
Theorem handle_forwarded_headers (host : Host) (server : ServerState)
    (request : Request) (c : FetchCall) (k v : string) :
  c ∈ (handle host server request).2 →
  fetchHeaders c !! k = Some v →
  (k = "user-agent" ∧ v = "yajsml") ∨ (k = "accept" ∧ v = "*/*")
  ∨ ((k = "if-modified-since" ∨ k = "cache-control")
     ∧ headers request !! k = Some v).
Proof.
  intros Hc Hk.
  assert (fetchHeaders c = requestHeadersOf request
          ∨ fetchHeaders c = requestHeadersForGet (requestHeadersOf request))
    as [Heq|Heq].
  { destruct (handle_calls host server request)
      as [E|[[uri E]|[modulePaths [E|E]]]]; rewrite E in Hc.
    - by apply elem_of_nil in Hc.
    - apply list_elem_of_singleton in Hc as ->. by left.
    - apply list_elem_of_singleton in Hc as ->. by left.
    - apply elem_of_cons in Hc as [->|Hc]; [by left|].
      apply list_elem_of_singleton in Hc as ->. by right. }
  - rewrite Heq in Hk. by apply requestHeadersOf_lookup.
  - rewrite Heq in Hk. unfold requestHeadersForGet in Hk.
    rewrite lookup_selectProperties in Hk.
    case_decide; [|discriminate]. by apply requestHeadersOf_lookup.
Qed.

Lemma handle_forwarded_headers_witness :
  ("user-agent" = "user-agent" ∧ "yajsml" = "yajsml")
  ∨ ("user-agent" = "accept" ∧ "yajsml" = "*/*")
  ∨ (("user-agent" = "if-modified-since" ∨ "user-agent" = "cache-control")
     ∧ headers conditionalGet !! "user-agent" = Some "yajsml").
Proof.
  apply (handle_forwarded_headers (hostOf mixedBackend) pairServer
           conditionalGet
           (headCall pairServer (requestHeadersOf conditionalGet) ["a"; "b"])
           "user-agent" "yajsml").
  - vm_compute. left.
  - vm_compute. reflexivity.
Defined.

(** X7. Whatever the request, the handler calls the backend at most
    twice. One call is the GET of the direct proxy for a single resource or
    the HEAD fan-out of a bundle; a second call only follows a HEAD
    fan-out: it is the GET fan-out, for the same resources in the same
    order, and it is never conditional (it carries no
    [if-modified-since]). *)
Theorem handle_fetch_trace (host : Host) (server : ServerState)
    (request : Request) :
  let calls := (handle host server request).2 in
  (length calls <= 2)%nat
  ∧ (∀ c, calls = [c] →
          fetchHeaders c = requestHeadersOf request
          ∧ ((fetchMethod c = "GET" ∧ length (fetchURIs c) = 1%nat)
             ∨ fetchMethod c = "HEAD"))
  ∧ ∀ c1 c2, calls = [c1; c2] →
             fetchMethod c1 = "HEAD" ∧ fetchMethod c2 = "GET"
             ∧ fetchURIs c2 = fetchURIs c1
             ∧ fetchHeaders c1 = requestHeadersOf request
             ∧ fetchHeaders c2 !! "if-modified-since" = None
             ∧ fetchHeaders c2 !! "cache-control"
               = headers request !! "cache-control".
Proof.
  intros calls. subst calls.
  destruct (handle_calls host server request)
    as [E|[[uri E]|[modulePaths [E|E]]]]; rewrite E; simpl.
  - split; [lia|]. split; intros; discriminate.
  - split; [lia|]. split; [|intros; discriminate].
    intros c [= <-]. split; [done|]. by left.
  - split; [lia|]. split; [|intros; discriminate].
    intros c [= <-]. split; [done|]. by right.
  - split; [lia|]. split; [intros; discriminate|].
    intros c1 c2 [= <- <-]. simpl. repeat split.
    + unfold requestHeadersForGet. rewrite lookup_selectProperties.
      apply decide_False. set_solver.
    + unfold requestHeadersForGet, requestHeadersOf.
      rewrite lookup_selectProperties, decide_True by set_solver.
      rewrite lookup_union, lookup_selectProperties.
      rewrite decide_True by set_solver.
      destruct (headers request !! "cache-control"); reflexivity.
Qed.

(** ** What the handler answers *)

Lemma lookup_bundleHeaders (headers : Headers) :
  bundleHeaders headers !! "x-content-type-options" = Some "nosniff"
  ∧ bundleHeaders headers !! "content-type"
    = Some "application/javascript; charset=utf-8"
  ∧ ∀ k, is_Some (bundleHeaders headers !! k) →
         k ∈ "x-content-type-options" :: HEADER_WHITELIST.
Proof.
  unfold bundleHeaders. split; [by rewrite lookup_insert_eq|].
  split; [by rewrite lookup_insert_ne, lookup_insert_eq|].
  intros k [v Hk].
  apply lookup_insert_Some in Hk as [[<- _]|[_ Hk]]; [by left|]. right.
  apply lookup_insert_Some in Hk as [[<- _]|[_ Hk]];
    [unfold HEADER_WHITELIST; set_solver|].
  rewrite lookup_selectProperties in Hk. by case_decide.
Qed.

Lemma fetchBundle_response (host : Host) (server : ServerState)
    (request : Request) (req : Headers) (cb modulePath : string)
    (st : Z) (h : Headers) (b : option string) :
  (fetchBundle host server request req cb modulePath).1 = Responded st h b →
  (st = 304 ∨ st = 200)
  ∧ (∃ headers, h = bundleHeaders headers)
  ∧ (method request = "HEAD" → b = None).
Proof.
  intros Hresp. split; [by eapply fetchBundle_status|].
  revert Hresp. unfold fetchBundle.
  assert (∀ status headers content,
            respondBundle host req status headers content = Responded st h b →
            (∃ headers, h = bundleHeaders headers)
            ∧ (content = None → b = None)) as Hrespond.
  { intros status headers content. unfold respondBundle.
    intros [= _ <- <-]. split; [eauto|]. by intros ->. }
  destruct (memberPaths _); [|discriminate].
  destruct (reduceStatus _) as [status|]; [|discriminate].
  destruct (_ || _); simpl.
  { intros [? Hb]%Hrespond. split; [done|]. intros _. by apply Hb. }
  destruct (String.eqb (method request) "HEAD") eqn:Hhead; simpl.
  - destruct (negb _); simpl.
    { intros [? Hb]%Hrespond. split; [done|]. intros _. by apply Hb. }
    destruct (reduceStatus _) as [status'|]; [|discriminate]. simpl.
    intros [? Hb]%Hrespond. split; [done|]. intros _. by apply Hb.
  - apply String.eqb_neq in Hhead.
    destruct (reduceStatus _) as [status'|]; [|discriminate]. simpl.
    destruct (String.eqb (method request) "GET"); [|discriminate]. simpl.
    intros [? _]%Hrespond. split; [done|]. done.
Qed.

(** X8. A request with a [callback] parameter is answered, when it is
    answered, with one of six statuses: 200 or 304 for the bundle, 307 for
    the redirect, 400 for a refused callback, 404 and 405. A 200 or a 304
    always carries [x-content-type-options: nosniff] and the JavaScript
    content type, and no header besides those two and the white list. *)
Theorem handle_callback_response (host : Host) (server : ServerState)
    (request : Request) (u : URL) (cb : string) (st : Z) (h : Headers)
    (b : option string) :
  url request = Some u →
  callback u = Some cb →
  (handle host server request).1 = Responded st h b →
  st ∈ [200; 304; 307; 400; 404; 405]
  ∧ (st = 200 ∨ st = 304 →
     h !! "x-content-type-options" = Some "nosniff"
     ∧ h !! "content-type" = Some "application/javascript; charset=utf-8"
     ∧ ∀ k, is_Some (h !! k) →
            k ∈ "x-content-type-options" :: HEADER_WHITELIST).
Proof.
  intros Hurl Hcb. unfold handle. rewrite Hurl.
  destruct (modulePathOf server _) as [modulePath|]; [|discriminate].
  destruct (negb (truthy modulePath)).
  { destruct (hasNext request); [discriminate|].
    intros [= <- _ _]. split; [set_solver|]. intros [?|?]; discriminate. }
  destruct (_ && _).
  { intros [= <- _ _]. split; [set_solver|]. intros [?|?]; discriminate. }
  rewrite Hcb. unfold bundle.
  destruct (Str.isEmpty cb).
  { intros [= <- _ _]. split; [set_solver|]. intros [?|?]; discriminate. }
  destruct (negb (matchesCallbackExpression cb)).
  { intros [= <- _ _]. split; [set_solver|]. intros [?|?]; discriminate. }
  destruct (negb (String.eqb _ _)).
  { intros [= <- _ _]. split; [set_solver|]. intros [?|?]; discriminate. }
  intros ([-> | ->] & [headers ->] & _)%fetchBundle_response;
    (split; [set_solver|]); intros _; apply lookup_bundleHeaders.
Qed.

Lemma handle_callback_response_witness :
  (304 : Z) ∈ [200; 304; 307; 400; 404; 405]
  ∧ ∃ h : Headers,
      (handle (hostOf mixedBackend) pairServer conditionalGet).1
      = Responded 304 h None
      ∧ h !! "x-content-type-options" = Some "nosniff".
Proof.
  assert (∃ h, (handle (hostOf mixedBackend) pairServer conditionalGet).1
               = Responded 304 h None) as [h Hh].
  { eexists. vm_compute. reflexivity. }
  destruct (handle_callback_response (hostOf mixedBackend) pairServer
              conditionalGet
              {| pathname := "/library/a"; search := "?callback=cb";
                 callback := Some "cb" |} "cb" 304 h None
              eq_refl eq_refl Hh) as [Hst Hhead].
  split; [exact Hst|]. exists h. split; [exact Hh|].
  exact (proj1 (Hhead (or_intror eq_refl))).
Defined.

Lemma directProxy_response (host : Host) (server : ServerState)
    (request : Request) (req : Headers) (modulePath : string)
    (st : Z) (h : Headers) (b : option string) :
  directProxy host server request req modulePath = Responded st h b →
  let fetched :=
    requestURI host (_resourceURIForModulePath server modulePath) "GET" req in
  (∀ k, is_Some (h !! k) → k ∈ HEADER_WHITELIST)
  ∧ (fetched.1.1 = 200 → st = 200
     ∧ h !! "content-type" = Some "application/javascript; charset=utf-8")
  ∧ (fetched.1.1 = 404 → st = 404
     ∧ h !! "content-type" = Some "text/plain; charset=utf-8")
  ∧ (fetched.1.1 ≠ 200 → fetched.1.1 ≠ 404 →
     h !! "content-type" = None ∧ b = None
     ∧ st = if notModified host req (selectProperties fetched.1.2 HEADER_WHITELIST)
            then 304 else fetched.1.1)
  ∧ (∀ c, b = Some c →
          method request = "GET" ∧ c ≠ ""
          ∧ ((fetched.1.1 = 200 ∧ fetched.2 = BodyText c)
             ∨ (fetched.1.1 = 404
                ∧ c = "404: The requested resource could not be found."))).
Proof.
  unfold directProxy.
  destruct (requestURI host _ "GET" req) as [[status headers] content].
  simpl.
  assert (∀ k, is_Some (selectProperties headers HEADER_WHITELIST !! k) →
               k ∈ HEADER_WHITELIST) as Hwhite.
  { intros k [v Hk]. rewrite lookup_selectProperties in Hk. by case_decide. }
  destruct (status =? 200) eqn:H200; [apply Z.eqb_eq in H200 as ->|].
  { intros [= <- <- <-]. split; [|split; [|split; [|split]]].
    - intros k [v Hk].
      apply lookup_insert_Some in Hk as [[<- _]|[_ Hk]];
        [unfold HEADER_WHITELIST; set_solver | by apply Hwhite].
    - intros _. by rewrite lookup_insert_eq.
    - discriminate.
    - done.
    - intros c. destruct content as [| |text]; try discriminate.
      destruct (String.eqb (method request) "GET") eqn:Hget; [|discriminate].
      destruct (Str.isEmpty text) eqn:He; [discriminate|]. simpl.
      intros [= ->]. apply String.eqb_eq in Hget.
      split; [done|]. split; [by destruct c|]. by left. }
  apply Z.eqb_neq in H200.
  destruct (status =? 404) eqn:H404; [apply Z.eqb_eq in H404 as ->|].
  { intros [= <- <- <-]. split; [|split; [|split; [|split]]].
    - intros k [v Hk].
      apply lookup_insert_Some in Hk as [[<- _]|[_ Hk]];
        [unfold HEADER_WHITELIST; set_solver | by apply Hwhite].
    - discriminate.
    - intros _. by rewrite lookup_insert_eq.
    - done.
    - intros c.
      destruct (String.eqb (method request) "GET") eqn:Hget; [|discriminate].
      simpl. intros [= <-]. apply String.eqb_eq in Hget.
      split; [done|]. split; [done|]. by right. }
  apply Z.eqb_neq in H404.
  intros [= <- <- <-]. split; [|split; [|split; [|split]]].
  - intros k [v Hk]. apply lookup_delete_Some in Hk as [_ Hk].
    by apply Hwhite.
  - done.
  - done.
  - intros _ _. by rewrite lookup_delete_eq.
  - discriminate.
Qed.

(** X9. Without a [callback] parameter, a GET or HEAD request for a
    module is answered from one GET of its resource. The answer has no
    header outside the white list (so no [etag] and no cookie of the
    backend). A backend 200 is passed on as a 200 with the JavaScript
    content type; a backend 404 as a 404 with a plain-text content type;
    any other status without content type and without body, and as a 304
    when the white-listed headers are not modified for the request. A body
    is only written for GET, and it is the body of a backend 200 or the
    handler's own message for a 404. *)
Theorem handle_direct_proxy (host : Host) (server : ServerState)
    (request : Request) (u : URL) (modulePath : string) :
  url request = Some u →
  callback u = None →
  method request = "GET" ∨ method request = "HEAD" →
  modulePathOf server (normalizePath host (pathname u))
    = Some (Some modulePath) →
  modulePath ≠ "" →
  let uri := _resourceURIForModulePath server modulePath in
  let fetched := requestURI host uri "GET" (requestHeadersOf request) in
  ∃ st h b,
    handle host server request
    = (Responded st h b,
       [{| fetchURIs := [uri]; fetchMethod := "GET";
           fetchHeaders := requestHeadersOf request |}])
    ∧ (∀ k, is_Some (h !! k) → k ∈ HEADER_WHITELIST)
    ∧ (fetched.1.1 = 200 → st = 200
       ∧ h !! "content-type" = Some "application/javascript; charset=utf-8")
    ∧ (fetched.1.1 = 404 → st = 404
       ∧ h !! "content-type" = Some "text/plain; charset=utf-8")
    ∧ (fetched.1.1 ≠ 200 → fetched.1.1 ≠ 404 →
       h !! "content-type" = None ∧ b = None
       ∧ st = if notModified host (requestHeadersOf request)
                   (selectProperties fetched.1.2 HEADER_WHITELIST)
              then 304 else fetched.1.1)
    ∧ (∀ c, b = Some c →
            method request = "GET" ∧ c ≠ ""
            ∧ ((fetched.1.1 = 200 ∧ fetched.2 = BodyText c)
               ∨ (fetched.1.1 = 404
                  ∧ c = "404: The requested resource could not be found."))).
Proof.
  intros Hurl Hcb Hmeth Hpath Hne uri fetched.
  assert (handle host server request
          = (directProxy host server request (requestHeadersOf request)
               modulePath,
             [{| fetchURIs := [uri]; fetchMethod := "GET";
                 fetchHeaders := requestHeadersOf request |}])) as Hhandle.
  { unfold handle. rewrite Hurl, Hpath.
    assert (truthy (Some modulePath) = true) as ->.
    { destruct modulePath; [done | reflexivity]. }
    assert (negb (String.eqb (method request) "HEAD")
            && negb (String.eqb (method request) "GET") = false) as ->.
    { destruct Hmeth as [-> | ->]; reflexivity. }
    simpl. by rewrite Hcb. }
  destruct (directProxy host server request (requestHeadersOf request)
              modulePath) as [st h b| | |] eqn:Hproxy;
    try (unfold directProxy in Hproxy; repeat case_match; discriminate).
  exists st, h, b. split; [by rewrite Hhandle|].
  by apply (directProxy_response host server request _ modulePath).
Qed.

Lemma handle_direct_proxy_witness :
  ∃ st h b,
    handle (hostOf threeBackend) (Platform.defaultServer None)
      {| url := Some {| pathname := "/library/m/1.js"; search := "";
                        callback := None |};
         method := "GET"; headers := ∅; hasNext := false |}
    = (Responded st h b,
       [{| fetchURIs := ["http://l.example/m/1.js"]; fetchMethod := "GET";
           fetchHeaders := {["user-agent" := "yajsml"; "accept" := "*/*"]} |}])
    ∧ b = Some "one()".
Proof.
  destruct (handle_direct_proxy (hostOf threeBackend)
              (Platform.defaultServer None)
              {| url := Some {| pathname := "/library/m/1.js"; search := "";
                                callback := None |};
                 method := "GET"; headers := ∅; hasNext := false |}
              {| pathname := "/library/m/1.js"; search := "";
                 callback := None |} "m/1.js"
              eq_refl eq_refl (or_introl eq_refl) eq_refl)
    as (st & h & b & Hhandle & _).
  { discriminate. }
  exists st, h, b. split.
  - rewrite Hhandle. reflexivity.
  - vm_compute in Hhandle. by injection Hhandle as <- <- <-.
Defined.

(** X10. A HEAD request is never answered with content of the backend:
    the response has no body, or it is one of the handler's own messages
    (statuses 307, 400, 404 and 422). In particular a 200 or a 304 for a
    HEAD request has no body. *)
Theorem handle_HEAD_body (host : Host) (server : ServerState)
    (request : Request) (st : Z) (h : Headers) (b : option string) :
  method request = "HEAD" →
  (handle host server request).1 = Responded st h b →
  b = None ∨ st ∈ [307; 400; 404; 422].
Proof.
  intros Hhead. unfold handle.
  destruct (url request) as [u|]; [|intros [= <- _ _]; right; set_solver].
  destruct (modulePathOf server _) as [modulePath|]; [|discriminate].
  destruct (negb (truthy modulePath)).
  { destruct (hasNext request); [discriminate|].
    intros [= <- _ _]. right. set_solver. }
  rewrite Hhead. simpl.
  destruct (callback u) as [cb|]; simpl.
  - unfold bundle.
    destruct (Str.isEmpty cb); [intros [= <- _ _]; right; set_solver|].
    destruct (negb (matchesCallbackExpression cb));
      [intros [= <- _ _]; right; set_solver|].
    destruct (negb (String.eqb _ _));
      [intros [= <- _ _]; right; set_solver|].
    intros (_ & _ & Hb)%fetchBundle_response. left. by apply Hb.
  - unfold directProxy. rewrite Hhead.
    destruct (requestURI host _ _ _) as [[status headers] content].
    intros Hresp. left. repeat case_match; by injection Hresp as _ _ <-.
Qed.

Lemma handle_HEAD_body_witness :
  (None : option string) = None ∨ (200 : Z) ∈ [307; 400; 404; 422].
Proof.
  apply (handle_HEAD_body (hostOf threeBackend)
           (Platform.defaultServer (Some threeAssociator))
           {| url := Some {| pathname := "/library/m/1.js";
                             search := "?callback=cb";
                             callback := Some "cb" |};
              method := "HEAD"; headers := ∅; hasNext := false |}
           200
           (bundleHeaders ∅)
           None).
  - reflexivity.
  - vm_compute. reflexivity.
Defined.

(** X11. A GET or HEAD request for a module whose [callback] parameter is
    present is refused with a 400 exactly when the parameter is empty or
    holds a character outside the class of [JSONP_CALLBACK_EXPRESSION] (the
    letters, the digits, the dollar sign, the colon, the dot, the
    underscore, the two quotes, the backslash and the three pairs of
    brackets); the refusal is decided before any call to the backend. *)
Theorem callback_refused_iff (host : Host) (server : ServerState)
    (request : Request) (u : URL) (cb modulePath : string) :
  url request = Some u →
  callback u = Some cb →
  method request = "GET" ∨ method request = "HEAD" →
  modulePathOf server (normalizePath host (pathname u))
    = Some (Some modulePath) →
  modulePath ≠ "" →
  ((∃ h b, (handle host server request).1 = Responded 400 h b)
   ↔ (cb = "" ∨ Str.forallb callbackChar cb = false))
  ∧ (cb = "" ∨ Str.forallb callbackChar cb = false →
     (handle host server request).2 = []
     ∧ ∃ b, (handle host server request).1 = Responded 400 textPlain b).
Proof.
  intros Hurl Hcb Hmeth Hpath Hne.
  assert (handle host server request
          = bundle host server request (requestHeadersOf request)
              (normalizePath host (pathname u)) u cb modulePath) as ->.
  { unfold handle. rewrite Hurl, Hpath.
    assert (truthy (Some modulePath) = true) as ->.
    { destruct modulePath; [done | reflexivity]. }
    assert (negb (String.eqb (method request) "HEAD")
            && negb (String.eqb (method request) "GET") = false) as ->.
    { destruct Hmeth as [-> | ->]; reflexivity. }
    simpl. by rewrite Hcb. }
  unfold bundle, matchesCallbackExpression.
  destruct cb as [|c cb'] eqn:Ecb; simpl.
  { split; [|eauto]. split; [by left | eauto]. }
  set (cb0 := String c cb').
  change (callbackChar c && Str.forallb callbackChar cb')
    with (Str.forallb callbackChar cb0).
  destruct (Str.forallb callbackChar cb0) eqn:Hall; simpl.
  - split; [|intros [?|?]; discriminate]. split; [|intros [?|?]; discriminate].
    intros (h & b & Hresp). exfalso. revert Hresp.
    destruct (negb _); [discriminate|].
    intros [?|?]%fetchBundle_status; discriminate.
  - split; [|eauto]. split; [by right | eauto].
Qed.

Lemma callback_refused_iff_witness :
  (handle (hostOf emptyBackend) simpleServer
     {| url := Some {| pathname := "/library/a";
                       search := "?callback=<script>";
                       callback := Some "<script>" |};
        method := "GET"; headers := ∅; hasNext := false |}).2 = []
  ∧ ∃ b, (handle (hostOf emptyBackend) simpleServer
            {| url := Some {| pathname := "/library/a";
                              search := "?callback=<script>";
                              callback := Some "<script>" |};
               method := "GET"; headers := ∅; hasNext := false |}).1
         = Responded 400 textPlain b.
Proof.
  apply (callback_refused_iff (hostOf emptyBackend) simpleServer
           {| url := Some {| pathname := "/library/a";
                             search := "?callback=<script>";
                             callback := Some "<script>" |};
              method := "GET"; headers := ∅; hasNext := false |}
           {| pathname := "/library/a"; search := "?callback=<script>";
              callback := Some "<script>" |} "<script>" "a"
           eq_refl eq_refl (or_introl eq_refl) eq_refl).
  - discriminate.
  - right. reflexivity.
Defined.

(** X12. A request whose method is neither HEAD nor GET never reaches the
    backend; when its path names a module it is answered with a 405 that
    allows HEAD and GET, whatever its [callback] parameter. *)
Theorem handle_method_not_allowed (host : Host) (server : ServerState)
    (request : Request) :
  method request ≠ "HEAD" →
  method request ≠ "GET" →
  (handle host server request).2 = []
  ∧ ∀ u modulePath,
      url request = Some u →
      modulePathOf server (normalizePath host (pathname u))
        = Some (Some modulePath) →
      modulePath ≠ "" →
      (handle host server request).1
      = Responded 405
          {["allow" := "HEAD, GET";
            "content-type" := "text/plain; charset=utf-8"]}
          (Some "405: Only the HEAD or GET methods are allowed.").
Proof.
  intros Hhead%String.eqb_neq Hget%String.eqb_neq. unfold handle.
  split.
  - destruct (url request) as [u|]; [|done].
    destruct (modulePathOf server _) as [modulePath|]; [|done].
    destruct (negb (truthy modulePath)); [by destruct (hasNext request)|].
    by rewrite Hhead, Hget.
  - intros u modulePath -> -> Hne.
    assert (truthy (Some modulePath) = true) as ->.
    { destruct modulePath; [done | reflexivity]. }
    by rewrite Hhead, Hget.
Qed.

Lemma handle_method_not_allowed_witness :
  (handle (hostOf emptyBackend) simpleServer
     {| url := Some {| pathname := "/library/a"; search := "";
                       callback := None |};
        method := "POST"; headers := ∅; hasNext := true |}).2 = [].
Proof.
  apply (handle_method_not_allowed (hostOf emptyBackend) simpleServer
           {| url := Some {| pathname := "/library/a"; search := "";
                             callback := None |};
              method := "POST"; headers := ∅; hasNext := true |});
    discriminate.
Defined.

(** ** The aggregate status *)

Lemma foldl_reduceStep_agree (rest : list Z) (s : Z) :
  s ≠ 0 → Forall (eq s) rest → foldl reduceStep (Some s) rest = Some s.
Proof.
  intros Hs. induction 1 as [|x rest <- _ IH]; [done|]. simpl.
  assert (negb (s =? 0) && (s =? s) = true) as ->; [|exact IH].
  rewrite Z.eqb_refl, andb_true_r. apply negb_true_iff. by apply Z.eqb_neq.
Qed.

(** X27. The aggregate status of a fan-out is [s] exactly when the
    fan-out has a member, every member answered [s], and [s] is not 0
    unless the member is alone; it is the [TypeError] of [reduce] exactly
    when the fan-out has no member. *)
Theorem reduceStatus_agree (statuss : list Z) :
  (∀ s, reduceStatus statuss = Some (Some s)
        ↔ statuss ≠ [] ∧ Forall (eq s) statuss
          ∧ (s ≠ 0 ∨ length statuss = 1%nat))
  ∧ (reduceStatus statuss = None ↔ statuss = []).
Proof.
  split; [|by destruct statuss].
  intros s. destruct statuss as [|s0 rest]; simpl.
  { split; [discriminate | by intros [? _]]. }
  split.
  - intros [= Hfold]. split; [done|].
    pose proof Hfold as [-> Hall]%foldl_reduceStep_Some.
    split; [by constructor|].
    destruct rest as [|s1 rest]; [by right|]. left. intros ->.
    simpl in Hfold. by rewrite foldl_reduceStep_None in Hfold.
  - intros (_ & Hall & Hs). apply Forall_cons in Hall as [<- Hall]. f_equal.
    destruct Hs as [Hs|Hlen]; [by apply foldl_reduceStep_agree|].
    by destruct rest.
Qed.

(** X28. A bundle without a member cannot be answered: when the
    associator gives the module no member and the fan-out over no resource
    calls back with no status, the handler makes the HEAD fan-out and then
    fails on the aggregate status, which it passes to [next]. *)
Theorem empty_bundle_fails (host : Host) (server : ServerState)
    (request : Request) (u : URL) (cb modulePath : string) :
  url request = Some u →
  callback u = Some cb →
  matchesCallbackExpression cb = true →
  method request = "GET" ∨ method request = "HEAD" →
  modulePathOf server (normalizePath host (pathname u))
    = Some (Some modulePath) →
  modulePath ≠ "" →
  preferredPathOf server modulePath = modulePath →
  bundleMembers server modulePath = [] →
  statuss (requestURIs host [] "HEAD" (requestHeadersOf request)) = [] →
  handle host server request
  = (Failed, [headCall server (requestHeadersOf request) []]).
Proof.
  intros Hurl Hcb Hvalid Hmeth Hpath Hne Hpref Hmembers Hstatuss.
  unfold handle. rewrite Hurl, Hpath.
  assert (truthy (Some modulePath) = true) as ->.
  { destruct modulePath; [done | reflexivity]. }
  assert (negb (String.eqb (method request) "HEAD")
          && negb (String.eqb (method request) "GET") = false) as ->.
  { destruct Hmeth as [-> | ->]; reflexivity. }
  simpl. rewrite Hcb. unfold bundle, str. simpl.
  assert (Str.isEmpty cb = false) as ->.
  { unfold matchesCallbackExpression in Hvalid.
    apply andb_true_iff in Hvalid as [Hv _]. by apply negb_true_iff in Hv. }
  rewrite Hvalid, Hpref, String.eqb_refl. simpl.
  unfold fetchBundle. rewrite Hmembers. simpl.
  unfold fetch, headCall, resourceURIsOf. simpl. by rewrite Hstatuss.
Qed.

Lemma empty_bundle_fails_witness :
  let server :=
    Platform.defaultServer
      (Some (StaticAssociator {["a" := []]} {["a" := "a"]}
               IdentityAssociator)) in
  handle (hostOf emptyBackend) server conditionalGet
  = (Failed, [headCall server (requestHeadersOf conditionalGet) []]).
Proof.
  apply (empty_bundle_fails (hostOf emptyBackend)
           (Platform.defaultServer
              (Some (StaticAssociator {["a" := []]} {["a" := "a"]}
                       IdentityAssociator)))
           conditionalGet
           {| pathname := "/library/a"; search := "?callback=cb";
              callback := Some "cb" |} "cb" "a");
    try reflexivity.
  - by left.
  - discriminate.
Defined.

(** ** The two revisions of [relativePath] *)

Lemma relativePath_resolves_witness :
  relativePath "/library/a/b" "/library/c" = "../c"
  ∧ Url.resolveReference "/library/a/b"
      (relativePath "/library/a/b" "/library/c")
    = "/library/c".
Proof.
  split; [reflexivity|].
  apply (relativePath_resolves "/library/a/b" "/library/c").
  - repeat split; try reflexivity; repeat constructor; discriminate.
  - repeat split; try reflexivity; repeat constructor; discriminate.
  - reflexivity.
Defined.

Lemma firstDifference_None (fromSplit toSplit : list string) :
  firstDifference fromSplit toSplit = None ↔ fromSplit = toSplit.
Proof.
  revert toSplit. induction fromSplit as [|f fromSplit IH]; intros [|t toSplit];
    simpl; try done.
  destruct (String.eqb_spec f t) as [->|Hne].
  - rewrite fmap_None, IH. split; [by intros -> | by intros [= ->]].
  - split; [done | by intros [= ? _]].
Qed.

(** X14. The earlier revision of [relativePath], the one that
    [src/server.js] holds, never returns when its two paths are equal (its
    loop runs past the end of both arrays), and returns for every other pair
    of paths. The current revision returns for every pair. *)
Theorem relativePath_earlier_diverges (from to : string) :
  relativePath_earlier from to = None ↔ from = to.
Proof.
  unfold relativePath_earlier.
  destruct (firstDifference (Str.split "/" from) (Str.split "/" to))
    as [i|] eqn:E; simpl.
  - split; [done|]. intros ->.
    assert (firstDifference (Str.split "/" to) (Str.split "/" to) = None)
      as Hnone by (by apply firstDifference_None).
    congruence.
  - split; [|done]. intros _.
    apply firstDifference_None in E.
    by rewrite <- (join_split from), <- (join_split to), E.
Qed.

(** ** The members of a simple bundle *)

Lemma eqb_longer (s t : string) :
  (String.length t < String.length s)%nat → String.eqb s t = false.
Proof.
  intros Hlen. apply String.eqb_neq. intros ->. lia.
Qed.

Lemma forallb_slash_suffix (p suffix : string) :
  Str.forallb (Ascii.eqb "/") suffix = false →
  Str.forallb (Ascii.eqb "/") (p +:+ suffix) = false.
Proof.
  intros H. induction p as [|c p IH]; [done|]. simpl.
  by rewrite IH, andb_false_r.
Qed.

(** Inside a path that ends with [.js], the expression matches at a
    position only when what is left there is [.js] or one of the two
    writings of [index.js]. *)
Lemma suffixMatches_js (atStart : bool) (c : ascii) (p : string) :
  suffixMatches atStart (String c p +:+ ".js")
  = (atStart && String.eqb (String c p) "index")
    || String.eqb (String c p) "/index".
Proof.
  unfold suffixMatches.
  assert (String.eqb (String c p +:+ ".js") ".js" = false) as ->.
  { apply eqb_longer. rewrite string_length_app. simpl. lia. }
  assert (∀ q, String.eqb (String c p +:+ ".js") (q +:+ ".js")
               = String.eqb (String c p) q) as Hcancel.
  { intros q. destruct (String.eqb_spec (String c p) q) as [->|Hne].
    - apply String.eqb_refl.
    - apply String.eqb_neq. intros E. apply Hne.
      revert E. generalize (String c p). clear.
      intros s. revert q. induction s as [|a s IH]; intros [|b q]; simpl.
      + done.
      + intros E. apply (f_equal String.length) in E.
        simpl in E. rewrite string_length_app in E. simpl in E. lia.
      + intros E. apply (f_equal String.length) in E.
        simpl in E. rewrite string_length_app in E. simpl in E. lia.
      + intros [= -> E]. f_equal. by apply IH. }
  assert (String.eqb (String c p +:+ ".js") "index.js"
          = String.eqb (String c p) "index") as -> by apply (Hcancel "index").
  assert (String.eqb (String c p +:+ ".js") "/index.js"
          = String.eqb (String c p) "/index") as -> by apply (Hcancel "/index").
  change (String c p +:+ ".js") with (String c (p +:+ ".js")).
  cbv beta iota.
  assert (Str.forallb (Ascii.eqb "/") (p +:+ ".js") = false) as ->
    by (by apply forallb_slash_suffix).
  by rewrite !andb_false_r, orb_false_r.
Qed.

Lemma stripFrom_js (atStart : bool) (p : string) :
  (atStart = true → p ≠ "index") →
  (∀ q, p ≠ q +:+ "/index") →
  stripFrom atStart (p +:+ ".js") = p.
Proof.
  revert atStart. induction p as [|c p IH]; intros atStart Hindex Hend.
  - by destruct atStart.
  - change (stripFrom atStart (String c p +:+ ".js"))
      with (if suffixMatches atStart (String c p +:+ ".js") then ""
            else String c (stripFrom false (p +:+ ".js"))).
    rewrite suffixMatches_js.
    assert (String.eqb (String c p) "/index" = false) as ->.
    { apply String.eqb_neq. intros E. by apply (Hend ""). }
    assert (atStart && String.eqb (String c p) "index" = false) as ->.
    { destruct atStart; [|done]. rewrite andb_true_l.
      apply String.eqb_neq. by apply Hindex. }
    simpl. f_equal. apply IH; [discriminate|].
    intros q ->. by apply (Hend (String c q)).
Qed.

Lemma stripFrom_index_js (atStart : bool) (p : string) :
  stripFrom atStart (p +:+ "/index.js") = p.
Proof.
  revert atStart. induction p as [|c p IH]; intros atStart.
  - by destruct atStart.
  - change (stripFrom atStart (String c p +:+ "/index.js"))
      with (if suffixMatches atStart (String c p +:+ "/index.js") then ""
            else String c (stripFrom false (p +:+ "/index.js"))).
    assert (suffixMatches atStart (String c p +:+ "/index.js") = false) as ->.
    { unfold suffixMatches.
      rewrite !eqb_longer by (rewrite string_length_app; simpl; lia).
      simpl.
      assert (Str.forallb (Ascii.eqb "/") (p +:+ "/index.js") = false) as ->
        by (by apply forallb_slash_suffix).
      by rewrite !andb_false_r. }
    f_equal. apply IH.
Qed.



(** ** The table of a description *)

Lemma addBundle_shape (mapping : Mapping) (t t' : Tables) (bundle : string)
    (modules : list Member) :
  addBundle mapping t (bundle, modules) = Ok t' →
  bundleToModules t !! bundle = None
  ∧ bundleToModules t' = <[bundle := modules]> (bundleToModules t)
  ∧ forOf (addModule mapping bundle) modules
      (moduleToBundle t, indirections t)
    = Ok (moduleToBundle t', indirections t').
Proof.
  unfold addBundle.
  destruct (bundleToModules t !! bundle); [discriminate|].
  destruct (forOf (addModule mapping bundle) modules _) as [[m2b ind]|e];
    [|discriminate].
  simpl. by intros [= <-].
Qed.

(** The first loop on the first entries of a description: the invariant
    of the members met, and the table of bundles, which holds those entries
    and only exists when they name no bundle twice. *)
Lemma firstLoop_prefix (mapping pre : Mapping) (t : Tables) :
  forOf (addBundle mapping) pre emptyTables = Ok t →
  FirstLoopInv mapping (listed pre) (moduleToBundle t) (indirections t)
  ∧ NoDup pre.*1 ∧ bundleToModules t = list_to_map pre.
Proof.
  intros Hrun. split.
  - refine (forOf_inv (addBundle mapping)
              (fun pre t =>
                 FirstLoopInv mapping (listed pre) (moduleToBundle t)
                   (indirections t)) pre emptyTables t _ _ Hrun).
    + split; simpl; try done.
      * intros b m Hin. by apply elem_of_nil in Hin.
      * constructor.
    + intros pre' [bundle modules] post t1 t2 _ Hpre Hstep.
      by eapply addBundle_inv.
  - refine (forOf_inv (addBundle mapping)
              (fun pre t =>
                 NoDup pre.*1 ∧ bundleToModules t = list_to_map pre)
              pre emptyTables t _ _ Hrun).
    + split; [constructor | done].
    + intros pre' [bundle modules] post t1 t2 _ [Hnd Hmap]
        (Hfresh & Hins & _)%addBundle_shape.
      rewrite Hmap in Hfresh. apply not_elem_of_list_to_map in Hfresh.
      split.
      * rewrite fmap_app. apply NoDup_app. split; [done|].
        split; [|apply NoDup_singleton].
        intros x Hx ->%list_elem_of_singleton. done.
      * rewrite Hins, Hmap. symmetry. by apply list_to_map_snoc.
Qed.

(** The first loop returns the description as its table of bundles, and
    only for a description that names no bundle twice. *)
Lemma firstLoop_bundles (mapping : Mapping) (t : Tables) :
  firstLoop mapping = Ok t →
  NoDup mapping.*1 ∧ bundleToModules t = list_to_map mapping.
Proof. intros Hfirst. by apply (firstLoop_prefix mapping mapping t). Qed.

(** X16. When [associationsForSimpleMapping] returns, the description
    names no bundle twice and the first table is the description itself:
    each bundle with the members that the description lists for it, aliases
    included, in their order. *)
Theorem associationsForSimpleMapping_bundles (mapping : Mapping)
    (associations : Associations) :
  associationsForSimpleMapping mapping = Ok associations →
  NoDup mapping.*1
  ∧ ∀ bundle modules,
      associations.1 !! bundle = Some modules ↔ (bundle, modules) ∈ mapping.
Proof.
  intros (t & Hfirst & _ & ->)%associationsForSimpleMapping_Ok.
  destruct (firstLoop_bundles _ _ Hfirst) as [Hnd ->].
  split; [done|]. intros bundle modules.
  by rewrite <- elem_of_list_to_map.
Qed.

Lemma associationsForSimpleMapping_bundles_witness :
  NoDup plainMapping.*1
  ∧ ∀ bundle modules,
      (tableOf plainMapping).1 !! bundle = Some modules
      ↔ (bundle, modules) ∈ plainMapping.
Proof.
  apply (associationsForSimpleMapping_bundles plainMapping
           (tableOf plainMapping)).
  vm_compute. reflexivity.
Defined.

(** A module of a bundle that names no bundle, or names that very bundle,
    is given the bundle. *)
Lemma addModule_given (mapping : Mapping) (bundle : string)
    (m2b m2b' : gmap string string) (ind ind' : Indirections)
    (module : Member) :
  addModule mapping bundle (m2b, ind) module = Ok (m2b', ind') →
  (∀ x, is_Some (m2b !! x) → is_Some (m2b' !! x))
  ∧ ∀ x, module = Mod x → hasOwn mapping x = false ∨ x = bundle →
         m2b' !! x = Some bundle.
Proof.
  intros Hadd. split.
  - apply addModule_shape in Hadd as (_ & _ & [->|(path & _ & -> & _)]);
      [done|].
    intros x Hx. rewrite lookup_insert. by case_decide.
  - intros x -> Hcond. unfold addModule in Hadd. simpl in Hadd.
    destruct (indGet ind x) as [t|];
      [destruct (decide (t = None)); [|discriminate]|]; simpl in Hadd.
    all: assert (negb (hasOwn mapping x) || bool_decide (x = bundle) = true)
           as Hc by (destruct Hcond as [-> | ->];
                     [done | by rewrite bool_decide_eq_true_2, orb_true_r]).
    all: rewrite Hc in Hadd; injection Hadd as <- _;
      by rewrite lookup_insert_eq.
Qed.

Lemma firstLoop_given (mapping : Mapping) (t : Tables) :
  firstLoop mapping = Ok t →
  ∀ bundle x,
    (bundle, Mod x) ∈ listed mapping →
    hasOwn mapping x = false ∨ x = bundle →
    is_Some (moduleToBundle t !! x).
Proof.
  intros Hfirst. unfold firstLoop in Hfirst.
  refine (forOf_inv (addBundle mapping)
            (fun pre t =>
               ∀ bundle x, (bundle, Mod x) ∈ listed pre →
                           hasOwn mapping x = false ∨ x = bundle →
                           is_Some (moduleToBundle t !! x))
            mapping emptyTables t _ _ Hfirst).
  - intros bundle x Hin. by apply elem_of_nil in Hin.
  - intros pre [bundle modules] post t1 t2 _ Hpre (_ & _ & Hrun)%addBundle_shape.
    rewrite listed_snoc.
    refine (forOf_inv (addModule mapping bundle)
              (fun mpre st =>
                 ∀ B x,
                   (B, Mod x)
                   ∈ listed pre ++ ((fun module => (bundle, module)) <$> mpre) →
                   hasOwn mapping x = false ∨ x = B →
                   is_Some (st.1 !! x))
              modules (moduleToBundle t1, indirections t1)
              (moduleToBundle t2, indirections t2) _ _ Hrun).
    + simpl. intros B x. rewrite app_nil_r. apply Hpre.
    + intros mpre module mpost [m1 i1] [m2 i2] _ Hmpre
        [Hkeep Hnew]%addModule_given B x.
      simpl in *. rewrite fmap_app, app_assoc. simpl.
      intros [Hin|Hin%list_elem_of_singleton]%elem_of_app Hcond.
      * apply Hkeep. by apply (Hmpre B).
      * injection Hin as -> <-. rewrite (Hnew x eq_refl Hcond). by eexists.
Qed.

(** X17. In the table that [associationsForSimpleMapping] returns, the
    paths with a preferred path of their own are exactly the names that the
    description lists in some bundle, as a module or as an alias: for every
    other path the [StaticAssociator] asks its fallback. *)
Theorem associationsForSimpleMapping_domain (mapping : Mapping)
    (associations : Associations) (x : string) :
  associationsForSimpleMapping mapping = Ok associations →
  is_Some (associations.2 !! x)
  ↔ ∃ bundle modules module,
      (bundle, modules) ∈ mapping ∧ module ∈ modules
      ∧ moduleNameOf module = x.
Proof.
  intros (t & Hfirst & Hsecond & _)%associationsForSimpleMapping_Ok.
  pose proof (firstLoop_inv _ _ Hfirst) as [Hrec Horig Hnd Hbun].
  pose proof (secondLoop_inv _ _ _ Hnd Hsecond) as [Hends Hres Hdom].
  split.
  - intros [[B HB]|Hkey]%Hdom.
    + destruct (Hbun _ _ HB) as [(modules & ? & ?)%elem_of_listed _].
      by exists B, modules, (Mod x).
    + apply list_elem_of_fmap in Hkey as ([x' v] & -> & Hentry).
      apply (indGet_elem_NoDup _ _ _ Hnd) in Hentry.
      destruct (Horig _ _ Hentry) as (b & m & Hin & Hname & _).
      apply elem_of_listed in Hin as (modules & ? & ?).
      by exists b, modules, m.
  - intros (bundle & modules & module & Hentry & Hm & <-).
    assert ((bundle, module) ∈ listed mapping) as Hin
      by (apply elem_of_listed; eauto).
    apply Hrec, indGet_Some_elem in Hin.
    destruct (Hres _ _ Hin) as (r & _ & ->). by eexists.
Qed.

Lemma associationsForSimpleMapping_domain_witness :
  is_Some ((tableOf chainMapping).2 !! "/m")
  ↔ ∃ bundle modules module,
      (bundle, modules) ∈ chainMapping ∧ module ∈ modules
      ∧ moduleNameOf module = "/m".
Proof.
  apply (associationsForSimpleMapping_domain chainMapping
           (tableOf chainMapping) "/m").
  vm_compute. reflexivity.
Defined.

(** X18. In the table that [associationsForSimpleMapping] returns, with
    the identity as the fallback: a module that a bundle lists and that
    names a bundle itself is its own preferred path, and its members are
    the members that the description gives that bundle; a module that a
    bundle lists and that names no bundle has a bundle of the description
    that lists it as its preferred path, and is served with the members of
    that bundle, itself among them. *)
Theorem listed_module_bundle (mapping : Mapping)
    (associations : Associations) (bundle : string) (modules : list Member)
    (x : string) :
  associationsForSimpleMapping mapping = Ok associations →
  (bundle, modules) ∈ mapping →
  Mod x ∈ modules →
  let a := newStaticAssociator associations None in
  (∀ members, (x, members) ∈ mapping →
              preferredPath a x = x ∧ associatedModulePaths a x = members)
  ∧ (x ∉ mapping.*1 →
     ∃ B members,
       preferredPath a x = B ∧ (B, members) ∈ mapping
       ∧ Mod x ∈ members ∧ associatedModulePaths a x = members).
Proof.
  intros Hbuilt Hentry Hm a.
  destruct (associationsForSimpleMapping_Ok _ _ Hbuilt)
    as (t & Hfirst & Hsecond & Hb2m).
  destruct (firstLoop_bundles _ _ Hfirst) as [Hkeys Htable].
  pose proof (firstLoop_inv _ _ Hfirst) as [Hrec Horig Hnd Hbun].
  pose proof (secondLoop_inv _ _ _ Hnd Hsecond) as [Hends Hres Hdom].
  assert ((bundle, Mod x) ∈ listed mapping) as Hin
    by (apply elem_of_listed; eauto).
  assert (indTarget (indirections t) x = None) as Hend.
  { unfold indTarget. pose proof (Hrec _ _ Hin) as Hget. simpl in Hget.
    by rewrite Hget. }
  assert (associations.2 !! x = Some (default x (moduleToBundle t !! x)))
    as Hx.
  { pose proof (Hrec _ _ Hin) as Hget. apply indGet_Some_elem in Hget.
    destruct (Hres _ _ Hget) as (r & Hr & Hlook). simpl in Hr.
    injection Hr as <-. exact Hlook. }
  assert (∀ B members, (B, members) ∈ mapping →
                       associations.1 !! B = Some members) as Hmembers.
  { intros B members HB. rewrite Hb2m, Htable.
    by apply elem_of_list_to_map. }
  assert (∀ B, preferredPath a x = B →
               ∀ members, (B, members) ∈ mapping →
                          associatedModulePaths a x = members) as Hserved.
  { intros B HB members Hmem. unfold a, newStaticAssociator in *.
    cbn [associatedModulePaths]. rewrite HB.
    by rewrite (Hmembers _ _ Hmem). }
  assert (preferredPath a x = default x (moduleToBundle t !! x)) as Hpref.
  { unfold a, newStaticAssociator. simpl. by rewrite Hx. }
  split.
  - intros members Hself.
    assert (preferredPath a x = x) as Hxx.
    { rewrite Hpref. destruct (moduleToBundle t !! x) as [B|] eqn:HB; [|done].
      simpl. destruct (Hbun _ _ HB) as [_ [Hno| ->]]; [|done].
      unfold hasOwn in Hno. apply bool_decide_eq_false in Hno.
      exfalso. apply Hno. apply list_elem_of_fmap. by exists (x, members). }
    split; [done|]. by apply (Hserved x).
  - intros Hnokey.
    destruct (firstLoop_given _ _ Hfirst bundle x Hin) as [B HB].
    { left. unfold hasOwn. by apply bool_decide_eq_false. }
    destruct (Hbun _ _ HB) as [(members & HBm & Hxm)%elem_of_listed _].
    exists B, members.
    assert (preferredPath a x = B) as HxB by (by rewrite Hpref, HB).
    split; [done|]. split; [done|]. split; [done|]. by apply (Hserved B).
Qed.

Lemma listed_module_bundle_witness :
  let a := newStaticAssociator (tableOf plainMapping) None in
  ∃ B members,
    preferredPath a "/module/path/3.js" = B ∧ (B, members) ∈ plainMapping
    ∧ Mod "/module/path/3.js" ∈ members
    ∧ associatedModulePaths a "/module/path/3.js" = members.
Proof.
  refine (proj2 (listed_module_bundle plainMapping (tableOf plainMapping)
                   "/module/path/1.js"
                   [Mod "/module/path/1.js"; Mod "/module/path/2.js";
                    Mod "/module/path/3.js"; Mod "/module/path/4.js"]
                   "/module/path/3.js" _ _ _) _).
  - vm_compute. reflexivity.
  - left.
  - right. right. left.
  - apply (bool_decide_unpack _). vm_compute. exact I.
Defined.

(** ** What the construction of the table reports *)

(** A loop that throws has run on the elements before, and its body threw
    on the next one. *)
Lemma forOf_Throw_at {A S} (body : S -> A -> Result S) (l : list A) (s : S)
    (e : Error) :
  forOf body l s = Throw e →
  ∃ pre a post t,
    l = pre ++ a :: post ∧ forOf body pre s = Ok t ∧ body t a = Throw e.
Proof.
  revert s. induction l as [|x l IH]; intros s Hrun; [discriminate|].
  simpl in Hrun. destruct (body s x) as [t|e'] eqn:E.
  - destruct (IH t Hrun) as (pre & a & post & t' & -> & Hpre & Ha).
    exists (x :: pre), a, post, t'. split; [done|]. split; [|done].
    simpl. by rewrite E.
  - injection Hrun as ->. by exists [], x, l, s.
Qed.

Lemma listed_app (pre post : Mapping) :
  listed (pre ++ post) = listed pre ++ listed post.
Proof. unfold listed. by rewrite bind_app. Qed.

Lemma firstLoop_reported (mapping : Mapping) (e : Error) :
  firstLoop mapping = Throw e → reported mapping e.
Proof.
  intros (pre & [bundle modules] & post & t & Hmap & Hpre & Hthrow)%forOf_Throw_at.
  destruct (firstLoop_prefix _ _ _ Hpre) as (Hinv & Hnd & Htable).
  unfold addBundle in Hthrow.
  destruct (bundleToModules t !! bundle) as [ms|] eqn:Hold.
  - injection Hthrow as <-. simpl. exists pre, modules, post.
    split; [done|]. rewrite Htable in Hold.
    apply elem_of_list_to_map_2 in Hold.
    apply list_elem_of_fmap. by exists (bundle, ms).
  - destruct (forOf (addModule mapping bundle) modules _) as [[m2b ind]|e']
      eqn:Hinner; [discriminate|].
    simpl in Hthrow. injection Hthrow as ->.
    apply forOf_Throw_at in Hinner
      as (mpre & module & mpost & [m2b ind] & Hmodules & Hmpre & Hmod).
    assert (FirstLoopInv mapping
              (listed pre ++ ((fun module => (bundle, module)) <$> mpre))
              m2b ind) as [_ Horig _ _].
    { refine (forOf_inv (addModule mapping bundle)
                (fun mpre st =>
                   FirstLoopInv mapping
                     (listed pre ++ ((fun module => (bundle, module)) <$> mpre))
                     st.1 st.2) mpre _ (m2b, ind) _ _ Hmpre).
      - simpl. by rewrite app_nil_r.
      - intros mpre' module' post' [m1 i1] [m2 i2] _ Hp Hstep. simpl in *.
        rewrite fmap_app, app_assoc. simpl. by eapply addModule_inv. }
    pose proof (addModule_Throw _ _ _ _ _ Hmod) as ->.
    unfold addModule in Hmod.
    destruct (indGet ind (moduleNameOf module)) as [target|] eqn:Hget;
      [|destruct module; simpl in Hmod; try case_match; discriminate].
    destruct (decide (target = targetNameOf module)) as [->|Hne];
      [destruct module; simpl in Hmod; try case_match; discriminate|].
    destruct (Horig _ _ Hget) as (b1 & m1 & Hin & Hname & Htarget).
    simpl. exists b1, m1, bundle, module.
    assert (∀ x, x ∈ listed pre ++ ((fun module => (bundle, module)) <$> mpre)
                 → x ∈ listed mapping) as Hsub.
    { intros x Hx. rewrite Hmap, listed_app.
      apply elem_of_app in Hx as [Hx|Hx]; [apply elem_of_app; by left|].
      apply elem_of_app. right.
      change ((bundle, modules) :: post) with ([(bundle, modules)] ++ post).
      rewrite listed_app. apply elem_of_app. left.
      unfold listed. simpl. rewrite app_nil_r, Hmodules, fmap_app.
      apply elem_of_app. by left. }
    split; [by apply Hsub|]. split.
    { apply elem_of_listed. exists modules. split.
      - rewrite Hmap. apply elem_of_app. right. by left.
      - rewrite Hmodules. apply elem_of_app. right. by left. }
    split; [done|]. split; [done|]. by rewrite Htarget.
Qed.

(** The loop of the second half, followed along a relation [R] that the
    indirections generate: when it throws, the chain from [real] reaches a
    path that leads back to itself. *)
Lemma resolveLoop_reaches_cycle (R : relation string) (steps : nat)
    (ind : Indirections) (name : string) (seen : gset string)
    (real : string) (next : option string) (name' : string) :
  (∀ a b, indTarget ind a = Some b → R a b) →
  (∀ y, y ∈ seen → rtc R y real) →
  (∀ n, next = Some n → R real n) →
  resolveLoop steps ind name seen real next = Throw (AliasLoop name') →
  ∃ n, rtc R real n ∧ tc R n n.
Proof.
  intros HR. revert seen real next.
  induction steps as [|steps IH]; intros seen real next Hseen Hnext.
  - destruct next; simpl; discriminate.
  - destruct next as [n|]; simpl; [|discriminate].
    pose proof (Hnext n eq_refl) as Hstep.
    case_decide as Hin.
    + intros _. exists n. split; [by apply rtc_once|].
      eapply tc_rtc_l; [by apply Hseen | by apply tc_once].
    + intros Hrun. apply IH in Hrun as (m & Hm & Hcycle).
      * exists m. split; [|done]. by eapply rtc_l.
      * intros y [->%elem_of_singleton|Hy]%elem_of_union; [done|].
        eapply rtc_r; [by apply Hseen | done].
      * intros n' Hn'. by apply HR.
Qed.

Lemma secondLoop_reported (mapping : Mapping) (t : Tables) (e : Error) :
  firstLoop mapping = Ok t →
  secondLoop (indirections t) (moduleToBundle t) = Throw e →
  reported mapping e.
Proof.
  intros Hfirst Hsecond.
  pose proof (firstLoop_inv _ _ Hfirst) as [_ _ Hnd _].
  destruct (secondLoop_Throw _ _ _ Hnd Hsecond) as [name' ->].
  apply forOf_Throw in Hsecond as ([name target] & m2b & Hentry & Hthrow).
  unfold resolveEntry in Hthrow.
  destruct (resolveLoop _ _ _ _ _ _) as [r|e] eqn:Hloop; [discriminate|].
  injection Hthrow as ->.
  pose proof (resolveLoop_Throw _ _ _ _ _ _ _ Hloop) as [[= ->]|?];
    [|discriminate].
  pose proof (indGet_elem_NoDup _ _ _ Hnd Hentry) as Hget.
  destruct target as [b|]; [|discriminate Hloop].
  assert (indTarget (indirections t) name = Some b) as Hb
    by (unfold indTarget; by rewrite Hget).
  simpl. split.
  - exists b. by apply (firstLoop_alias _ _ _ _ Hfirst).
  - apply (resolveLoop_reaches_cycle (aliasEntry mapping)) in Hloop; [done| | |].
    + intros x y. by apply (firstLoop_alias _ _ _ _ Hfirst).
    + by intros y ->%elem_of_singleton.
    + intros n [= <-]. by apply (firstLoop_alias _ _ _ _ Hfirst).
Qed.

(** What [associationsForSimpleMapping] throws reports a defect of the
    description. *)
Lemma thrown_reported (mapping : Mapping) (e : Error) :
  associationsForSimpleMapping mapping = Throw e → reported mapping e.
Proof.
  unfold associationsForSimpleMapping.
  destruct (firstLoop mapping) as [t|e'] eqn:Hfirst; simpl.
  - destruct (secondLoop _ _) as [m2b|e'] eqn:Hsecond; simpl; [discriminate|].
    intros [= ->]. by eapply secondLoop_reported.
  - intros [= ->]. by apply firstLoop_reported.
Qed.

(** A description that names no bundle twice is not reported for it. *)
Lemma reported_duplicate (mapping : Mapping) (bundle : string) :
  NoDup mapping.*1 → ¬ reported mapping (BundleAlreadyDefined bundle).
Proof.
  intros Hnd (pre & modules & post & -> & Hin).
  rewrite fmap_app in Hnd. apply NoDup_app in Hnd as (_ & Hdis & _).
  apply (Hdis _ Hin). by left.
Qed.

(** X19. [associationsForSimpleMapping] returns a table or throws one of
    its three errors, and each error reports a defect of the description:
    [bundle ... already defined], a bundle that the description names twice
    (so never for the entries of an object); [conflicting definition of
    module ...], a name that two members list with different targets (a
    module and an alias, or aliases of two paths); [alias loop while
    resolving ...], an alias whose chain reaches a path that the aliases
    lead back to itself. *)
Theorem associationsForSimpleMapping_reports (mapping : Mapping) :
  (∃ associations, associationsForSimpleMapping mapping = Ok associations)
  ∨ ∃ e, associationsForSimpleMapping mapping = Throw e
         ∧ e ≠ OutOfSteps ∧ reported mapping e.
Proof.
  destruct (associationsForSimpleMapping mapping) as [a|e] eqn:E; [eauto|].
  right. exists e. split; [done|].
  pose proof (thrown_reported _ _ E) as Hreported.
  split; [|done]. intros ->. exact Hreported.
Qed.

(** The two aliases that lead to each other are reported as a loop. *)
Example loopMapping_reported :
  associationsForSimpleMapping loopMapping = Throw (AliasLoop "a")
  ∧ reported loopMapping (AliasLoop "a").
Proof.
  assert (associationsForSimpleMapping loopMapping = Throw (AliasLoop "a"))
    as E by (vm_compute; reflexivity).
  split; [exact E | by apply thrown_reported].
Qed.

(** The loop follows the chain: what it returns is reached from [real]. *)
Lemma resolveLoop_Ok_reach (R : relation string) (steps : nat)
    (ind : Indirections) (name : string) (seen : gset string)
    (real : string) (next : option string) (r : string) :
  (∀ a b, indTarget ind a = Some b → R a b) →
  (∀ n, next = Some n → R real n) →
  resolveLoop steps ind name seen real next = Ok r →
  rtc R real r.
Proof.
  intros HR. revert seen real next.
  induction steps as [|steps IH]; intros seen real next Hnext.
  - destruct next; simpl; [discriminate|]. by intros [= <-].
  - destruct next as [n|]; simpl; [|by intros [= <-]].
    case_decide; [discriminate|]. intros Hrun.
    eapply rtc_l; [by apply Hnext|].
    eapply IH; [|exact Hrun]. intros n' Hn'. by apply HR.
Qed.

(** On a relation that gives a path one successor at most, what is
    reached from a path of a cycle has a successor. *)
Lemma cycle_successor (R : relation string) (n r : string) :
  (∀ a b c, R a b → R a c → b = c) →
  tc R n n → rtc R n r → ∃ r', R r r'.
Proof.
  intros Hdet Hcycle Hreach. induction Hreach as [x|x y z Hxy Hyz IH].
  - inversion Hcycle; eauto.
  - apply IH. inversion Hcycle as [? ? Hxx|? y' ? Hxy' Hy'x]; subst.
    + rewrite <- (Hdet _ _ _ Hxx Hxy). by apply tc_once.
    + rewrite <- (Hdet _ _ _ Hxy' Hxy). eapply tc_r; [exact Hy'x|exact Hxy'].
Qed.

Lemma returned_no_cycle (mapping : Mapping) (associations : Associations)
    (n : string) :
  associationsForSimpleMapping mapping = Ok associations →
  ¬ aliasCycle mapping n.
Proof.
  intros (t & Hfirst & Hsecond & _)%associationsForSimpleMapping_Ok Hcycle.
  pose proof (firstLoop_inv _ _ Hfirst) as [_ _ Hnd _].
  assert (∀ a b c, aliasEntry mapping a b → aliasEntry mapping a c → b = c)
    as Hdet.
  { intros a b c Hb%(firstLoop_alias _ _ _ _ Hfirst)
      Hc%(firstLoop_alias _ _ _ _ Hfirst). congruence. }
  assert (∃ b, aliasEntry mapping n b) as [b Hb].
  { unfold aliasCycle in Hcycle. inversion Hcycle; eauto. }
  pose proof Hb as Hb'. apply (firstLoop_alias _ _ _ _ Hfirst) in Hb'.
  assert ((n, Some b) ∈ indirections t) as Hentry by (by apply indTarget_Some).
  destruct (forOf_Ok_each _ _ _ _ _ Hsecond Hentry)
    as (t0 & t1 & (r & Hr & _)%resolveEntry_shape).
  pose proof (resolveLoop_end _ _ _ _ _ _ _ Hb' Hr) as Hend.
  apply (resolveLoop_Ok_reach (aliasEntry mapping)) in Hr.
  - destruct (cycle_successor _ _ _ Hdet Hcycle Hr) as [r' Hr'].
    apply (firstLoop_alias _ _ _ _ Hfirst) in Hr'. congruence.
  - intros x y. by apply (firstLoop_alias _ _ _ _ Hfirst).
  - by intros ? [= <-].
Qed.

Lemma returned_namesAgree (mapping : Mapping) (associations : Associations) :
  associationsForSimpleMapping mapping = Ok associations → namesAgree mapping.
Proof.
  intros (t & Hfirst & _)%associationsForSimpleMapping_Ok.
  pose proof (firstLoop_inv _ _ Hfirst) as [Hrec _ _ _].
  intros b1 m1 b2 m2 H1%Hrec H2%Hrec Hname. rewrite Hname in H1. congruence.
Qed.

(** X20. [associationsForSimpleMapping] returns a table exactly for the
    descriptions that name no bundle twice, list no name with two different
    targets, and whose aliases lead from no path back to itself, whatever
    the length of the way; for every other description it throws. *)
Theorem associationsForSimpleMapping_returns_iff (mapping : Mapping) :
  (∃ associations, associationsForSimpleMapping mapping = Ok associations)
  ↔ NoDup mapping.*1 ∧ namesAgree mapping ∧ ∀ n, ¬ aliasCycle mapping n.
Proof.
  split.
  - intros [associations Hbuilt]. split; [|split].
    + destruct (associationsForSimpleMapping_Ok _ _ Hbuilt) as (t & Hfirst & _).
      by destruct (firstLoop_bundles _ _ Hfirst).
    + by eapply returned_namesAgree.
    + intros n. by eapply returned_no_cycle.
  - intros (Hnd & Hagree & Hacyclic).
    destruct (associationsForSimpleMapping mapping) as [a|e] eqn:E; [eauto|].
    exfalso. apply thrown_reported in E.
    destruct e as [bundle|name|name|]; simpl in E.
    + by apply (reported_duplicate mapping bundle).
    + destruct E as (b1 & m1 & b2 & m2 & H1 & H2 & Hn1 & Hn2 & Hne).
      apply Hne. apply (Hagree b1 m1 b2 m2); congruence.
    + destruct E as (_ & n & _ & Hcycle). by apply (Hacyclic n).
    + done.
Qed.

(** X21. A description that names no bundle twice and lists no alias
    always gives a table. *)
Theorem plain_description_returns (mapping : Mapping) :
  NoDup mapping.*1 →
  (∀ a, ¬ isAliasName mapping a) →
  ∃ associations, associationsForSimpleMapping mapping = Ok associations.
Proof.
  intros Hnd Hplain.
  assert (∀ b m, (b, m) ∈ listed mapping → targetNameOf m = None) as Hnone.
  { intros b [path|alias target] Hin; [done|]. exfalso.
    apply (Hplain alias). exists target.
    apply elem_of_listed in Hin as (modules & ? & ?). by exists b, modules. }
  destruct (associationsForSimpleMapping mapping) as [a|e] eqn:E; [eauto|].
  exfalso. apply thrown_reported in E.
  destruct e as [bundle|name|name|]; simpl in E.
  - by apply (reported_duplicate mapping bundle).
  - destruct E as (b1 & m1 & b2 & m2 & H1%Hnone & H2%Hnone & _ & _ & Hne).
    congruence.
  - destruct E as [Halias _]. by apply (Hplain name).
  - done.
Qed.

Lemma plain_description_returns_witness :
  ∃ associations, associationsForSimpleMapping plainMapping = Ok associations.
Proof.
  apply (plain_description_returns plainMapping).
  - apply (bool_decide_unpack _). vm_compute. exact I.
  - intros a (t & bundle & modules & Hentry & Hm).
    unfold plainMapping in Hentry.
    apply elem_of_cons in Hentry as [Hentry|Hentry];
      [|apply list_elem_of_singleton in Hentry];
      injection Hentry as -> ->;
      repeat (apply elem_of_cons in Hm as [Hm|Hm]; [discriminate Hm|]);
      by apply elem_of_nil in Hm.
Defined.

(** ** The constructor *)

Lemma endsWith_char_app (c : ascii) (s : string) :
  Str.endsWith_char c (s +:+ String c "") = true.
Proof.
  induction s as [|d s IH]; [simpl; by rewrite Ascii.eqb_refl|].
  change (String d s +:+ String c "") with (String d (s +:+ String c "")).
  destruct s as [|e s]; [simpl; by rewrite Ascii.eqb_refl | exact IH].
Qed.

Lemma endsWith_char_cons (c d : ascii) (s : string) :
  s ≠ "" → Str.endsWith_char c (String d s) = Str.endsWith_char c s.
Proof. by destruct s. Qed.

Lemma trailingSlash_ends (path : string) :
  path ≠ "" → Str.endsWith_char "/" (trailingSlash path) = true.
Proof.
  intros Hne. unfold trailingSlash.
  assert (Str.isEmpty path = false) as -> by (by destruct path).
  destruct (Str.endsWith_char "/" path) eqn:E; simpl; [done|].
  apply endsWith_char_app.
Qed.

Lemma trailingSlash_empty (path : string) :
  trailingSlash path = "" ↔ path = "".
Proof.
  unfold trailingSlash. destruct path as [|c path]; [done|]. simpl.
  by destruct (negb _).
Qed.

Lemma leadingSlash_slashes (path : string) :
  path ≠ "" → Str.endsWith_char "/" path = true →
  Str.startsWith "/" (leadingSlash path) = true
  ∧ Str.endsWith_char "/" (leadingSlash path) = true.
Proof.
  intros Hne Hend. unfold leadingSlash.
  assert (Str.isEmpty path = false) as -> by (by destruct path).
  destruct (Str.startsWith "/" path) eqn:E; cbn [negb andb]; [done|].
  change ("/" +:+ path) with (String "/" path).
  split; [reflexivity|]. by rewrite endsWith_char_cons.
Qed.

(** A path that the constructor leaves: empty, or between two
    separators. *)
Lemma configured_path (path : string) :
  leadingSlash (trailingSlash path) ≠ "" →
  Str.startsWith "/" (leadingSlash (trailingSlash path)) = true
  ∧ Str.endsWith_char "/" (leadingSlash (trailingSlash path)) = true.
Proof.
  intros Hne. apply leadingSlash_slashes.
  - intros E. apply Hne. by rewrite E.
  - apply trailingSlash_ends. intros ->. by apply Hne.
Qed.

Lemma truthy_str (v : option string) :
  truthy v = true → v = Some (str v) ∧ str v ≠ "".
Proof. destruct v as [[|c s]|]; try discriminate. done. Qed.

Lemma validateURI_None (protocolOf : string -> option string) (uri : string) :
  validateURI protocolOf uri = None →
  ∃ protocol, protocolOf uri = Some protocol
              ∧ protocol ∈ ["file:"; "http:"; "https:"].
Proof.
  unfold validateURI. destruct (protocolOf uri) as [protocol|]; [|discriminate].
  case_bool_decide; [eauto | discriminate].
Qed.

(** The fields that the constructor sets, read off one by one. *)
Lemma newServer_inr (protocolOf : string -> option string)
    (options : Options) (server : ServerState) :
  newServer protocolOf options = inr server →
  _rootURI server
  = (if truthy (rootURI options)
     then Some (trailingSlash (str (rootURI options))) else None)
  ∧ _rootPath server
    = (if truthy (rootURI options)
       then Some (leadingSlash
                    (trailingSlash (default "root" (rootPath options))))
       else None)
  ∧ _libraryURI server
    = (if truthy (libraryURI options)
       then Some (trailingSlash (str (libraryURI options))) else None)
  ∧ _libraryPath server
    = (if truthy (libraryURI options)
       then Some (leadingSlash
                    (trailingSlash (default "library" (libraryPath options))))
       else None)
  ∧ _baseURI server
    = (if truthy (baseURI options)
       then Some (trailingSlash (str (baseURI options))) else None)
  ∧ _associator server = None
  ∧ (_rootURI server ≫= validateURI protocolOf) = None
  ∧ (_libraryURI server ≫= validateURI protocolOf) = None
  ∧ truthy (_rootPath server) && truthy (_libraryPath server)
    && (Str.startsWith (str (_libraryPath server)) (str (_rootPath server))
        || Str.startsWith (str (_rootPath server)) (str (_libraryPath server)))
    = false.
Proof.
  unfold newServer.
  destruct (_ ≫= validateURI protocolOf) eqn:Hroot; [discriminate|].
  destruct (_ ≫= validateURI protocolOf) eqn:Hlibrary in |- *; [discriminate|].
  destruct (_ && _ && _) eqn:Hambiguous; [discriminate|].
  intros [= <-]. simpl. done.
Qed.

(** X22. A server that the constructor returns holds its URIs with a
    trailing separator and with the protocol [file:], [http:] or [https:];
    each of its two paths is set exactly when the URI of the same name is,
    and is empty or starts and ends with a separator; its base URI ends
    with a separator; it has no associator yet. *)
Theorem newServer_fields (protocolOf : string -> option string)
    (options : Options) (server : ServerState) :
  newServer protocolOf options = inr server →
  (∀ uri, _rootURI server = Some uri ∨ _libraryURI server = Some uri →
          Str.endsWith_char "/" uri = true
          ∧ ∃ protocol, protocolOf uri = Some protocol
                        ∧ protocol ∈ ["file:"; "http:"; "https:"])
  ∧ (∀ path, _rootPath server = Some path ∨ _libraryPath server = Some path →
             path ≠ "" →
             Str.startsWith "/" path = true
             ∧ Str.endsWith_char "/" path = true)
  ∧ (is_Some (_rootPath server) ↔ is_Some (_rootURI server))
  ∧ (is_Some (_libraryPath server) ↔ is_Some (_libraryURI server))
  ∧ (∀ uri, _baseURI server = Some uri → Str.endsWith_char "/" uri = true)
  ∧ _associator server = None.
Proof.
  intros (HrU & HrP & HlU & HlP & Hb & Ha & Hvr & Hvl & _)%newServer_inr.
  split; [|split; [|split; [|split; [|split]]]].
  - intros uri [Hu|Hu].
    + rewrite Hu in Hvr, HrU. simpl in Hvr. split; [|by apply validateURI_None].
      destruct (truthy (rootURI options)) eqn:E; [|discriminate].
      injection HrU as ->. apply trailingSlash_ends.
      by apply truthy_str in E as [_ ?].
    + rewrite Hu in Hvl, HlU. simpl in Hvl. split; [|by apply validateURI_None].
      destruct (truthy (libraryURI options)) eqn:E; [|discriminate].
      injection HlU as ->. apply trailingSlash_ends.
      by apply truthy_str in E as [_ ?].
  - intros path [Hp|Hp] Hne.
    + rewrite Hp in HrP. destruct (truthy (rootURI options)); [|discriminate].
      injection HrP as ->. by apply configured_path.
    + rewrite Hp in HlP. destruct (truthy (libraryURI options)); [|discriminate].
      injection HlP as ->. by apply configured_path.
  - rewrite HrU, HrP. destruct (truthy (rootURI options));
      split; intros [? ?]; by eexists.
  - rewrite HlU, HlP. destruct (truthy (libraryURI options));
      split; intros [? ?]; by eexists.
  - intros uri Hu. rewrite Hu in Hb.
    destruct (truthy (baseURI options)) eqn:E; [|discriminate].
    injection Hb as ->. apply trailingSlash_ends.
    by apply truthy_str in E as [_ ?].
  - done.
Qed.

Lemma startsWith_comparable (p q s : string) :
  Str.startsWith p s = true → Str.startsWith q s = true →
  Str.startsWith p q = true ∨ Str.startsWith q p = true.
Proof.
  revert q s. induction p as [|a p IH]; intros [|b q] [|c s]; simpl;
    try discriminate; auto.
  intros [->%Ascii.eqb_eq Hp]%andb_true_iff [->%Ascii.eqb_eq Hq]%andb_true_iff.
  rewrite Ascii.eqb_refl. simpl. by eapply IH.
Qed.

(** Two paths of which neither starts with the other have no path under
    both. *)
Lemma disjoint_prefixes (r l path : string) :
  Str.startsWith l r = false → Str.startsWith r l = false →
  Str.startsWith r path = true → Str.startsWith l path = false.
Proof.
  intros Hlr Hrl Hpath. destruct (Str.startsWith l path) eqn:E; [|done].
  destruct (startsWith_comparable _ _ _ Hpath E); congruence.
Qed.

(** The two paths that the constructor has accepted. *)
Lemma newServer_prefixes (protocolOf : string -> option string)
    (options : Options) (server : ServerState) (r l : string) :
  newServer protocolOf options = inr server →
  _rootPath server = Some r → r ≠ "" →
  _libraryPath server = Some l → l ≠ "" →
  Str.startsWith l r = false ∧ Str.startsWith r l = false.
Proof.
  intros (_ & _ & _ & _ & _ & _ & _ & _ & Hamb)%newServer_inr Hr Hrne Hl Hlne.
  rewrite Hr, Hl in Hamb. simpl in Hamb.
  assert (Str.isEmpty r = false) as Er by (by destruct r).
  assert (Str.isEmpty l = false) as El by (by destruct l).
  rewrite Er, El in Hamb. simpl in Hamb.
  by apply orb_false_iff in Hamb.
Qed.

(** X23. For a server that the constructor returns with two paths that
    are not empty, no request path is under both: the constructor has
    refused every pair of paths of which one starts with the other, so a
    request is never claimed by the root and by the library at once. *)
Theorem newServer_unambiguous (protocolOf : string -> option string)
    (options : Options) (server : ServerState) (r l path : string) :
  newServer protocolOf options = inr server →
  _rootPath server = Some r → r ≠ "" →
  _libraryPath server = Some l → l ≠ "" →
  Str.startsWith r path = true → Str.startsWith l path = false.
Proof.
  intros Hnew Hr Hrne Hl Hlne.
  destruct (newServer_prefixes _ _ _ r l Hnew Hr Hrne Hl Hlne) as [Hlr Hrl].
  by apply disjoint_prefixes.
Qed.

Lemma newServer_fields_witness :
  Str.startsWith "/" "/root/" = true ∧ Str.endsWith_char "/" "/root/" = true.
Proof.
  refine (proj1 (proj2 (newServer_fields Platform.protocolOf
                          {| rootURI := Some "http://r.example";
                             rootPath := None;
                             libraryURI := Some "http://l.example";
                             libraryPath := None;
                             baseURI := None |}
                          (Platform.defaultServer None) _))
            "/root/" (or_introl eq_refl) _).
  - vm_compute. reflexivity.
  - discriminate.
Defined.

Lemma newServer_unambiguous_witness :
  Str.startsWith "/library/" "/root/a.js" = false.
Proof.
  apply (newServer_unambiguous Platform.protocolOf
           {| rootURI := Some "http://r.example";
              rootPath := None;
              libraryURI := Some "http://l.example";
              libraryPath := None;
              baseURI := None |}
           (Platform.defaultServer None) "/root/" "/library/" "/root/a.js");
    try reflexivity; try discriminate.
Defined.

(** The constructor refuses two paths of which one starts with the
    other, here the same path given twice. *)
Example newServer_ambiguous :
  newServer Platform.protocolOf
    {| rootURI := Some "http://r.example"; rootPath := Some "js";
       libraryURI := Some "http://l.example"; libraryPath := Some "/js/";
       baseURI := None |}
  = inl (AmbiguousPaths "/js/" "/js/").
Proof. vm_compute. reflexivity. Qed.

(** X24. For a server that the constructor returns, a request path under
    the root path names the module with the rest of the path after a
    separator, whose resource is the root URI followed by that rest; a
    request path under the library path names the module with the rest of
    the path, whose resource is the library URI followed by that rest (the
    rest not starting with a separator, the library path not being empty,
    and the root path not being the empty path, which claims every
    request). *)
Theorem newServer_resources (protocolOf : string -> option string)
    (options : Options) (server : ServerState) :
  newServer protocolOf options = inr server →
  (∀ r x, _rootPath server = Some r →
          ∃ uri, _rootURI server = Some uri
                 ∧ modulePathOf server (r +:+ x) = Some (Some ("/" +:+ x))
                 ∧ _resourceURIForModulePath server ("/" +:+ x) = uri +:+ x)
  ∧ (∀ l x, _libraryPath server = Some l → l ≠ "" →
            _rootPath server ≠ Some "" →
            Str.startsWith "/" x = false →
            ∃ uri, _libraryURI server = Some uri
                   ∧ modulePathOf server (l +:+ x) = Some (Some x)
                   ∧ _resourceURIForModulePath server x = uri +:+ x).
Proof.
  intros Hnew.
  destruct (newServer_inr _ _ _ Hnew)
    as (HrU & HrP & HlU & HlP & _).
  split.
  - intros r x Hr.
    assert (∃ uri, _rootURI server = Some uri) as [uri Hu].
    { rewrite HrU. rewrite HrP in Hr.
      destruct (truthy (rootURI options)); [by eexists | discriminate]. }
    exists uri. split; [done|]. split.
    + unfold modulePathOf. rewrite Hr. simpl.
      by rewrite startsWith_app, Str_drop_app.
    + unfold _resourceURIForModulePath. by rewrite Hu.
  - intros l x Hl Hlne Hrne Hx.
    assert (∃ uri, _libraryURI server = Some uri ∧ uri ≠ ""
                   ∧ Str.startsWith "/" l = true) as (uri & Hu & Hune & Hlead).
    { rewrite HlU. rewrite HlP in Hl.
      destruct (truthy (libraryURI options)) eqn:E; [|discriminate].
      injection Hl as <-. eexists. split; [done|]. split.
      - intros Hempty. apply (proj1 (trailingSlash_empty _)) in Hempty.
        apply truthy_str in E as [_ Htrue]. by apply Htrue.
      - by apply configured_path. }
    exists uri. split; [done|].
    assert (Str.startsWith (str (_rootPath server)) (l +:+ x) = false) as Hnot.
    { destruct (_rootPath server) as [r|] eqn:Hr; simpl.
      - destruct (Str.startsWith r (l +:+ x)) eqn:E; [|done].
        assert (r ≠ "") as Hr' by congruence.
        destruct (newServer_prefixes _ _ _ r l Hnew Hr Hr' Hl Hlne)
          as [Hlr Hrl].
        pose proof (disjoint_prefixes _ _ _ Hlr Hrl E) as Hno.
        by rewrite startsWith_app in Hno.
      - apply startsWith_spec in Hlead as [rest ->]. reflexivity. }
    assert (truthy (_libraryURI server) = true) as Htruthy.
    { rewrite Hu. simpl. by destruct uri. }
    split.
    + unfold modulePathOf. rewrite Hnot, Htruthy, Hl. simpl.
      by rewrite startsWith_app, Str_drop_app.
    + unfold _resourceURIForModulePath. by rewrite Hx, Hu.
Qed.

Lemma newServer_resources_witness :
  ∃ uri, _libraryURI (Platform.defaultServer None) = Some uri
         ∧ modulePathOf (Platform.defaultServer None) ("/library/" +:+ "m/1.js")
           = Some (Some "m/1.js")
         ∧ _resourceURIForModulePath (Platform.defaultServer None) "m/1.js"
           = uri +:+ "m/1.js".
Proof.
  refine (proj2 (newServer_resources Platform.protocolOf
                   {| rootURI := Some "http://r.example";
                      rootPath := None;
                      libraryURI := Some "http://l.example";
                      libraryPath := None;
                      baseURI := None |}
                   (Platform.defaultServer None) _)
            "/library/" "m/1.js" _ _ _ _);
    try reflexivity; discriminate.
Defined.

(** ** Objects that are enumerated *)

Section ObjFacts.

Context {A : Type}.

Implicit Types (o : list (string * A)) (k : string) (v : A).

Lemma Obj_get_set o k k' v :
  Obj.get (Obj.set k v o) k' = if decide (k' = k) then Some v else Obj.get o k'.
Proof.
  induction o as [|[k0 v0] o IH]; simpl.
  - done.
  - destruct (decide (k = k0)) as [->|Hne]; simpl.
    + destruct (decide (k' = k0)); done.
    + rewrite IH. destruct (decide (k' = k0)) as [->|]; [|done].
      by rewrite decide_False by done.
Qed.

Lemma Obj_get_None o k : Obj.get o k = None ↔ k ∉ o.*1.
Proof.
  induction o as [|[k0 v0] o IH]; simpl.
  - split; [intros _ H; by apply elem_of_nil in H | done].
  - destruct (decide (k = k0)) as [->|Hne].
    + split; [done|]. intros H. exfalso. apply H. by left.
    + rewrite IH. split.
      * intros H [?|?]%elem_of_cons; done.
      * intros H Hin. apply H. by right.
Qed.

Lemma Obj_get_Some_elem o k v : Obj.get o k = Some v → (k, v) ∈ o.
Proof.
  induction o as [|[k0 v0] o IH]; simpl; [discriminate|].
  destruct (decide (k = k0)) as [->|Hne].
  - intros [= ->]. by left.
  - intros H. right. auto.
Qed.

Lemma Obj_get_elem o k v : NoDup o.*1 → (k, v) ∈ o → Obj.get o k = Some v.
Proof.
  induction o as [|[k0 v0] o IH]; simpl; intros Hnd Hin.
  - by apply elem_of_nil in Hin.
  - apply NoDup_cons in Hnd as [Hk0 Hnd].
    apply elem_of_cons in Hin as [[= -> ->]|Hin].
    + by rewrite decide_True.
    + rewrite decide_False; [auto|]. intros ->. apply Hk0.
      apply list_elem_of_fmap. by exists (k0, v).
Qed.

Lemma Obj_set_keys o k v :
  (Obj.set k v o).*1 = if decide (k ∈ o.*1) then o.*1 else o.*1 ++ [k].
Proof.
  induction o as [|[k0 v0] o IH].
  - destruct (decide (k ∈ ([] : list (string * A)).*1)) as [H|];
      [by apply elem_of_nil in H | done].
  - change (Obj.set k v ((k0, v0) :: o))
      with (if decide (k = k0) then (k, v) :: o
            else (k0, v0) :: Obj.set k v o).
    rewrite (fmap_cons fst (k0, v0) o).
    destruct (decide (k = k0)) as [->|Hne].
    + rewrite decide_True by (by left). done.
    + rewrite fmap_cons, IH. simpl fst.
      destruct (decide (k ∈ o.*1)) as [Hin|Hnin].
      * rewrite decide_True by (by right). done.
      * rewrite decide_False; [done|].
        intros [?|?]%elem_of_cons; done.
Qed.

Lemma Obj_set_NoDup o k v : NoDup o.*1 → NoDup (Obj.set k v o).*1.
Proof.
  intros Hnd. rewrite Obj_set_keys. case_decide as Hin; [done|].
  apply NoDup_app. split; [done|]. split; [|apply NoDup_singleton].
  intros x Hx ->%list_elem_of_singleton. done.
Qed.

Lemma Obj_get_alter o k k' (f : A -> A) :
  Obj.get (Obj.alter f k o) k'
  = if decide (k' = k) then f <$> Obj.get o k else Obj.get o k'.
Proof.
  unfold Obj.alter. destruct (Obj.get o k) as [v|] eqn:E.
  - rewrite Obj_get_set. by case_decide.
  - case_decide as Heq; [|done]. by rewrite Heq, E.
Qed.

Lemma Obj_alter_NoDup o k (f : A -> A) :
  NoDup o.*1 → NoDup (Obj.alter f k o).*1.
Proof.
  unfold Obj.alter. destruct (Obj.get o k); [apply Obj_set_NoDup | done].
Qed.

Lemma insertByIndex_Permutation (e : N * (string * A))
    (l : list (N * (string * A))) :
  Obj.insertByIndex e l ≡ₚ e :: l.
Proof.
  induction l as [|e' l IH]; simpl; [done|].
  destruct (e.1 <=? e'.1)%N; [done|]. rewrite IH. apply perm_swap.
Qed.

(** The enumeration of an object lists its properties, each once. *)
Lemma Obj_entries_Permutation o : Obj.entries o ≡ₚ o.
Proof.
  unfold Obj.entries.
  assert (∀ l : list (N * (string * A)),
            foldr Obj.insertByIndex [] l ≡ₚ l) as Hsort.
  { induction l as [|e l IH]; simpl; [done|].
    by rewrite insertByIndex_Permutation, IH. }
  rewrite Hsort.
  assert ((omap (fun e : string * A =>
                   (fun i => (i, e)) <$> Server.arrayIndexOf e.1) o).*2
          = filter (fun e => ¬ Server.arrayIndexOf e.1 = None) o) as ->.
  { induction o as [|e o IH]; [done|].
    rewrite filter_cons.
    destruct (Server.arrayIndexOf e.1) as [i|] eqn:E.
    - rewrite decide_True by done. simpl. rewrite E. simpl.
      f_equal. exact IH.
    - rewrite decide_False by (intros H; by apply H). simpl. rewrite E.
      exact IH. }
  rewrite Permutation_app_comm. apply filter_app_complement.
Qed.

Lemma Obj_entries_elem o e : e ∈ Obj.entries o ↔ e ∈ o.
Proof. by rewrite Obj_entries_Permutation. Qed.

Lemma Obj_entries_NoDup o : NoDup o.*1 → NoDup (Obj.entries o).*1.
Proof. intros H. by rewrite Obj_entries_Permutation. Qed.

Lemma Obj_keys_elem o k : k ∈ Obj.keys o ↔ is_Some (Obj.get o k).
Proof.
  unfold Obj.keys. rewrite Obj_entries_Permutation.
  destruct (Obj.get o k) as [v|] eqn:E.
  - split; [by eexists|]. intros _. apply Obj_get_Some_elem in E.
    apply list_elem_of_fmap. by exists (k, v).
  - apply Obj_get_None in E. split; [done | by intros [? ?]].
Qed.

End ObjFacts.

(** The enumeration of the module map of [packagedDefine] is that of an
    object. *)
Lemma Object_entries_Obj (o : ModuleMap) : Object_entries o = Obj.entries o.
Proof. reflexivity. Qed.

Import ComplexMapping.

(** ** The complex mapping *)

Lemma get_mark (blankMapping : list bool) (i : nat)
    (mapping : list (string * Association)) (key : Member) (k : string) :
  Obj.get (mark blankMapping i mapping key) k
  = if decide (k = propertyKey key)
    then Some (i, <[i := true]>
                    (default blankMapping
                       (snd <$> Obj.get mapping (propertyKey key))))
    else Obj.get mapping k.
Proof.
  unfold mark. rewrite Obj_get_alter. unfold Obj.has.
  destruct (Obj.get mapping (propertyKey key)) as [[i0 flags]|] eqn:E.
  - rewrite E. destruct (decide (k = propertyKey key)); reflexivity.
  - rewrite !Obj_get_set.
    rewrite (decide_True (P := propertyKey key = propertyKey key)) by done.
    destruct (decide (k = propertyKey key)); reflexivity.
Qed.

Lemma mark_NoDup (blankMapping : list bool) (i : nat)
    (mapping : list (string * Association)) (key : Member) :
  NoDup mapping.*1 → NoDup (mark blankMapping i mapping key).*1.
Proof.
  intros Hnd. unfold mark. apply Obj_alter_NoDup.
  destruct (Obj.has _ _); [done | by apply Obj_set_NoDup].
Qed.

Lemma marked_iff (n : nat) (P Q : nat -> Member -> Prop)
    (mapping : list (string * Association)) :
  (∀ j key, P j key ↔ Q j key) → marked n P mapping → marked n Q mapping.
Proof.
  intros HPQ [Hnd Hall]. split; [done|]. intros k. specialize (Hall k).
  destruct (Obj.get mapping k) as [[i flags]|].
  - destruct Hall as (Hlen & (key & Hkey & Hk) & Hflags & Hlast).
    split; [done|]. split; [exists key; split; [by apply HPQ | done]|]. split.
    + intros j. rewrite Hflags. by setoid_rewrite HPQ.
    + intros j key' Hj. apply Hlast. by apply HPQ.
  - intros j key Hj. apply (Hall j). by apply HPQ.
Qed.

(** One key more: the member [key] of the package of index [i], which is
    not below the index of any package met. *)
Lemma mark_marked (n : nat) (blankMapping : list bool)
    (P : nat -> Member -> Prop) (mapping : list (string * Association))
    (i : nat) (key : Member) :
  length blankMapping = n →
  (∀ j, blankMapping !! j ≠ Some true) →
  (i < n)%nat →
  (∀ j key', P j key' → (j <= i)%nat) →
  marked n P mapping →
  marked n (fun j key' => P j key' ∨ (j = i ∧ key' = key))
    (mark blankMapping i mapping key).
Proof.
  intros Hblank Hfalse Hi Hbound [Hnd Hall]. split; [by apply mark_NoDup|].
  intros k. rewrite get_mark. case_decide as Heq.
  - subst k. specialize (Hall (propertyKey key)).
    assert (∀ flags : list bool, length flags = n →
              ∀ j, <[i := true]> flags !! j = Some true
                   ↔ j = i ∨ flags !! j = Some true) as Hins.
    { intros flags Hlen j. destruct (decide (j = i)) as [->|Hne].
      - rewrite list_lookup_insert_eq by lia. split; [by left | done].
      - rewrite list_lookup_insert_ne by done. split; [by right|].
        by intros [?|?]. }
    split; [|split; [|split]].
    + destruct (Obj.get mapping (propertyKey key)) as [[i0 flags]|]; simpl.
      * rewrite length_insert. by destruct Hall.
      * by rewrite length_insert.
    + exists key. split; [by right | done].
    + intros j.
      destruct (Obj.get mapping (propertyKey key)) as [[i0 flags]|]; simpl.
      * destruct Hall as (Hlen & _ & Hflags & _).
        rewrite (Hins flags Hlen), Hflags. split.
        -- intros [->|(key' & ? & ?)]; [exists key; split; [by right|done]|].
           exists key'. split; [by left | done].
        -- intros (key' & [?|[-> ->]] & ?); [right; by exists key' | by left].
      * rewrite (Hins _ Hblank). split.
        -- intros [->|Hj]; [exists key; split; [by right|done]|].
           by apply Hfalse in Hj.
        -- intros (key' & [Hmet|[-> ->]] & Hk); [|by left].
           by destruct (Hall j key' Hmet).
    + intros j key' [Hmet|[-> _]] _; [by eapply Hbound | done].
  - specialize (Hall k).
    destruct (Obj.get mapping k) as [[i0 flags]|].
    + destruct Hall as (Hlen & (key0 & Hkey0 & Hk0) & Hflags & Hlast).
      split; [done|]. split; [exists key0; split; [by left|done]|]. split.
      * intros j. rewrite Hflags. split.
        -- intros (key' & ? & ?). exists key'. split; [by left | done].
        -- intros (key' & [?|[_ ->]] & ?); [by exists key' | done].
      * intros j key' [Hmet|[_ ->]] Hk; [by eapply Hlast | done].
    + intros j key' [Hmet|[_ ->]]; [by apply (Hall j) | done].
Qed.

(** The members of one package. *)
Lemma foldl_mark_marked (n : nat) (blankMapping : list bool) (i : nat)
    (modules : list Member) (P : nat -> Member -> Prop)
    (mapping : list (string * Association)) :
  length blankMapping = n →
  (∀ j, blankMapping !! j ≠ Some true) →
  (i < n)%nat →
  (∀ j key', P j key' → (j <= i)%nat) →
  marked n P mapping →
  marked n (fun j key' => P j key' ∨ (j = i ∧ key' ∈ modules))
    (foldl (mark blankMapping i) mapping modules).
Proof.
  intros Hblank Hfalse Hi. revert P mapping.
  induction modules as [|key modules IH]; intros P mapping Hbound Hinv.
  - simpl. eapply marked_iff; [|exact Hinv].
    intros j key'. split; [by left|]. intros [?|[_ H]]; [done|].
    by apply elem_of_nil in H.
  - simpl. eapply marked_iff; [|apply IH; [|by apply mark_marked]].
    + intros j key'. simpl. rewrite elem_of_cons. tauto.
    + intros j key' [?|[-> _]]; [by eapply Hbound | done].
Qed.

(** The packages from the index [offset] on. *)
Lemma foldl_markPackage_marked (n : nat) (blankMapping : list bool)
    (packageModuleMap : list (string * list Member)) (pkgs : list string)
    (offset : nat) (P : nat -> Member -> Prop)
    (mapping : list (string * Association)) :
  length blankMapping = n →
  (∀ j, blankMapping !! j ≠ Some true) →
  (offset + length pkgs <= n)%nat →
  (∀ j key, P j key → (j < offset)%nat) →
  marked n P mapping →
  marked n
    (fun j key =>
       P j key
       ∨ ∃ a pkg, pkgs !! a = Some pkg ∧ j = (offset + a)%nat
                  ∧ key ∈ default [] (Obj.get packageModuleMap pkg))
    (foldl (markPackage packageModuleMap blankMapping) mapping
       (imap (fun a pkg => ((offset + a)%nat, pkg)) pkgs)).
Proof.
  intros Hblank Hfalse. revert offset P mapping.
  induction pkgs as [|pkg pkgs IH]; intros offset P mapping Hlen Hbound Hinv.
  - simpl. eapply marked_iff; [|exact Hinv].
    intros j key. split; [by left|]. intros [?|(a & p & Ha & _)]; [done|].
    by rewrite lookup_nil in Ha.
  - rewrite imap_cons. cbn [foldl]. unfold markPackage at 2. cbn [fst snd].
    rewrite (imap_ext _ (fun a pkg => ((S offset + a)%nat, pkg)))
      by (intros; unfold compose; f_equal; lia).
    simpl in Hlen.
    eapply marked_iff; [|apply IH; [lia| |]].
    3: { apply foldl_mark_marked; [done|done|lia| |exact Hinv].
         intros j key Hj. apply Hbound in Hj. lia. }
    + intros j key. cbn beta. split.
      * intros [[?|[-> ?]]|(a & p & Ha & -> & ?)].
        -- by left.
        -- right. exists 0%nat, pkg. split; [done|]. split; [lia | done].
        -- right. exists (S a), p. split; [done|]. split; [lia | done].
      * intros [?|(a & p & Ha & -> & ?)]; [left; by left|].
        destruct a as [|a]; simpl in Ha.
        -- injection Ha as ->. left. right. split; [lia | done].
        -- right. exists a, p. split; [done|]. split; [lia | done].
    + intros j key [Hj|[-> _]]; [apply Hbound in Hj|]; lia.
Qed.

(** The mapping that [complexMappingForAssociations] returns: no key
    twice; an entry for every path that some package lists, with one flag
    per package, the flags of the packages that list the path, and the last
    of those packages as the primary one; no other entry. *)
Lemma complexMapping_marked {B : Type}
    (packageModuleMap : list (string * list Member)) (x : B) :
  let result := complexMappingForAssociations (packageModuleMap, x) in
  NoDup result.2.*1
  ∧ ∀ path,
      match Obj.get result.2 path with
      | None => ∀ j, ¬ packageLists packageModuleMap result.1 j path
      | Some (i, flags) =>
          length flags = length result.1
          ∧ packageLists packageModuleMap result.1 i path
          ∧ (∀ j, flags !! j = Some true
                  ↔ packageLists packageModuleMap result.1 j path)
          ∧ (∀ j, packageLists packageModuleMap result.1 j path →
                  (j <= i)%nat)
      end.
Proof.
  intros result. subst result. unfold complexMappingForAssociations.
  cbn [fst snd].
  set (packages := Obj.keys packageModuleMap).
  set (blankMapping := (fun _ : string => false) <$> packages).
  pose proof (foldl_markPackage_marked (length packages) blankMapping
                packageModuleMap packages 0 (fun _ _ => False) []) as Hinv.
  destruct Hinv as [Hnd Hall].
  { unfold blankMapping. by rewrite length_fmap. }
  { intros j Hj. unfold blankMapping in Hj.
    by apply list_lookup_fmap_Some in Hj as (? & [=] & _). }
  { simpl. lia. }
  { done. }
  { split; [apply NoDup_nil_2|]. intros k. simpl. by intros j key []. }
  split; [exact Hnd|]. intros path. specialize (Hall path).
  assert (∀ j, (∃ key,
                  (False
                   ∨ ∃ a pkg, packages !! a = Some pkg ∧ j = (0 + a)%nat
                              ∧ key ∈ default [] (Obj.get packageModuleMap pkg))
                  ∧ propertyKey key = path)
               ↔ packageLists packageModuleMap packages j path) as Hlists.
  { intros j. unfold packageLists. split.
    - intros (key & [[]|(a & pkg & Ha & -> & Hkey)] & Hpath).
      assert (is_Some (Obj.get packageModuleMap pkg)) as [modules Hm].
      { apply Obj_keys_elem. by eapply list_elem_of_lookup_2. }
      rewrite Hm in Hkey. by exists pkg, modules, key.
    - intros (pkg & modules & key & Hj & Hm & Hkey & Hpath).
      exists key. split; [|done]. right. exists j, pkg.
      rewrite Hm. done. }
  destruct (Obj.get _ path) as [[i flags]|].
  - destruct Hall as (Hlen & Hi & Hflags & Hlast).
    split; [done|]. split; [by apply Hlists|]. split.
    + intros j. by rewrite Hflags, Hlists.
    + intros j (key & Hj & Hk)%Hlists. by eapply Hlast.
  - intros j (key & Hj & Hk)%Hlists. by eapply Hall.
Qed.

(** X25. [complexMappingForAssociations] lists the packages, each once,
    and gives every path that some package lists one entry: one flag per
    package, the flag of a package telling whether the package lists the
    path, and as the primary package the last of the packages that list
    it. A path that no package lists has no entry. *)
Theorem complexMappingForAssociations_spec {B : Type}
    (packageModuleMap : list (string * list Member)) (x : B) :
  let result := complexMappingForAssociations (packageModuleMap, x) in
  result.1 ≡ₚ packageModuleMap.*1
  ∧ NoDup result.2.*1
  ∧ ∀ path,
      match Obj.get result.2 path with
      | None => ∀ j, ¬ packageLists packageModuleMap result.1 j path
      | Some (i, flags) =>
          length flags = length result.1
          ∧ packageLists packageModuleMap result.1 i path
          ∧ (∀ j, flags !! j = Some true
                  ↔ packageLists packageModuleMap result.1 j path)
          ∧ (∀ j, packageLists packageModuleMap result.1 j path →
                  (j <= i)%nat)
      end.
Proof.
  intros result. split.
  - unfold result, complexMappingForAssociations, Obj.keys. cbn [fst].
    by rewrite Obj_entries_Permutation.
  - exact (complexMapping_marked packageModuleMap x).
Qed.

(** The example of the source comment. *)
Example complexMappingForAssociations_comment :
  complexMappingForAssociations (plainMapping, ())
  = (["/module/path/1.js"; "/module/path/4.js"],
     [("/module/path/1.js", (0%nat, [true; false]));
      ("/module/path/2.js", (0%nat, [true; false]));
      ("/module/path/3.js", (1%nat, [true; true]));
      ("/module/path/4.js", (1%nat, [true; true]));
      ("/module/path/5.js", (1%nat, [false; true]))]).
Proof. vm_compute. reflexivity. Qed.

Lemma afterPushes_nil (held : option (list Member)) :
  afterPushes held [] = held.
Proof. destruct held as [l|]; [|done]. simpl. by rewrite app_nil_r. Qed.

Lemma afterPushes_app (held : option (list Member)) (l1 l2 : list Member) :
  afterPushes (afterPushes held l1) l2 = afterPushes held (l1 ++ l2).
Proof.
  destruct held as [l|], l1 as [|m l1], l2 as [|m' l2]; simpl;
    rewrite ?app_nil_r, <- ?app_assoc; done.
Qed.

Lemma get_includeIn (packages : list string) (path : string)
    (packageModuleMap : list (string * list Member)) (f : nat * bool)
    (pkg : string) :
  Obj.get (includeIn packages path packageModuleMap f) pkg
  = afterPushes (Obj.get packageModuleMap pkg)
      (if f.2 && bool_decide (default "undefined" (packages !! f.1) = pkg)
       then [Mod path] else []).
Proof.
  unfold includeIn. destruct f as [j [|]]; cbn [fst snd andb];
    [|by rewrite afterPushes_nil].
  set (pkg0 := default "undefined" (packages !! j)).
  rewrite Obj_get_alter. unfold Obj.has.
  destruct (decide (pkg = pkg0)) as [->|Hne].
  - rewrite bool_decide_eq_true_2 by done.
    destruct (Obj.get packageModuleMap pkg0) as [l|] eqn:E.
    + by rewrite E.
    + rewrite Obj_get_set. by rewrite decide_True.
  - rewrite bool_decide_eq_false_2 by done. rewrite afterPushes_nil.
    destruct (Obj.get packageModuleMap pkg0) as [l|] eqn:E; [done|].
    rewrite Obj_get_set. by rewrite decide_False.
Qed.

Lemma get_foldl_includeIn (packages : list string) (path : string)
    (fs : list (nat * bool)) (packageModuleMap : list (string * list Member))
    (pkg : string) :
  Obj.get (foldl (includeIn packages path) packageModuleMap fs) pkg
  = afterPushes (Obj.get packageModuleMap pkg)
      (fs ≫= (fun f =>
         if f.2 && bool_decide (default "undefined" (packages !! f.1) = pkg)
         then [Mod path] else [])).
Proof.
  revert packageModuleMap.
  induction fs as [|f fs IH]; intros packageModuleMap.
  - simpl. by rewrite afterPushes_nil.
  - cbn [foldl]. rewrite IH, get_includeIn, afterPushes_app. done.
Qed.

(** The modules of a package after [associationsForComplexMapping] are
    the paths pushed to it, in the order of the pushes. *)
Lemma get_foldl_associate_1 (packages : list string)
    (es : list (string * Association))
    (maps : list (string * list Member) * list (string * option string))
    (pkg : string) :
  Obj.get (foldl (associate packages) maps es).1 pkg
  = afterPushes (Obj.get maps.1 pkg) (pushedTo packages pkg es).
Proof.
  revert maps. induction es as [|[path [i flags]] es IH]; intros maps.
  - simpl. by rewrite afterPushes_nil.
  - cbn [foldl]. rewrite IH. unfold associate. cbn [fst snd].
    rewrite get_foldl_includeIn, afterPushes_app. done.
Qed.

(** The package of a path after [associationsForComplexMapping] is the
    package that its association names as the primary one. *)
Lemma get_foldl_associate_2 (packages : list string)
    (es : list (string * Association))
    (maps : list (string * list Member) * list (string * option string))
    (path : string) :
  NoDup es.*1 →
  Obj.get (foldl (associate packages) maps es).2 path
  = match Obj.get es path with
    | Some association => Some (packages !! association.1)
    | None => Obj.get maps.2 path
    end.
Proof.
  revert maps. induction es as [|[path0 [i flags]] es IH]; intros maps Hnd.
  - done.
  - apply NoDup_cons in Hnd as [Hfresh Hnd].
    cbn [foldl]. rewrite IH by done. unfold associate. cbn [fst snd].
    simpl. destruct (decide (path = path0)) as [->|Hne].
    + apply (Obj_get_None es path0) in Hfresh. rewrite Hfresh.
      by rewrite Obj_get_set, decide_True.
    + destruct (Obj.get es path); [done|].
      by rewrite Obj_get_set, decide_False.
Qed.

Lemma elem_of_pushedTo (packages : list string) (pkg : string)
    (es : list (string * Association)) (m : Member) :
  m ∈ pushedTo packages pkg es
  ↔ ∃ path i flags j,
      (path, (i, flags)) ∈ es ∧ flags !! j = Some true
      ∧ default "undefined" (packages !! j) = pkg ∧ m = Mod path.
Proof.
  unfold pushedTo. rewrite list_elem_of_bind. split.
  - intros ([path [i flags]] & Hm & He). cbn [fst snd] in Hm.
    apply list_elem_of_bind in Hm as ([j inc] & Hm & Hf).
    apply elem_of_lookup_imap in Hf as (j' & inc' & [= -> ->] & Hj).
    cbn [fst snd] in Hm. destruct inc'; [|by apply elem_of_nil in Hm].
    simpl in Hm. case_bool_decide as Hpkg; [|by apply elem_of_nil in Hm].
    apply list_elem_of_singleton in Hm as ->.
    by exists path, i, flags, j'.
  - intros (path & i & flags & j & He & Hj & Hpkg & ->).
    exists (path, (i, flags)). split; [|done]. cbn [fst snd].
    apply list_elem_of_bind. exists (j, true). split.
    + cbn [fst snd]. simpl. rewrite bool_decide_eq_true_2 by done. by left.
    + apply elem_of_lookup_imap. by exists j, true.
Qed.

(** X26. [associationsForComplexMapping] undoes
    [complexMappingForAssociations] as far as this: every package that
    lists a member comes back with the members that it listed, each as its
    path (an alias as the key that it is read as); a package that lists
    nothing does not come back; and every path that some package lists
    comes back with its primary package, the last of the packages that list
    it. The order of the members of a package may differ. *)
Theorem complexMapping_round_trip {B : Type}
    (packageModuleMap : list (string * list Member)) (x : B) :
  let result := complexMappingForAssociations (packageModuleMap, x) in
  let back := associationsForComplexMapping result.1 result.2 in
  (∀ pkg m,
     (∃ modules, Obj.get back.1 pkg = Some modules ∧ m ∈ modules)
     ↔ ∃ modules key,
         Obj.get packageModuleMap pkg = Some modules ∧ key ∈ modules
         ∧ m = Mod (propertyKey key))
  ∧ (∀ pkg, is_Some (Obj.get back.1 pkg)
            ↔ ∃ modules, Obj.get packageModuleMap pkg = Some modules
                         ∧ modules ≠ [])
  ∧ ∀ path,
      match Obj.get back.2 path with
      | None => ∀ j, ¬ packageLists packageModuleMap result.1 j path
      | Some primary =>
          ∃ i pkg,
            primary = Some pkg ∧ result.1 !! i = Some pkg
            ∧ packageLists packageModuleMap result.1 i path
            ∧ ∀ j, packageLists packageModuleMap result.1 j path →
                   (j <= i)%nat
      end.
Proof.
  intros result back.
  destruct (complexMapping_marked packageModuleMap x) as (Hnd & Hspec).
  fold result in Hnd, Hspec.
  set (packages := result.1) in *. set (mapping := result.2) in *.
  assert (∀ pkg, Obj.get back.1 pkg
                 = afterPushes None
                     (pushedTo packages pkg (Obj.entries mapping))) as Hget.
  { intros pkg. unfold back, associationsForComplexMapping.
    by rewrite get_foldl_associate_1. }
  assert (∀ pkg m,
            m ∈ pushedTo packages pkg (Obj.entries mapping)
            ↔ ∃ modules key,
                Obj.get packageModuleMap pkg = Some modules ∧ key ∈ modules
                ∧ m = Mod (propertyKey key)) as Hpushed.
  { intros pkg m. rewrite elem_of_pushedTo. split.
    - intros (path & i & flags & j & He & Hj & Hpkg & ->).
      apply Obj_entries_elem, (Obj_get_elem _ _ _ Hnd) in He.
      specialize (Hspec path). rewrite He in Hspec.
      destruct Hspec as (_ & _ & Hflags & _).
      apply Hflags in Hj as (pkg' & modules & key & Hpk & Hm & Hkey & <-).
      rewrite Hpk in Hpkg. simpl in Hpkg. subst pkg'. by exists modules, key.
    - intros (modules & key & Hm & Hkey & ->).
      assert (pkg ∈ packages) as Hin.
      { unfold packages, result, complexMappingForAssociations. cbn [fst].
        apply Obj_keys_elem. by eexists. }
      apply list_elem_of_lookup in Hin as [j Hj].
      assert (packageLists packageModuleMap packages j (propertyKey key))
        as Hlists by (by exists pkg, modules, key).
      specialize (Hspec (propertyKey key)).
      destruct (Obj.get mapping (propertyKey key)) as [[i flags]|] eqn:He;
        [|by destruct (Hspec j)].
      destruct Hspec as (_ & _ & Hflags & _).
      exists (propertyKey key), i, flags, j. split.
      { by apply Obj_entries_elem, Obj_get_Some_elem. }
      split; [by apply Hflags|]. split; [by rewrite Hj | done]. }
  split; [|split].
  - intros pkg m. rewrite <- Hpushed, Hget.
    destruct (pushedTo packages pkg (Obj.entries mapping)) as [|m0 l]; simpl.
    + split; [by intros (? & [=] & _)|]. by intros ?%elem_of_nil.
    + split; [by intros (? & [= <-] & ?) | by eexists].
  - intros pkg. rewrite Hget. split.
    + destruct (pushedTo packages pkg (Obj.entries mapping)) as [|m0 l] eqn:E;
        simpl; [by intros [? [=]]|]. intros _.
      assert (m0 ∈ pushedTo packages pkg (Obj.entries mapping)) as Hin
        by (rewrite E; by left).
      apply Hpushed in Hin as (modules & key & Hm & Hkey & _).
      exists modules. split; [done|]. intros ->. by apply elem_of_nil in Hkey.
    + intros (modules & Hm & Hne). destruct modules as [|key modules]; [done|].
      assert (Mod (propertyKey key)
              ∈ pushedTo packages pkg (Obj.entries mapping)) as Hin.
      { apply Hpushed. exists (key :: modules), key.
        split; [done|]. split; [by left | done]. }
      destruct (pushedTo packages pkg (Obj.entries mapping));
        [by apply elem_of_nil in Hin | by eexists].
  - intros path. unfold back, associationsForComplexMapping.
    rewrite get_foldl_associate_2 by (by apply Obj_entries_NoDup).
    specialize (Hspec path).
    assert (Obj.get (Obj.entries mapping) path = Obj.get mapping path) as ->.
    { destruct (Obj.get mapping path) as [a|] eqn:E.
      - apply Obj_get_elem; [by apply Obj_entries_NoDup|].
        by apply Obj_entries_elem, Obj_get_Some_elem.
      - apply Obj_get_None. apply Obj_get_None in E.
        unfold Obj.keys in *. by rewrite Obj_entries_Permutation. }
    destruct (Obj.get mapping path) as [[i flags]|]; [|exact Hspec].
    destruct Hspec as (_ & Hi & _ & Hlast).
    destruct Hi as (pkg & modules & key & Hpk & Hm & Hkey & Hpath).
    exists i, pkg. simpl. split; [done|]. split; [done|]. split; [|done].
    by exists pkg, modules, key.
Qed.

(** The example of the source comment, back from the complex mapping. *)
Example associationsForComplexMapping_comment :
  associationsForComplexMapping
    ["/module/path/1.js"; "/module/path/4.js"]
    [("/module/path/1.js", (0%nat, [true; false]));
     ("/module/path/2.js", (0%nat, [true; false]));
     ("/module/path/3.js", (1%nat, [true; true]));
     ("/module/path/4.js", (1%nat, [true; true]));
     ("/module/path/5.js", (1%nat, [false; true]))]
  = (plainMapping,
     [("/module/path/1.js", Some "/module/path/1.js");
      ("/module/path/2.js", Some "/module/path/1.js");
      ("/module/path/3.js", Some "/module/path/4.js");
      ("/module/path/4.js", Some "/module/path/4.js");
      ("/module/path/5.js", Some "/module/path/4.js")]).
Proof. vm_compute. reflexivity. Qed.
